(** * Marina wallet: UTXO reconciliation, balances and spent/change detection

    A shallow embedding of the TypeScript sources
    - the utility module that defines [toStringOutpoint] and
      [getUtxosFromTx],
    - the wallet redux actions ([createWallet], [restoreWallet],
      [getAllBalances], [compareUtxos], [setUtxos]),
    - [application/redux/backend.ts] ([makeUtxosUpdaterThunk]),
    followed by the properties established about them.

    Conventions.  A JavaScript [number] holding a satoshi amount, an output
    index or a length is an integer of [Z]; a field typed [T | undefined] is an
    [option T]; a JS object used as a dictionary is a [gmap string _]; a JS
    [Map] keyed by objects (reference identity, insertion order) is an
    association list.  A thunk is a function returning the trace of the
    effects it performs, in order, together with how its call ends.  The
    functions of ldk, axios, the crypto helpers and the repository are
    parameters, gathered in one class per module; a call that may throw or
    reject returns a [Try].  The continuations [onSuccess] and [onError] are
    recorded in the trace and taken not to throw. *)

From Stdlib Require Import ZArith Ascii DecimalString DecimalZ.
From stdpp Require Import gmap strings list fin_maps sorting.

Local Open Scope Z_scope.
Local Set Warnings "-clear-no-such-hyp".

(* ===================================================================== *)
(** * Part I: the embedded program                                         *)
(* ===================================================================== *)

(** ** JavaScript primitives used by the sources *)

Module JS.

(** [String(n)] for an integer [n], as template literals apply it: plain
    decimal digits, with a leading minus sign for negative values (JavaScript
    prints integers this way up to 10^21, far above any satoshi amount or
    output index). *)
Definition number_toString (n : Z) : string :=
  NilEmpty.string_of_int (Z.to_int n).

(** [`${x}`] for [x : string | undefined]. *)
Definition template_string (x : option string) : string :=
  match x with
  | Some s => s
  | None => "undefined"
  end.

(** [`${x}`] for [x : number | undefined]. *)
Definition template_number (x : option Z) : string :=
  match x with
  | Some n => number_toString n
  | None => "undefined"
  end.

(** Truthiness of a string: every string but the empty one. *)
Definition truthy_string (s : string) : bool :=
  negb (String.eqb s "").

(** Truthiness of [x : string | undefined]. *)
Definition truthy_ostring (x : option string) : bool :=
  match x with
  | Some s => truthy_string s
  | None => false
  end.

(** Truthiness of [x : number | undefined]: [undefined] and [0] are falsy. *)
Definition truthy_onumber (x : option Z) : bool :=
  match x with
  | Some n => negb (n =? 0)
  | None => false
  end.

(** How a call ends for its caller.  A synchronous function returns or
    throws.  An [async] function always returns a promise: a [throw] in its
    body, wherever it happens, rejects that promise and is no exception at
    the call site. *)
Inductive Completion : Type :=
| Returns
| Throws (message : string)
| PromiseFulfilled
| PromiseRejected (message : string).

End JS.

(** ** ldk data: outputs as the explorer and the unblinder return them *)

(** [UtxoInterface] / [UnblindedOutput]: [asset] and [value] are [undefined]
    while the output is blinded, [prevout] while the previous output has not
    been fetched. *)
Record UtxoInterface : Type := mkUtxo {
  txid : string;
  vout : Z;
  asset : option string;
  value : option Z;
  prevout : option string;
}.

Record Outpoint : Type := mkOutpoint {
  op_txid : string;
  op_vout : Z;
}.

(** [toOutpoint] of ldk: the [{txid, vout}] part of an output. *)
Definition toOutpoint (u : UtxoInterface) : Outpoint :=
  {| op_txid := txid u; op_vout := vout u |}.

(** [AddressInterface]. *)
Record AddressInterface : Type := mkAddress {
  confidentialAddress : string;
  blindingPrivateKey : string;
}.

(** ** application/utils: the outpoint key *)

(** [toStringOutpoint = (outpoint) => `${outpoint.txid}:${outpoint.vout}`],
    applied in the sources to outpoints and to whole outputs alike, hence
    stated on the two fields. *)
Definition toStringOutpoint_of (o_txid : string) (o_vout : Z) : string :=
  o_txid +:+ ":" +:+ JS.number_toString o_vout.

Definition toStringOutpoint (u : UtxoInterface) : string :=
  toStringOutpoint_of (txid u) (vout u).

Definition toStringOutpoint_op (o : Outpoint) : string :=
  toStringOutpoint_of (op_txid o) (op_vout o).

(** A txid as the data model has it: 64 hexadecimal characters. *)
Definition is_hex_digit (c : ascii) : bool :=
  let n := N_of_ascii c in
  ((48 <=? n) && (n <=? 57) || (97 <=? n) && (n <=? 102) ||
   (65 <=? n) && (n <=? 70))%N.

Fixpoint all_hex (s : string) : bool :=
  match s with
  | EmptyString => true
  | String c s' => is_hex_digit c && all_hex s'
  end.

Definition is_txid (s : string) : bool :=
  (String.length s =? 64)%nat && all_hex s.

(** ** Effects: fallible calls and the trace of an asynchronous thunk *)

(** The result of a call that may throw (or, awaited, reject). *)
Inductive Try (A : Type) : Type :=
| Ok (a : A)
| Throw (message : string).
Arguments Ok {A} a.
Arguments Throw {A} message.

(** A computation that emits effects of type [E] in order and either yields a
    value or stops at the first exception. *)
Definition Eff (E A : Type) : Type := list E * Try A.

Module Eff.

Definition ret {E A} (a : A) : Eff E A := ([], Ok a).

Definition bind {E A B} (m : Eff E A) (f : A → Eff E B) : Eff E B :=
  match m with
  | (t, Ok a) => let '(t', r) := f a in (t ++ t', r)
  | (t, Throw e) => (t, Throw e)
  end.

Definition emit {E} (e : E) : Eff E unit := ([e], Ok tt).

Definition lift {E A} (x : Try A) : Eff E A := ([], x).

(** [try { m } catch (error) { handler error }]. *)
Definition catch {E A} (m : Eff E A) (handler : string → Eff E A) : Eff E A :=
  match m with
  | (t, Ok a) => (t, Ok a)
  | (t, Throw e) => let '(t', r) := handler e in (t ++ t', r)
  end.

Definition emits {E} (l : list E) : Eff E unit := (l, Ok tt).

(** A synchronous function whose body is [m]. *)
Definition sync {E A} (m : Eff E A) : JS.Completion * list E :=
  match m with
  | (t, Ok _) => (JS.Returns, t)
  | (t, Throw e) => (JS.Throws e, t)
  end.

(** An [async] function whose body is [m]. *)
Definition async {E A} (m : Eff E A) : JS.Completion * list E :=
  match m with
  | (t, Ok _) => (JS.PromiseFulfilled, t)
  | (t, Throw e) => (JS.PromiseRejected e, t)
  end.

End Eff.

(** The monad structure, so that stdpp's [x ← m; k] and [m;; k] apply. *)
#[export] Instance Eff_ret {E} : MRet (Eff E) := λ A, @Eff.ret E A.
#[export] Instance Eff_bind {E} : MBind (Eff E) := λ A B f m, @Eff.bind E A B m f.

(** ** The wallet actions: [createWallet], [restoreWallet], [getAllBalances],
       [compareUtxos], [setUtxos] *)

Module Wallet.

(** The UTXO map of this module is a JS [Map<Outpoint, UtxoInterface>]:
    keys are objects compared by reference, so the map is the list of its
    entries in insertion order and two entries may carry equal outpoints. *)
Definition UtxoMap : Type := list (Outpoint * UtxoInterface).

Record IWallet : Type := mkWallet {
  masterXPub : string;
  masterBlindingKey : string;
  encryptedMnemonic : option string;
  passwordHash : string;
  confidentialAddresses : list string;
  utxoMap : UtxoMap;
}.

Record IAppState : Type := mkAppState {
  app_network : string;
  wallets : list IWallet;
}.

Inductive Action : Type :=
| INIT_WALLET (w : IWallet)
| WALLET_CREATE_SUCCESS (w : IWallet)
| WALLET_CREATE_FAILURE (error : string)
| WALLET_RESTORE_SUCCESS (w : IWallet)
| WALLET_RESTORE_FAILURE (error : string)
| WALLET_SET_UTXOS_SUCCESS (m : UtxoMap)
| WALLET_SET_UTXOS_FAILURE (error : string)
| WALLET_GET_ALL_BALANCES_SUCCESS
| WALLET_GET_ALL_BALANCES_FAILURE.

(** What a thunk of this module does to the outside: dispatches to the
    store, calls of the wallet repository (the persistent storage), and the
    continuations handed in by the caller. *)
Inductive Effect : Type :=
| Dispatch (a : Action)
| RepoGetOrCreateWallet (w : IWallet)
| RepoSetUtxos (m : UtxoMap)
| OnSuccess
| OnSuccessBalances (balances : gmap string Z)
| OnError (message : string).

(** The identity a mnemonic gives: the [Mnemonic] class of ldk. *)
Record MnemonicIdentity : Type := mkIdentity {
  id_masterPublicKey : string;
  id_masterBlindingKey : string;
  id_isRestored : bool;
  id_addresses : list string;
}.

(** The collaborators of the wallet actions: ldk, the crypto helpers, the
    value-object constructors and the repository.  Each call that may throw
    or reject returns a [Try]. *)
Class Env : Type := {
  new_Mnemonic : string → string → bool → Try MnemonicIdentity;
  MasterXPub_create : string → Try string;
  MasterBlindingKey_create : string → Try string;
  Address_create : string → Try string;
  encrypt : string → string → string;
  hash : string → string;
  fetchUtxos : string → Try (list UtxoInterface);
  tryToUnblindUtxo : UtxoInterface → string → UtxoInterface;
  repo_getOrCreateWallet : IWallet → Try unit;
  repo_setUtxos : UtxoMap → Try unit;
}.

Definition already_exists_message : string :=
  "Wallet already exists. Remove the extension from the browser first to create a new one".

(** [wallets.length > 0 && wallets[0].encryptedMnemonic] *)
Definition wallet_already_exists (st : IAppState) : bool :=
  match wallets st with
  | w :: _ => JS.truthy_ostring (encryptedMnemonic w)
  | [] => false
  end.

Section Thunks.
Context `{Env}.

(** The [try] block of [createWallet]. *)
Definition createWallet_body (password mnemonic : string) (st : IAppState)
  : Eff Effect unit :=
  let chain := app_network st in
  mnemonicWallet ← Eff.lift (new_Mnemonic chain mnemonic false);
  xpub ← Eff.lift (MasterXPub_create (id_masterPublicKey mnemonicWallet));
  blindingKey ←
    Eff.lift (MasterBlindingKey_create (id_masterBlindingKey mnemonicWallet));
  let w := {| masterXPub := xpub;
              masterBlindingKey := blindingKey;
              encryptedMnemonic := Some (encrypt mnemonic password);
              passwordHash := hash password;
              confidentialAddresses := [];
              utxoMap := [] |} in
  Eff.emit (RepoGetOrCreateWallet w);;
  Eff.lift (repo_getOrCreateWallet w);;
  Eff.emit (Dispatch (WALLET_CREATE_SUCCESS w));;
  Eff.emit OnSuccess.

Definition createWallet (password mnemonic : string) (st : IAppState)
  : JS.Completion * list Effect :=
  Eff.async
    (if wallet_already_exists st then Eff.lift (Throw already_exists_message)
     else
       Eff.catch (createWallet_body password mnemonic st)
         (λ error,
            Eff.emit (Dispatch (WALLET_CREATE_FAILURE error));;
            Eff.emit (OnError error))).

(** [Address.create] over the restored addresses (a [map]: the first
    failure throws). *)
Fixpoint create_addresses (l : list string) : Try (list string) :=
  match l with
  | [] => Ok []
  | a :: l' =>
      match Address_create a with
      | Throw e => Throw e
      | Ok a' =>
          match create_addresses l' with
          | Throw e => Throw e
          | Ok r => Ok (a' :: r)
          end
      end
  end.

(** The [try] block of [restoreWallet]. *)
Definition restoreWallet_body (password mnemonic : string) (st : IAppState)
  : Eff Effect unit :=
  let chain := app_network st in
  mnemonicWallet ← Eff.lift (new_Mnemonic chain mnemonic true);
  xpub ← Eff.lift (MasterXPub_create (id_masterPublicKey mnemonicWallet));
  blindingKey ←
    Eff.lift (MasterBlindingKey_create (id_masterBlindingKey mnemonicWallet));
  (if id_isRestored mnemonicWallet then Eff.ret tt
   else Eff.lift (Throw "Failed to restore wallet"));;
  addresses ← Eff.lift (create_addresses (id_addresses mnemonicWallet));
  let w := {| masterXPub := xpub;
              masterBlindingKey := blindingKey;
              encryptedMnemonic := Some (encrypt mnemonic password);
              passwordHash := hash password;
              confidentialAddresses := addresses;
              utxoMap := [] |} in
  Eff.emit (RepoGetOrCreateWallet w);;
  Eff.lift (repo_getOrCreateWallet w);;
  Eff.emit (Dispatch (WALLET_RESTORE_SUCCESS w));;
  Eff.emit OnSuccess.

Definition restoreWallet (password mnemonic : string) (st : IAppState)
  : JS.Completion * list Effect :=
  Eff.async
    (if wallet_already_exists st then Eff.lift (Throw already_exists_message)
     else
       Eff.catch (restoreWallet_body password mnemonic st)
         (λ error,
            Eff.emit (Dispatch (WALLET_RESTORE_FAILURE error));;
            Eff.emit (OnError error))).

End Thunks.

(** [Array.prototype.reduce] with a callback that has effects. *)
Fixpoint reduce {E A B} (f : B → A → Eff E B) (l : list A) (init : B)
  : Eff E B :=
  match l with
  | [] => mret init
  | x :: l' => acc ← f init x; reduce f l' acc
  end.

Definition missing_info_message (curr : UtxoInterface) : string :=
  "Missing utxo info. Asset: " +:+ JS.template_string (asset curr)
    +:+ ", Value: " +:+ JS.template_number (value curr).

(** The test [!curr.asset || !curr.value]. *)
Definition missing (curr : UtxoInterface) : bool :=
  negb (JS.truthy_ostring (asset curr)) || negb (JS.truthy_onumber (value curr)).

(** The callback [getAllBalances] hands to [reduce]. *)
Definition balances_callback (acc : gmap string Z) (curr : UtxoInterface)
  : Eff Effect (gmap string Z) :=
  if missing curr then
    Eff.emit (Dispatch WALLET_GET_ALL_BALANCES_FAILURE);;
    Eff.emit (OnError (missing_info_message curr));;
    mret acc
  else
    (* acc = { ...acc, [curr.asset]: curr.value } *)
    match asset curr, value curr with
    | Some a, Some v => mret (<[a := v]> acc)
    | _, _ => mret acc
    end.

Definition undefined_wallet_message : string :=
  "TypeError: Cannot read properties of undefined (reading 'utxoMap')".

(** [getAllBalances] is a synchronous thunk: the trace of its effects and
    whether it returned or threw. *)
Definition getAllBalances (st : IAppState) : JS.Completion * list Effect :=
  Eff.sync
    match wallets st with
    | [] => Eff.lift (Throw undefined_wallet_message)
    | w :: _ =>
        balances ← reduce balances_callback (utxoMap w).*2 ∅;
        Eff.emit (Dispatch WALLET_GET_ALL_BALANCES_SUCCESS);;
        Eff.emit (OnSuccessBalances balances)
    end.

(** The state with the UTXO map of its first wallet replaced. *)
Definition with_utxoMap (st : IAppState) (m : UtxoMap) : IAppState :=
  {| app_network := app_network st;
     wallets :=
       match wallets st with
       | [] => []
       | w :: rest =>
           {| masterXPub := masterXPub w;
              masterBlindingKey := masterBlindingKey w;
              encryptedMnemonic := encryptedMnemonic w;
              passwordHash := passwordHash w;
              confidentialAddresses := confidentialAddresses w;
              utxoMap := m |} :: rest
       end |}.

(** The balance view as the specification words it: for each asset, the sum
    of [value] over the unblinded outputs (both fields defined) carrying
    that asset. *)
Definition spec_balances (m : UtxoMap) : gmap string Z :=
  foldl (λ acc curr,
           match asset curr, value curr with
           | Some a, Some v => <[a := default 0 (acc !! a) + v]> acc
           | _, _ => acc
           end) ∅ m.*2.

(** [compareUtxos(utxoMapStore, fetchedUtxos)] *)
Definition same_outpoint (outpoint : Outpoint) (utxo : UtxoInterface) : bool :=
  String.eqb (txid utxo) (op_txid outpoint) && (vout utxo =? op_vout outpoint).

Definition compareUtxos (utxoMapStore : UtxoMap) (fetchedUtxos : list UtxoInterface)
  : bool :=
  if negb (length utxoMapStore =? length fetchedUtxos)%nat then false
  else forallb (λ outpoint, existsb (same_outpoint outpoint) fetchedUtxos)
               utxoMapStore.*1.

Section SetUtxos.
Context `{Env}.

(** [Promise.all] over the per-address fetches: the utxos of each address
    with its blinding key, or a rejection.  When several fetches reject,
    [Promise.all] rejects with the one that rejects first in time; here it
    is the first in the order of the addresses, and no property below
    depends on which of them it is. *)
Fixpoint fetch_all (addrs : list AddressInterface)
  : Try (list (list UtxoInterface * string)) :=
  match addrs with
  | [] => Ok []
  | o :: addrs' =>
      match fetchUtxos (confidentialAddress o) with
      | Throw e => Throw e
      | Ok utxos =>
          match fetch_all addrs' with
          | Throw e => Throw e
          | Ok r => Ok ((utxos, blindingPrivateKey o) :: r)
          end
      end
  end.

Definition setUtxos_body (addressesWithBlindingKeys : list AddressInterface)
    (st : IAppState) : Eff Effect unit :=
  fetched ← Eff.lift (fetch_all addressesWithBlindingKeys);
  let allUtxos := concat fetched.*1 in
  w ← Eff.lift (match wallets st with
                | w :: _ => Ok w
                | [] => Throw undefined_wallet_message
                end);
  (if negb (compareUtxos (utxoMap w) allUtxos) then
     let unblindedOrNotUtxos :=
       map (λ keyPairData : list UtxoInterface * string,
              map (λ utxo, tryToUnblindUtxo utxo keyPairData.2) keyPairData.1)
           fetched in
     let utxoMap : UtxoMap :=
       map (λ utxo, (toOutpoint utxo, utxo)) (concat unblindedOrNotUtxos) in
     Eff.emit (RepoSetUtxos utxoMap);;
     Eff.lift (repo_setUtxos utxoMap);;
     Eff.emit (Dispatch (WALLET_SET_UTXOS_SUCCESS utxoMap))
   else mret tt);;
  Eff.emit OnSuccess.

Definition setUtxos (addressesWithBlindingKeys : list AddressInterface)
    (st : IAppState) : JS.Completion * list Effect :=
  Eff.async
    (Eff.catch (setUtxos_body addressesWithBlindingKeys st)
       (λ error,
          Eff.emit (Dispatch (WALLET_SET_UTXOS_FAILURE error));;
          Eff.emit (OnError error))).

End SetUtxos.

(** The output with its [value] field set to [undefined]. *)
Definition without_value (u : UtxoInterface) : UtxoInterface :=
  {| txid := txid u; vout := vout u; asset := asset u; value := None;
     prevout := prevout u |}.

(** [needle] occurs in [text]. *)
Definition mentions (needle text : string) : bool :=
  bool_decide (is_Some (String.index 0 needle text)).

(** A repository write, or a dispatch of a new UTXO map. *)
Definition writes_utxos (e : Effect) : bool :=
  match e with
  | RepoSetUtxos _ => true
  | Dispatch (WALLET_SET_UTXOS_SUCCESS _) => true
  | _ => false
  end.

End Wallet.

(** The exception-only fragment: [Try] is a monad as well. *)
#[export] Instance Try_ret : MRet Try := λ A, @Ok A.
#[export] Instance Try_bind : MBind Try := λ A B f m,
  match m with
  | Ok a => f a
  | Throw e => Throw e
  end.

(** ** application/utils: [getUtxosFromTx] *)

Module Utils.

(** A parsed transaction: [Transaction.fromHex(hex)] with its [getId()]. *)
Record TxInput : Type := mkInput {
  in_hash : list Byte.byte;
  in_index : Z;
}.

Record TxOutput : Type := mkOutput {
  out_script : list Byte.byte;
}.

Record Transaction : Type := mkTransaction {
  tx_getId : string;
  ins : list TxInput;
  outs : list TxOutput;
}.

Record UnconfirmedOutput : Type := mkUnconfirmed {
  u_txid : string;
  u_vout : Z;
  blindPrivKey : string;
}.

Record UtxosFromTx : Type := mkUtxosFromTx {
  selectedUtxos : list UtxoInterface;
  changeUtxos : list UnconfirmedOutput;
}.

(** An account, as far as this function uses it:
    [(await account.getWatchIdentity(network)).getAddresses()]. *)
Record Account : Type := mkAccount {
  getWatchIdentity_getAddresses : string → Try (list AddressInterface);
}.

(** The ldk functions called: each may throw. *)
Class Ldk : Type := {
  Transaction_fromHex : string → Try Transaction;
  address_fromOutputScript : list Byte.byte → string → Try string;
  address_fromConfidential : string → Try string;
}.

(** [Buffer.prototype.toString('hex')] *)
Definition hex_digit (n : N) : ascii :=
  match n with
  | 0 => "0" | 1 => "1" | 2 => "2" | 3 => "3" | 4 => "4" | 5 => "5"
  | 6 => "6" | 7 => "7" | 8 => "8" | 9 => "9" | 10 => "a" | 11 => "b"
  | 12 => "c" | 13 => "d" | 14 => "e" | _ => "f"
  end%N%char.

Definition byte_toString_hex (b : Byte.byte) : string :=
  let n := Byte.to_N b in
  String (hex_digit (n / 16)) (String (hex_digit (n mod 16)) EmptyString).

Fixpoint toString_hex (buf : list Byte.byte) : string :=
  match buf with
  | [] => EmptyString
  | b :: buf' => byte_toString_hex b +:+ toString_hex buf'
  end.

(** [hash.slice().reverse().toString('hex')] *)
Definition txid_of_hash (hash : list Byte.byte) : string :=
  toString_hex (rev hash).

(** [coin.txid === txid && coin.vout === index] *)
Definition is_coin (in_txid : string) (index : Z) (coin : UtxoInterface) : bool :=
  String.eqb (txid coin) in_txid && (vout coin =? index).

(** The body of [tx.ins.forEach]: what one input pushes on [selectedUtxos]
    (the first coin that matches, then [break]). *)
Definition select_input (coins : list UtxoInterface) (_in : TxInput)
  : list UtxoInterface :=
  let in_txid := txid_of_hash (in_hash _in) in
  match List.find (is_coin in_txid (in_index _in)) coins with
  | Some coin => [coin]
  | None => []
  end.

Section GetUtxosFromTx.
Context `{Ldk}.

(** The [for (const addr of allAddresses)] loop over one output: the
    address whose push ends the loop, none when the loop runs out, or the
    exception [address.fromConfidential] throws on the way. *)
Fixpoint match_address (addressFromOutputScript : string)
    (allAddresses : list AddressInterface) : Try (option AddressInterface) :=
  match allAddresses with
  | [] => Ok None
  | addr :: rest =>
      match address_fromConfidential (confidentialAddress addr) with
      | Throw e => Throw e
      | Ok unconfidentialAddress =>
          if String.eqb addressFromOutputScript unconfidentialAddress
             || String.eqb addressFromOutputScript (confidentialAddress addr)
          then Ok (Some addr)
          else match_address addressFromOutputScript rest
      end
  end.

(** The [try] block of [tx.outs.forEach]. *)
Definition detect_change (network : string)
    (allAddresses : list AddressInterface) (out : TxOutput)
  : Try (option AddressInterface) :=
  addressFromOutputScript ← address_fromOutputScript (out_script out) network;
  match_address addressFromOutputScript allAddresses.

(** The body of [tx.outs.forEach]: what output number [vout] pushes on
    [changeUtxos]; the [catch] clause is empty. *)
Definition change_of_output (txid network : string)
    (allAddresses : list AddressInterface) (vout : nat) (out : TxOutput)
  : list UnconfirmedOutput :=
  match detect_change network allAddresses out with
  | Ok (Some addr) =>
      [{| u_txid := txid; u_vout := Z.of_nat vout;
          blindPrivKey := blindingPrivateKey addr |}]
  | Ok None => []
  | Throw _ => []
  end.

(** [allAddresses]: the addresses of all accounts, in order. *)
Fixpoint all_addresses (accounts : list Account) (network : string)
  : Try (list AddressInterface) :=
  match accounts with
  | [] => Ok []
  | account :: rest =>
      addrs ← getWatchIdentity_getAddresses account network;
      more ← all_addresses rest network;
      mret (addrs ++ more)
  end.

Definition getUtxosFromTx (accounts : list Account)
    (coins : list UtxoInterface) (network signedTxHex : string)
  : Try UtxosFromTx :=
  tx ← Transaction_fromHex signedTxHex;
  let txid := tx_getId tx in
  let selectedUtxos := concat (map (select_input coins) (ins tx)) in
  allAddresses ← all_addresses accounts network;
  let changeUtxos :=
    concat (imap (change_of_output txid network allAddresses) (outs tx)) in
  mret {| selectedUtxos := selectedUtxos; changeUtxos := changeUtxos |}.

End GetUtxosFromTx.

End Utils.

(** ** application/redux/backend.ts: [makeUtxosUpdaterThunk] *)

Module Backend.

(** The [data] of the explorer's [/asset/<hash>] response. *)
Record AssetInfos : Type := mkAssetInfos {
  ai_name : option string;
  ai_ticker : option string;
  ai_precision : option Z;
}.

Record Asset : Type := mkAsset {
  name : string;
  ticker : string;
  precision : Z;
}.

(** The actions this thunk dispatches: [addUtxo(accountID, utxo)],
    [deleteUtxo(txid, vout)] and [addAsset(assetHash, asset)]. *)
Inductive AnyAction : Type :=
| addUtxo (accountID : string) (utxo : UtxoInterface)
| deleteUtxo (d_txid : string) (d_vout : Z)
| addAsset (assetHash : string) (a : Asset).

Record Account : Type := mkAccount {
  accountID : string;
  (* (await account.getWatchIdentity()).getAddresses() *)
  getWatchIdentity_getAddresses : Try (list AddressInterface);
}.

(** The store, as far as the thunk reads it; [unspents id] is
    [selectUnspentsAndTransactions(id)(state).utxosMap], a JS object keyed
    by outpoint strings. *)
Record RootReducerState : Type := mkState {
  app_isAuthenticated : bool;
  explorerURL : string;
  assets : gmap string Asset;
  unspents : string → gmap string UtxoInterface;
}.

(** The tracked set of the selected account. *)
Definition tracked (selectAccount : RootReducerState → Account)
    (state : RootReducerState) : gmap string UtxoInterface :=
  unspents state (accountID (selectAccount state)).

(** The collaborators: the explorer (through ldk and axios), the unblinding
    primitive, the constant [defaultPrecision] of [utils/constants], and the
    store's [assets] reducer, which decides what [getState().assets] is
    after a dispatch. *)
Class Env : Type := {
  fetchUtxos : string → string → Try (list UtxoInterface);
  unblind : UtxoInterface → string → option (string * Z);
  isBlindedUtxo : UtxoInterface → bool;
  fetchPrevout : string → Z → string → Try string;
  axios_get_asset : string → string → Try (option AssetInfos);
  defaultPrecision : Z;
  assetsReducer : gmap string Asset → AnyAction → gmap string Asset;
}.

(** How the updater ends: the early [return], the end of the [try] block
    with the generator's summary, or the [catch] clause. *)
Inductive Outcome : Type :=
| NotAuthenticated
| Completed (numberOfUtxos : Z) (errors : list string)
| Caught (error : string).

(** [String.prototype.toUpperCase], on ASCII. *)
Definition ascii_toUpperCase (c : ascii) : ascii :=
  let n := N_of_ascii c in
  if ((97 <=? n) && (n <=? 122))%N then ascii_of_N (n - 32) else c.

Fixpoint toUpperCase (s : string) : string :=
  match s with
  | EmptyString => EmptyString
  | String c s' => String (ascii_toUpperCase c) (toUpperCase s')
  end.

Section Updater.
Context `{Env}.

(** Modelled from the spec: [tryToUnblindUtxo] belongs to ldk, whose source
    is not under src/.  Section 4.2: on success the output with its unblinded
    asset and value; on failure no exception, the output as it came, asset
    and value left undefined. *)
Definition tryToUnblindUtxo (utxo : UtxoInterface) (blindPrivKey : string)
  : UtxoInterface :=
  match unblind utxo blindPrivKey with
  | Some (a, v) =>
      {| txid := txid utxo; vout := vout utxo; asset := Some a;
         value := Some v; prevout := prevout utxo |}
  | None => utxo
  end.

(** [utxoWithPrevout] of ldk: [{ ...utxo, prevout }] with the previous
    output fetched from the explorer; the fetch may reject. *)
Definition utxoWithPrevout (utxo : UtxoInterface) (explorer : string)
  : Try UtxoInterface :=
  p ← fetchPrevout (txid utxo) (vout utxo) explorer;
  mret {| txid := txid utxo; vout := vout utxo; asset := asset utxo;
          value := value utxo; prevout := Some p |}.

(** [fetchAssetInfos]: the actions it dispatches.  The caller attaches
    [.catch(console.error)], so a failure dispatches nothing. *)
Definition fetchAssetInfos (assetHash explorerUrl : string)
    (assetsState : gmap string Asset) : list AnyAction :=
  if bool_decide (is_Some (assetsState !! assetHash)) then []
  else
    match axios_get_asset explorerUrl assetHash with
    | Throw _ => []
    | Ok None => []   (* assetInfos.precision on undefined throws *)
    | Ok (Some assetInfos) =>
        let name :=
          if JS.truthy_ostring (ai_name assetInfos)
          then default "" (ai_name assetInfos) else "Unknown" in
        let ticker :=
          if JS.truthy_ostring (ai_ticker assetInfos)
          then default "" (ai_ticker assetInfos)
          else toUpperCase (String.substring 0 4 assetHash) in
        let precision := default defaultPrecision (ai_precision assetInfos) in
        [addAsset assetHash
           {| name := name; ticker := ticker; precision := precision |}]
    end.

(** Modelled from the spec: [fetchAndUnblindUtxosGenerator] belongs to
    ldk, whose source is not under src/.  Section 4.3: every raw output
    of every address is scanned; an address whose fetch fails adds to the
    summary's errors and the others go on.  [scan] lists the raw outputs
    in the order scanned, each with the blinding key of its address, and
    the errors. *)
Fixpoint scan (addresses : list AddressInterface) (explorer : string)
  : list (UtxoInterface * string) * list string :=
  match addresses with
  | [] => ([], [])
  | a :: rest =>
      let '(items, errors) := scan rest explorer in
      match fetchUtxos (confidentialAddress a) explorer with
      | Ok utxos => (map (λ u, (u, blindingPrivateKey a)) utxos ++ items, errors)
      | Throw e => (items, e :: errors)
      end
  end.

(** The [skip] callback: the answer, and [skippedOutpoints] after it. *)
Definition skip (utxosMap : gmap string UtxoInterface)
    (skippedOutpoints : list string) (utxo : UtxoInterface)
  : bool * list string :=
  let outpoint := toStringOutpoint utxo in
  let skip := bool_decide (is_Some (utxosMap !! outpoint)) in
  (skip,
   if skip then skippedOutpoints ++ [toStringOutpoint utxo]
   else skippedOutpoints).

(** Modelled from the spec: what the generator yields for one raw output
    (section 4.3): the output as it is when [skip] says so, else the
    attempt to unblind it. *)
Definition yielded (skipped : bool) (raw : UtxoInterface) (key : string)
  : UtxoInterface :=
  if skipped then raw else tryToUnblindUtxo raw key.

(** The body of the [while (!utxoIterator.done)] loop for one yielded
    output: the trace is what it dispatches, the result is
    [getState().assets] after it. *)
Definition loop_body (accountID explorer : string) (utxo : UtxoInterface)
    (assetsState : gmap string Asset) : Eff AnyAction (gmap string Asset) :=
  if negb (isBlindedUtxo utxo) then
    let infos :=
      if JS.truthy_ostring (asset utxo)
      then fetchAssetInfos (default "" (asset utxo)) explorer assetsState
      else [] in
    Eff.emits infos;;
    utxo ← (if negb (JS.truthy_ostring (prevout utxo))
             then Eff.lift (utxoWithPrevout utxo explorer)
             else mret utxo);
    Eff.emit (addUtxo accountID utxo);;
    mret (foldl assetsReducer assetsState (infos ++ [addUtxo accountID utxo]))
  else mret assetsState.

(** The loop, one scanned output at a time: the generator calls [skip]
    and yields, the body dispatches.  The result is [skippedOutpoints]
    when the loop ends. *)
Fixpoint update_loop (utxosMap : gmap string UtxoInterface)
    (accountID explorer : string) (items : list (UtxoInterface * string))
    (skippedOutpoints : list string) (assetsState : gmap string Asset)
  : Eff AnyAction (list string) :=
  match items with
  | [] => mret skippedOutpoints
  | (raw, key) :: rest =>
      let '(skipped, skippedOutpoints) := skip utxosMap skippedOutpoints raw in
      assetsState ←
        loop_body accountID explorer (yielded skipped raw key) assetsState;
      update_loop utxosMap accountID explorer rest skippedOutpoints
        assetsState
  end.

(** The final [for (const outpoint of currentOutpoints)] loop. *)
Definition delete_spent (currentOutpoints : list Outpoint)
    (skippedOutpoints : list string) : list AnyAction :=
  concat (map (λ outpoint,
                 if bool_decide (toStringOutpoint_op outpoint ∈ skippedOutpoints)
                 then []
                 else [deleteUtxo (op_txid outpoint) (op_vout outpoint)])
              currentOutpoints).

(** [Object.values(utxosMap || {}).map(({ txid, vout }) => ({ txid, vout }))].
    [Object.values] lists the entries in the insertion order of their keys,
    which a finite map does not record: here they come in the order of
    [map_to_list], and no property below depends on the order in which the
    deletions are dispatched. *)
Definition currentOutpoints_of (utxosMap : gmap string UtxoInterface)
  : list Outpoint :=
  map toOutpoint (map_to_list utxosMap).*2.

Definition makeUtxosUpdaterThunk (selectAccount : RootReducerState → Account)
    (state : RootReducerState) : Outcome * list AnyAction :=
  if negb (app_isAuthenticated state) then (NotAuthenticated, [])
  else
    let account := selectAccount state in
    let explorer := explorerURL state in
    let utxosMap := tracked selectAccount state in
    let currentOutpoints := currentOutpoints_of utxosMap in
    match getWatchIdentity_getAddresses account with
    | Throw e => (Caught e, [])
    | Ok addresses =>
        let '(items, errors) := scan addresses explorer in
        match update_loop utxosMap (accountID account) explorer items []
                (assets state) with
        | (dispatched, Throw e) => (Caught e, dispatched)
        | (dispatched, Ok skippedOutpoints) =>
            (Completed (Z.of_nat (length items)) errors,
             dispatched ++ delete_spent currentOutpoints skippedOutpoints)
        end
    end.

(** All raw outputs the cycle fetched, in scan order, each with the
    blinding key of its address. *)
Definition scanned (selectAccount : RootReducerState → Account)
    (state : RootReducerState) : list (UtxoInterface * string) :=
  match getWatchIdentity_getAddresses (selectAccount state) with
  | Throw _ => []
  | Ok addresses => (scan addresses (explorerURL state)).1
  end.

Definition fetched (selectAccount : RootReducerState → Account)
    (state : RootReducerState) : list UtxoInterface :=
  (scanned selectAccount state).*1.

End Updater.

Section Yielded.
Context `{Env}.

(** The scanned outputs that reach [dispatch(addUtxo(...))]: those the
    generator yields unblinded. *)
Definition yields_unblinded (utxosMap : gmap string UtxoInterface)
    (item : UtxoInterface * string) : bool :=
  negb (isBlindedUtxo
          (yielded (bool_decide (is_Some (utxosMap !! toStringOutpoint item.1)))
                   item.1 item.2)).

Definition unblinded_items (utxosMap : gmap string UtxoInterface)
    (items : list (UtxoInterface * string)) : list (UtxoInterface * string) :=
  filter (λ item, yields_unblinded utxosMap item = true) items.
End Yielded.

(** The outpoint strings a trace adds and deletes. *)
Definition added_keys (t : list AnyAction) : list string :=
  concat (map (λ a, match a with
                    | addUtxo _ utxo => [toStringOutpoint utxo]
                    | _ => []
                    end) t).

Definition deleted_keys (t : list AnyAction) : list string :=
  concat (map (λ a, match a with
                    | deleteUtxo d_txid d_vout => [toStringOutpoint_of d_txid d_vout]
                    | _ => []
                    end) t).

(** Modelled from the spec: the utxos reducer ([addUtxo] and [deleteUtxo]
    are handled in the wallet reducer, which is not under src/).  Section 3:
    the UTXO set maps the outpoint string to the output, with at most one
    entry per outpoint; an add that meets an existing key overwrites
    (section 4.4, step 3). *)
Definition utxosReducer (utxosMap : gmap string UtxoInterface) (a : AnyAction)
  : gmap string UtxoInterface :=
  match a with
  | addUtxo _ utxo => <[toStringOutpoint utxo := utxo]> utxosMap
  | deleteUtxo d_txid d_vout => delete (toStringOutpoint_of d_txid d_vout) utxosMap
  | addAsset _ _ => utxosMap
  end.

(** The tracked set after the dispatched actions, in order. *)
Definition apply_diff (utxosMap : gmap string UtxoInterface)
    (dispatched : list AnyAction) : gmap string UtxoInterface :=
  foldl utxosReducer utxosMap dispatched.

(** The representation invariant of the tracked set: every output is filed
    under its own outpoint string. *)
Definition keyed_by_outpoint (utxosMap : gmap string UtxoInterface) : Prop :=
  ∀ k u, utxosMap !! k = Some u → toStringOutpoint u = k.

End Backend.

(** ** Concrete collaborators and states, for the examples *)

Module Fixtures.

Definition txid_a : string :=
  "aaaaaaaaaaaaaaaaaaaaaaaaaaaaaaaaaaaaaaaaaaaaaaaaaaaaaaaaaaaaaaaa".
Definition txid_b : string :=
  "bbbbbbbbbbbbbbbbbbbbbbbbbbbbbbbbbbbbbbbbbbbbbbbbbbbbbbbbbbbbbbbb".
Definition lbtc : string :=
  "5ac9f65c0efcc4775e0baec4ec03abdde22473cd3cf33c0419ca290e0751b225".

(** A blinded output, and unblinded outputs of the same asset. *)
Definition blinded_a0 : UtxoInterface :=
  {| txid := txid_a; vout := 0; asset := None; value := None; prevout := None |}.
Definition coin_a0 (v : Z) : UtxoInterface :=
  {| txid := txid_a; vout := 0; asset := Some lbtc; value := Some v;
     prevout := Some "0014" |}.
Definition coin_b1 (v : Z) : UtxoInterface :=
  {| txid := txid_b; vout := 1; asset := Some lbtc; value := Some v;
     prevout := Some "0014" |}.

Definition address_1 : AddressInterface :=
  {| confidentialAddress := "el1qq-wallet-1"; blindingPrivateKey := "key-1" |}.

Module W.
Import Wallet.

(** Collaborators that always succeed; the explorer knows one output of
    [address_1]; unblinding returns the output as it came. *)
#[export] Instance env : Env := {|
  new_Mnemonic := λ _ _ _,
    Ok {| id_masterPublicKey := "xpub"; id_masterBlindingKey := "mbk";
          id_isRestored := true; id_addresses := [] |};
  MasterXPub_create := Ok;
  MasterBlindingKey_create := Ok;
  Address_create := Ok;
  encrypt := λ m p, m +:+ "/" +:+ p;
  hash := λ p, "h(" +:+ p +:+ ")";
  fetchUtxos := λ a,
    Ok (if String.eqb a "el1qq-wallet-1" then [coin_a0 1000] else []);
  tryToUnblindUtxo := λ u _, u;
  repo_getOrCreateWallet := λ _, Ok tt;
  repo_setUtxos := λ _, Ok tt;
|}.

Definition wallet_with (m : UtxoMap) : IWallet :=
  {| masterXPub := "xpub"; masterBlindingKey := "mbk";
     encryptedMnemonic := Some "3ncrypt3d"; passwordHash := "h";
     confidentialAddresses := ["el1qq-wallet-1"]; utxoMap := m |}.

Definition state_with (m : UtxoMap) : IAppState :=
  {| app_network := "regtest"; wallets := [wallet_with m] |}.

(** Two unblinded outputs of one asset. *)
Definition two_coins : UtxoMap :=
  [(toOutpoint (coin_a0 1000), coin_a0 1000);
   (toOutpoint (coin_b1 500), coin_b1 500)].

(** One output whose unblinding failed. *)
Definition one_blinded : UtxoMap := [(toOutpoint blinded_a0, blinded_a0)].

(** One unblinded output worth nothing, after a regular one. *)
Definition with_zero : UtxoMap :=
  [(toOutpoint (coin_b1 500), coin_b1 500);
   (toOutpoint (coin_a0 0), coin_a0 0)].
End W.

Module U.
Import Utils.

(** A transaction spending output 0 of [txid_a] (the input hash is the
    txid byte-reversed; here all 32 bytes are [0xaa]) with three outputs:
    one to a script of the wallet, one whose script has no address, one
    to somebody else. *)
Definition signed_tx : Transaction :=
  {| tx_getId := txid_b;
     ins := [{| in_hash := replicate 32 Byte.xaa; in_index := 0 |}];
     outs := [{| out_script := [Byte.x00; Byte.x14] |};
              {| out_script := [Byte.x6a] |};
              {| out_script := [Byte.x00; Byte.x20] |}] |}.

#[export] Instance ldk : Ldk := {|
  Transaction_fromHex := λ hex,
    if String.eqb hex "signed" then Ok signed_tx
    else Throw "Invalid transaction hex";
  address_fromOutputScript := λ script _,
    match script with
    | [Byte.x00; Byte.x14] => Ok "ert1q-wallet-1"
    | [Byte.x00; Byte.x20] => Ok "ert1q-somebody"
    | _ => Throw "script has no matching Address"
    end;
  address_fromConfidential := λ a,
    if String.eqb a "el1qq-wallet-1" then Ok "ert1q-wallet-1"
    else Throw "not a confidential address";
|}.

Definition account_1 : Account :=
  {| getWatchIdentity_getAddresses := λ _, Ok [address_1] |}.

(** What [getUtxosFromTx] returns for [signed_tx] over known coins that
    hold the spent outpoint twice. *)
Definition duplicate_coin_selection : UtxosFromTx :=
  {| selectedUtxos := [coin_a0 1000];
     changeUtxos :=
       [{| u_txid := txid_b; u_vout := 0; blindPrivKey := "key-1" |}] |}.
End U.

Module B.
Import Backend.

(** ldk's [isBlindedUtxo]: no asset or no value. *)
Definition ldk_isBlindedUtxo (u : UtxoInterface) : bool :=
  negb (JS.truthy_ostring (asset u)) || negb (JS.truthy_onumber (value u)).

Definition assets_reducer (m : gmap string Asset) (a : AnyAction)
  : gmap string Asset :=
  match a with
  | addAsset h x => <[h := x]> m
  | _ => m
  end.

(** The explorer at ["http://explorer"] knows one confidential output of
    [address_1]; the one at ["http://empty"] knows none.  With [unblinds]
    the blinding key opens the output, without it unblinding fails. *)
Definition env_with (unblinds : bool) : Env := {|
  fetchUtxos := λ a explorer,
    Ok (if String.eqb a "el1qq-wallet-1" && String.eqb explorer "http://explorer"
        then [blinded_a0] else []);
  unblind := λ _ _, if unblinds then Some (lbtc, 1000) else None;
  isBlindedUtxo := ldk_isBlindedUtxo;
  fetchPrevout := λ _ _ _, Ok "0014";
  axios_get_asset := λ _ _,
    Ok (Some {| ai_name := Some "Liquid Bitcoin"; ai_ticker := None;
                ai_precision := None |});
  defaultPrecision := 8;
  assetsReducer := assets_reducer;
|}.

Definition main_account : Account :=
  {| accountID := "mainAccount";
     getWatchIdentity_getAddresses := Ok [address_1] |}.

Definition select_main : RootReducerState → Account := λ _, main_account.

Definition state_with (explorer : string) (m : gmap string UtxoInterface)
  : RootReducerState :=
  {| app_isAuthenticated := true; explorerURL := explorer; assets := ∅;
     unspents := λ _, m |}.

(** A tracked set holding the one output [coin_b1]. *)
Definition tracked_b1 : gmap string UtxoInterface :=
  {[ toStringOutpoint (coin_b1 500) := coin_b1 500 ]}.

(** As [env_with true], but the explorer does not serve previous outputs:
    [utxoWithPrevout] rejects. *)
Definition env_prevout_fails : Env := {|
  fetchUtxos := λ a explorer,
    Ok (if String.eqb a "el1qq-wallet-1" && String.eqb explorer "http://explorer"
        then [blinded_a0] else []);
  unblind := λ _ _, Some (lbtc, 1000);
  isBlindedUtxo := ldk_isBlindedUtxo;
  fetchPrevout := λ _ _ _, Throw "prevout 404";
  axios_get_asset := λ _ _, Throw "asset 404";
  defaultPrecision := 8;
  assetsReducer := assets_reducer;
|}.

(** An explorer that returns the output [a0] of [address_1] with explicit
    asset and value, worth 1000. *)
Definition env_explicit : Env := {|
  fetchUtxos := λ a _,
    Ok (if String.eqb a "el1qq-wallet-1" then [coin_a0 1000] else []);
  unblind := λ _ _, None;
  isBlindedUtxo := ldk_isBlindedUtxo;
  fetchPrevout := λ _ _ _, Ok "0014";
  axios_get_asset := λ _ _, Throw "asset 404";
  defaultPrecision := 8;
  assetsReducer := assets_reducer;
|}.

(** A tracked set holding the output [a0], recorded with the value 5. *)
Definition tracked_a0 : gmap string UtxoInterface :=
  {[ toStringOutpoint (coin_a0 5) := coin_a0 5 ]}.
End B.

End Fixtures.

(** ** More of the utility module: buffers and hexadecimal text *)

Module Hex.

(** The value of a hexadecimal digit, in either case. *)
Definition hex_value (c : ascii) : option N :=
  let n := N_of_ascii c in
  if ((48 <=? n) && (n <=? 57))%N then Some (n - 48)%N
  else if ((97 <=? n) && (n <=? 102))%N then Some (n - 87)%N
  else if ((65 <=? n) && (n <=? 70))%N then Some (n - 55)%N
  else None.

(** [Buffer.from(text, 'hex')]: two digits per byte; decoding stops at the
    first pair that is not hexadecimal, and a last single digit is dropped. *)
Fixpoint Buffer_from_hex (text : string) : list Byte.byte :=
  match text with
  | String c1 (String c2 rest) =>
      match hex_value c1, hex_value c2 with
      | Some h, Some l =>
          match Byte.of_N (16 * h + l) with
          | Some b => b :: Buffer_from_hex rest
          | None => []
          end
      | _, _ => []
      end
  | _ => []
  end.

(** No colon occurs in the text. *)
Fixpoint no_colon (s : string) : bool :=
  match s with
  | EmptyString => true
  | String c s' => negb (Ascii.eqb c ":") && no_colon s'
  end.

End Hex.

(** ** More of the utility module: [makeUnconfirmedUtxos] and
       [getUtxosFromChangeAddresses] *)

Module Unconfirmed.
Import Utils.

(** [transaction.outs[vout]] for a number [vout]: the output at that index,
    [undefined] for a negative index or one past the end. *)
Definition outs_at (transaction : Transaction) (vout : Z) : option TxOutput :=
  if vout <? 0 then None else outs transaction !! Z.to_nat vout.

(** The other ldk functions these two call: [unblindOutput] throws when the
    output cannot be unblinded; [address.toOutputScript] throws on a
    malformed address; [Buffer.prototype.toString()] decodes a buffer as
    UTF-8 text; [getBlindingPrivateKey] belongs to the first identity. *)
Class Ldk2 : Type := {
  unblindOutput : string → Z → option TxOutput → string → Try UtxoInterface;
  address_toOutputScript : string → string → Try (list Byte.byte);
  Buffer_toString : list Byte.byte → string;
}.

Record IdentityInterface : Type := mkIdentity {
  getBlindingPrivateKey : string → Try string;
}.

Section MakeUnconfirmed.
Context `{Ldk} `{Ldk2}.

(** The [for (const { txid, vout, blindPrivKey } of changeUtxos)] loop: the
    outputs pushed so far, or the first exception. *)
Fixpoint unblind_each (transaction : Transaction)
    (changeUtxos : list UnconfirmedOutput) : Try (list UtxoInterface) :=
  match changeUtxos with
  | [] => Ok []
  | c :: rest =>
      let prevout := outs_at transaction (u_vout c) in
      utxo ← unblindOutput (u_txid c) (u_vout c) prevout (blindPrivKey c);
      more ← unblind_each transaction rest;
      mret (utxo :: more)
  end.

Definition makeUnconfirmedUtxos (txHex : string)
    (changeUtxos : list UnconfirmedOutput) : Try (list UtxoInterface) :=
  transaction ← Transaction_fromHex txHex;
  unblind_each transaction changeUtxos.

(** [transaction.outs.findIndex((o) => o.script.toString() ===
    changeOutputScript.toString())], [None] standing for [-1]. *)
Fixpoint findIndex_script (changeOutputScript : list Byte.byte)
    (outs : list TxOutput) : option nat :=
  match outs with
  | [] => None
  | o :: rest =>
      if String.eqb (Buffer_toString (out_script o))
                    (Buffer_toString changeOutputScript)
      then Some 0%nat
      else S <$> findIndex_script changeOutputScript rest
  end.

(** The body of [for (const addr of changeAddresses)]: what one address
    pushes.  [transaction?.outs[vout]?.script] is a buffer, hence truthy,
    whenever [vout] is an index found. *)
Definition change_of_address (identity : IdentityInterface) (network : string)
    (transaction : Transaction) (addr : string) : Try (list UnconfirmedOutput) :=
  changeOutputScript ← address_toOutputScript addr network;
  match findIndex_script changeOutputScript (outs transaction) with
  | None => mret []
  | Some vout =>
      match outs transaction !! vout with
      | None => mret []
      | Some o =>
          let script := toString_hex (out_script o) in
          blindPrivKey ← getBlindingPrivateKey identity script;
          mret [{| u_txid := tx_getId transaction; u_vout := Z.of_nat vout;
                   blindPrivKey := blindPrivKey |}]
      end
  end.

Fixpoint change_of_addresses (identity : IdentityInterface) (network : string)
    (transaction : Transaction) (changeAddresses : list string)
  : Try (list UnconfirmedOutput) :=
  match changeAddresses with
  | [] => Ok []
  | addr :: rest =>
      pushed ← change_of_address identity network transaction addr;
      more ← change_of_addresses identity network transaction rest;
      mret (pushed ++ more)
  end.

(** [changeAddresses] is an array or [undefined]; [identities[0]] is the
    first identity, if any.  The transaction is parsed only past the guard. *)
Definition getUtxosFromChangeAddresses (changeAddresses : option (list string))
    (identities : list IdentityInterface) (network tx : string)
  : Try (list UnconfirmedOutput) :=
  match changeAddresses, identities with
  | Some changeAddresses, identity :: _ =>
      transaction ← Transaction_fromHex tx;
      change_of_addresses identity network transaction changeAddresses
  | _, _ => Ok []
  end.

End MakeUnconfirmed.

End Unconfirmed.

(** ** Reading the wallet actions' traces *)

Module WalletTrace.
Import Wallet.

(** The entry counts for the balance of asset [a]: it passes the test
    [!curr.asset || !curr.value] and its asset is [a]. *)
Definition counts_for (a : string) (curr : UtxoInterface) : bool :=
  negb (missing curr) && bool_decide (asset curr = Some a).

(** What [getAllBalances] signals for one entry. *)
Definition failure_signals (curr : UtxoInterface) : list Effect :=
  if missing curr
  then [Dispatch WALLET_GET_ALL_BALANCES_FAILURE;
        OnError (missing_info_message curr)]
  else [].

End WalletTrace.

(** ** Reading the updater's trace *)

Module BackendTrace.
Import Backend.

Section AddedFrom.
Context `{Env}.

(** What a dispatched [addUtxo] owes to the output [y] the generator
    yielded: [y] is not blinded, and the output dispatched is [y] with, at
    most, its prevout filled in. *)
Definition added_from (accountID : string) (y : UtxoInterface) (a : AnyAction)
  : Prop :=
  ∃ u, a = addUtxo accountID u
       ∧ isBlindedUtxo y = false
       ∧ txid u = txid y ∧ vout u = vout y
       ∧ asset u = asset y ∧ value u = value y
       ∧ is_Some (prevout u).

End AddedFrom.

End BackendTrace.

(** ** The [Transaction] value object *)

Module TransactionVO.

Record TransactionProps : Type := mkProps {
  value : string;
  sendAddress : string;
  sendAsset : string;
  sendAmount : Z;
  feeAsset : string;
  feeAmount : Z;
}.

(** A [Transaction] holds the six properties its private constructor copies;
    the getters are the projections. *)
Record Transaction : Type := mkTransaction {
  props : TransactionProps;
}.

(** ldk's [decodePset] and [address.toOutputScript]: each throws on a
    malformed argument. *)
Class Ldk : Type := {
  decodePset : string → Try unit;
  address_toOutputScript : string → Try unit;
}.

Definition invalid_message : string :=
  "Transaction must be a valid base64 encoded PSET".

Section Create.
Context `{Ldk}.

Definition isValidTx (tx : string) : bool :=
  match decodePset tx with
  | Ok _ => true
  | Throw _ => false
  end.

Definition isValidAddress (addr : string) : bool :=
  match address_toOutputScript addr with
  | Ok _ => true
  | Throw _ => false
  end.

Definition isValidAsset (asset : string) : bool :=
  (String.length asset =? 64)%nat.

Definition isValidAmount (amount : Z) : bool :=
  (0 <? amount) && (amount <=? 2100000000000000).

(** [Transaction.create(props)]; [None] is [undefined] or [null]. *)
Definition create (props : option TransactionProps) : Try Transaction :=
  match props with
  | None => Throw invalid_message
  | Some props =>
      if negb (isValidTx (value props))
         || negb (isValidAddress (sendAddress props))
         || negb (isValidAsset (sendAsset props))
         || negb (isValidAmount (sendAmount props))
         || negb (isValidAsset (feeAsset props))
         || negb (isValidAmount (feeAmount props))
      then Throw invalid_message
      else Ok {| props := props |}
  end.

End Create.

End TransactionVO.

(** ** The test helper [numberToString] *)

Module TestUtils.

(** The byte of a number from 0 to 255. *)
Definition byte_of_Z (n : Z) : Byte.byte :=
  default Byte.x00 (Byte.of_N (Z.to_N n)).

(** [buf.writeBigUInt64LE(BigInt(n))] on [Buffer.alloc(width)]: the [width]
    low bytes of [n], least significant first. *)
Fixpoint le_bytes (width : nat) (n : Z) : list Byte.byte :=
  match width with
  | O => []
  | S width' => byte_of_Z (n mod 256) :: le_bytes width' (n / 256)
  end.

(** The number a little-endian buffer holds. *)
Fixpoint le_value (buf : list Byte.byte) : Z :=
  match buf with
  | [] => 0
  | b :: buf' => Z.of_N (Byte.to_N b) + 256 * le_value buf'
  end.

(** [numberToString(n)]: [writeBigUInt64LE] throws a [RangeError] outside
    [0 .. 2^64 - 1]. *)
Definition numberToString (n : Z) : Try string :=
  if (0 <=? n) && (n <? 2 ^ 64)
  then Ok ("0x" +:+ Utils.toString_hex (le_bytes 8 n))
  else Throw "RangeError [ERR_OUT_OF_RANGE]: The value is out of range.".

End TestUtils.

(** ** backend.ts: the blinding-key getter of [makeTxsUpdaterThunk] and
       [fetchAndSetTaxiAssets] *)

Module BackendMore.
Import Utils.

Section BlindKeyGetter.
Context `{Ldk}.

(** [addressInterfaces.find((addr) =>
      fromConfidential(addr.confidentialAddress).unconfidentialAddress
        === address)]; the callback may throw. *)
Fixpoint find_unconfidential (address : string)
    (addressInterfaces : list AddressInterface) : Try (option AddressInterface) :=
  match addressInterfaces with
  | [] => Ok None
  | addr :: rest =>
      unconfidentialAddress ←
        address_fromConfidential (confidentialAddress addr);
      if String.eqb unconfidentialAddress address then Ok (Some addr)
      else find_unconfidential address rest
  end.

(** [identityBlindKeyGetter(script)]: [undefined] when nothing is found or
    when anything throws. *)
Definition identityBlindKeyGetter (network : string)
    (addressInterfaces : list AddressInterface) (script : string)
  : option string :=
  match
    address ← address_fromOutputScript (Hex.Buffer_from_hex script) network;
    find_unconfidential address addressInterfaces
  with
  | Ok (Some addr) => Some (blindingPrivateKey addr)
  | Ok None => None
  | Throw _ => None
  end.

End BlindKeyGetter.

(** The default order of [Array.prototype.sort()]: texts compared code unit
    by code unit (characters here), a prefix before its extensions. *)
Fixpoint text_leb (s t : string) : bool :=
  match s, t with
  | EmptyString, _ => true
  | String _ _, EmptyString => false
  | String c s', String d t' =>
      if (N_of_ascii c <? N_of_ascii d)%N then true
      else if (N_of_ascii d <? N_of_ascii c)%N then false
      else text_leb s' t'
  end.

Definition text_le (s t : string) : Prop := text_leb s t = true.

#[export] Instance text_le_dec (s t : string) : Decision (text_le s t).
Proof. unfold text_le. apply _. Defined.

(** [a.sort()].  The order is total and only equal texts compare equal, so
    every sorting algorithm gives the same array; merge sort stands for the
    engine's. *)
Definition sort (a : list string) : list string := merge_sort text_le a.

(** [a.join('')] *)
Fixpoint join (a : list string) : string :=
  match a with
  | [] => EmptyString
  | x :: a' => x +:+ join a'
  end.

(** [const sortAndJoin = (a: string[]) => a.sort().join('')] *)
Definition sortAndJoin (a : list string) : string := join (sort a).

(** The thunk dispatches [setTaxiAssets(assets)] only. *)
Inductive TaxiAction : Type :=
| setTaxiAssets (assets : list string).

(** [fetchAndSetTaxiAssets].  [fetched] is what [fetchAssetsFromTaxi]
    resolves or rejects with, [currentAssets] is [state.taxi.taxiAssets].
    [sort()] sorts in place: by the time of the dispatch, [assets] is the
    fetched array sorted. *)
Definition fetchAndSetTaxiAssets (fetched : Try (list string))
    (currentAssets : list string) : JS.Completion * list TaxiAction :=
  Eff.async
    (assets ← Eff.lift fetched;
     if String.eqb (sortAndJoin currentAssets) (sortAndJoin assets)
     then mret tt
     else Eff.emit (setTaxiAssets (sort assets))).

End BackendMore.

(** ** The wallet repository over the browser storage
       ([BrowserStorageWalletRepo]) *)

Module Repo.
Import Wallet.

(** The domain entity: the wallet properties under an id. *)
Record WalletEntity : Type := mkEntity {
  walletId : string;
  wallet : IWallet;
}.

(** The stored form: the id and the properties as plain values.  The
    repository reads [walletId] and assigns [utxoMap] on it. *)
Record WalletDTO : Type := mkDTO {
  dto_walletId : string;
  dto_wallet : IWallet;
}.

(** [WalletMap.toDTO] and [WalletMap.toDomain]; the latter rebuilds value
    objects and may throw. *)
Class WalletMap : Type := {
  toDTO : WalletEntity → WalletDTO;
  toDomain : WalletDTO → Try WalletEntity;
}.

(** What [browser.storage.local] holds under the key [wallets]: nothing, or
    an array.  Reads and writes of the storage itself are taken to go
    through. *)
Definition Storage : Type := option (list WalletDTO).

Definition not_found_message : string := "wallet not found".
Definition not_iterable_message : string :=
  "TypeError: store.wallets is not iterable".

(** [wallet.utxoMap = utxoMap] on a stored wallet. *)
Definition dto_set_utxoMap (d : WalletDTO) (m : UtxoMap) : WalletDTO :=
  {| dto_walletId := dto_walletId d;
     dto_wallet :=
       {| masterXPub := masterXPub (dto_wallet d);
          masterBlindingKey := masterBlindingKey (dto_wallet d);
          encryptedMnemonic := encryptedMnemonic (dto_wallet d);
          passwordHash := passwordHash (dto_wallet d);
          confidentialAddresses := confidentialAddresses (dto_wallet d);
          utxoMap := m |} |}.

(** [wallet.confidentialAddresses.push(address)] on an entity. *)
Definition entity_push_address (e : WalletEntity) (address : string)
  : WalletEntity :=
  {| walletId := walletId e;
     wallet :=
       {| masterXPub := masterXPub (wallet e);
          masterBlindingKey := masterBlindingKey (wallet e);
          encryptedMnemonic := encryptedMnemonic (wallet e);
          passwordHash := passwordHash (wallet e);
          confidentialAddresses := confidentialAddresses (wallet e) ++ [address];
          utxoMap := utxoMap (wallet e) |} |}.

Section Repository.
Context `{WalletMap}.

(** [init(wallets)] *)
Definition init (wallets : list WalletEntity) (store : Storage) : Storage :=
  Some (map toDTO wallets).

(** [getOrCreateWallet(wallet)] with a wallet: [id] is the id that
    [Wallet.createWallet] gives the entity.  The result is the storage after
    the call and the entity returned. *)
Definition getOrCreateWallet_create (id : string) (w : IWallet) (store : Storage)
  : Try (Storage * WalletEntity) :=
  let e := {| walletId := id; wallet := w |} in
  match store with
  | None => Throw not_iterable_message
  | Some wallets =>
      let newStorageWallets :=
        if existsb (λ storeWallet, String.eqb (dto_walletId storeWallet) id) wallets
        then wallets
        else wallets ++ [toDTO e] in
      Ok (Some newStorageWallets, e)
  end.

(** [getOrCreateWallet()] without a wallet: the first wallet stored. *)
Definition getOrCreateWallet_get (store : Storage) : Try WalletEntity :=
  match store with
  | None | Some [] => Throw not_found_message
  | Some (first :: _) => toDomain first
  end.

(** [addDerivedAddress(address)]: the storage after the call. *)
Definition addDerivedAddress (address : string) (store : Storage) : Try Storage :=
  e ← getOrCreateWallet_get store;
  let isAlreadyDerived :=
    bool_decide (address ∈ confidentialAddresses (wallet e)) in
  if negb isAlreadyDerived
  then mret (Some [toDTO (entity_push_address e address)])
  else mret store.

(** [setUtxos(utxoMap)]: the storage after the call. *)
Definition setUtxos (m : UtxoMap) (store : Storage) : Try Storage :=
  e ← getOrCreateWallet_get store;
  mret (Some [dto_set_utxoMap (toDTO e) m]).

End Repository.

End Repo.

(** ** The wallet actions: [deriveNewAddress] *)

Module Derive.
Import Wallet.

(** The state as [deriveNewAddress] reads it at run time: the list of
    wallets may be absent, and so may either master key of a wallet (the key
    is a value object, which is truthy whenever it is there). *)
Record WalletKeys : Type := mkWalletKeys {
  keys_masterXPub : option string;
  keys_masterBlindingKey : option string;
  keys_confidentialAddresses : list string;
}.

Record DeriveState : Type := mkDeriveState {
  derive_network : string;
  derive_wallets : option (list WalletKeys);
}.

(** The [MasterPublicKey] identity of ldk, once built: whether it was
    restored, and the next addresses of its two chains. *)
Record PubKeyWallet : Type := mkPubKeyWallet {
  pk_isRestored : bool;
  getNextAddress : Try string;
  getNextChangeAddress : Try string;
}.

(** [new MasterPublicKey({ chain, restorer, value, ... })], with the
    [fromXpub] of its argument, from the chain, the two master keys and the
    addresses the restorer is made of; and the repository's
    [addDerivedAddress]. *)
Class DeriveEnv : Type := {
  new_MasterPublicKey : string → string → string → list string → Try PubKeyWallet;
  repo_addDerivedAddress : string → Try unit;
}.

Inductive DeriveEffect : Type :=
| RepoAddDerivedAddress (address : string)
| DispatchDeriveSuccess (address : string)
| DispatchDeriveFailure (error : string)
| OnSuccessAddress (address : string)
| OnErrorDerive (error : string).

Definition cannot_derive_message : string := "Cannot derive new address".
Definition undefined_masterXPub_message : string :=
  "TypeError: Cannot read properties of undefined (reading 'masterXPub')".

Section DeriveNewAddress.
Context `{Env} `{DeriveEnv}.

(** The [try] block. *)
Definition deriveNewAddress_body (change : bool) (chain xpub blindingKey : string)
    (addresses : list string) : Eff DeriveEffect unit :=
  pubKeyWallet ←
    Eff.lift (new_MasterPublicKey chain xpub blindingKey addresses);
  (if pk_isRestored pubKeyWallet then mret tt
   else Eff.lift (Throw "Failed to restore wallet"));;
  nextAddress ←
    Eff.lift (if change then getNextChangeAddress pubKeyWallet
              else getNextAddress pubKeyWallet);
  address ← Eff.lift (Address_create nextAddress);
  Eff.emit (RepoAddDerivedAddress address);;
  Eff.lift (repo_addDerivedAddress address);;
  Eff.emit (DispatchDeriveSuccess address);;
  Eff.emit (OnSuccessAddress address).

(** [!wallets?.[0].masterXPub || !wallets?.[0].masterBlindingKey]: an absent
    list makes the whole chain [undefined], an empty one makes the property
    access throw. *)
Definition deriveNewAddress (change : bool) (st : DeriveState)
  : JS.Completion * list DeriveEffect :=
  Eff.async
    match derive_wallets st with
    | None => Eff.lift (Throw cannot_derive_message)
    | Some [] => Eff.lift (Throw undefined_masterXPub_message)
    | Some (w :: _) =>
        match keys_masterXPub w, keys_masterBlindingKey w with
        | Some xpub, Some blindingKey =>
            Eff.catch
              (deriveNewAddress_body change (derive_network st) xpub blindingKey
                 (keys_confidentialAddresses w))
              (λ error,
                 Eff.emit (DispatchDeriveFailure error);;
                 Eff.emit (OnErrorDerive error))
        | _, _ => Eff.lift (Throw cannot_derive_message)
        end
    end.

End DeriveNewAddress.

End Derive.

(** ** Sample collaborators for the further properties *)

Module Samples.

(** An unblinder that opens every output that is there, an address with one
    known script, and scripts read as text byte by byte. *)
#[export] Instance ldk2 : Unconfirmed.Ldk2 := {|
  Unconfirmed.unblindOutput := λ t v prevout _,
    match prevout with
    | Some _ =>
        Ok {| txid := t; vout := v; asset := Some Fixtures.lbtc;
              value := Some 1000; prevout := Some "0014" |}
    | None => Throw "Cannot read properties of undefined"
    end;
  Unconfirmed.address_toOutputScript := λ addr _,
    if String.eqb addr "el1qq-wallet-1" then Ok [Byte.x00; Byte.x14]
    else Throw "has no matching Script";
  Unconfirmed.Buffer_toString := String.string_of_list_byte;
|}.

Definition identity_1 : Unconfirmed.IdentityInterface :=
  {| Unconfirmed.getBlindingPrivateKey := λ script, Ok ("key-of-" +:+ script) |}.

(** The change output of [Fixtures.U.signed_tx]. *)
Definition change_0 : Utils.UnconfirmedOutput :=
  {| Utils.u_txid := Fixtures.txid_b; Utils.u_vout := 0;
     Utils.blindPrivKey := "key-1" |}.

Definition from_signed_tx : Utils.UtxosFromTx :=
  {| Utils.selectedUtxos := [Fixtures.coin_a0 1000];
     Utils.changeUtxos := [change_0] |}.

(** What the first cycle against ["http://explorer"] dispatches on an empty
    tracked set. *)
Definition first_cycle_actions : list Backend.AnyAction :=
  [Backend.addAsset Fixtures.lbtc
     {| Backend.name := "Liquid Bitcoin"; Backend.ticker := "5AC9";
        Backend.precision := 8 |};
   Backend.addUtxo "mainAccount"
     {| txid := Fixtures.txid_a; vout := 0; asset := Some Fixtures.lbtc;
        value := Some 1000; prevout := Some "0014" |}].

#[export] Instance vo_ldk : TransactionVO.Ldk := {|
  TransactionVO.decodePset := λ tx,
    if String.eqb tx "cHNldP8=" then Ok tt else Throw "Invalid Magic Number";
  TransactionVO.address_toOutputScript := λ addr,
    if String.eqb addr "el1qq-wallet-1" then Ok tt
    else Throw "has no matching Script";
|}.

Definition send_props : TransactionVO.TransactionProps :=
  {| TransactionVO.value := "cHNldP8=";
     TransactionVO.sendAddress := "el1qq-wallet-1";
     TransactionVO.sendAsset := Fixtures.lbtc;
     TransactionVO.sendAmount := 1000;
     TransactionVO.feeAsset := Fixtures.lbtc;
     TransactionVO.feeAmount := 300 |}.

(** A mapper that stores the wallet as it is. *)
#[export] Instance wallet_map : Repo.WalletMap := {|
  Repo.toDTO := λ e,
    {| Repo.dto_walletId := Repo.walletId e; Repo.dto_wallet := Repo.wallet e |};
  Repo.toDomain := λ d,
    Ok {| Repo.walletId := Repo.dto_walletId d; Repo.wallet := Repo.dto_wallet d |};
|}.

Definition stored_wallet : Repo.WalletDTO :=
  {| Repo.dto_walletId := "wallet-1";
     Repo.dto_wallet := Fixtures.W.wallet_with [] |}.

End Samples.

(* ===================================================================== *)
(** * Part II: properties                                                  *)
(* ===================================================================== *)

(** ** Strings *)

Lemma string_app_length (s t : string) :
  String.length (s +:+ t) = (String.length s + String.length t)%nat.
Proof. induction s as [|c s IH]; simpl; [done | by rewrite IH]. Qed.

Lemma string_app_inj_length (s1 s2 t1 t2 : string) :
  String.length s1 = String.length s2 →
  s1 +:+ t1 = s2 +:+ t2 → s1 = s2 ∧ t1 = t2.
Proof.
  revert s2. induction s1 as [|c s1 IH]; intros [|d s2] Hlen Heq;
    simpl in *; try discriminate.
  - done.
  - injection Heq as -> Heq. injection Hlen as Hlen.
    destruct (IH _ Hlen Heq) as [-> ->]. done.
Qed.

Lemma number_toString_inj (n m : Z) :
  JS.number_toString n = JS.number_toString m → n = m.
Proof.
  unfold JS.number_toString. intros H.
  assert (Hi : Z.to_int n = Z.to_int m).
  { apply (f_equal NilEmpty.int_of_string) in H.
    rewrite !NilEmpty.isi in H. congruence. }
  rewrite <- (DecimalZ.of_to n), <- (DecimalZ.of_to m). by rewrite Hi.
Qed.

Lemma is_txid_length (s : string) : is_txid s = true → String.length s = 64%nat.
Proof.
  unfold is_txid. intros [H _]%andb_prop. by apply Nat.eqb_eq.
Qed.

(** ** C9: the outpoint key *)

(** C9.  [toStringOutpoint] is a function (total and deterministic) whose
    result is the txid, a colon, and the decimal output index; on outpoints
    whose txid is a 64-character hexadecimal string and whose index is a
    non-negative integer, two outpoints are equal exactly when their keys are
    equal. *)
Theorem toStringOutpoint_canonical (a b : Outpoint) :
  is_txid (op_txid a) = true → 0 ≤ op_vout a →
  is_txid (op_txid b) = true → 0 ≤ op_vout b →
  toStringOutpoint_op a =
    op_txid a +:+ ":" +:+ JS.number_toString (op_vout a)
  ∧ (a = b ↔ toStringOutpoint_op a = toStringOutpoint_op b).
Proof.
  intros Ha _ Hb _. split; [reflexivity|]. split; [by intros ->|].
  unfold toStringOutpoint_op, toStringOutpoint_of. intros Heq.
  apply string_app_inj_length in Heq as [Ht Hv].
  - simpl in Hv. injection Hv as Hv%number_toString_inj.
    destruct a, b; simpl in *; congruence.
  - by rewrite !is_txid_length.
Qed.

(** ** The effect monad *)

Lemma Eff_bind_ok {E A B} (t : list E) (a : A) (f : A → Eff E B) :
  ((t, Ok a) : Eff E A) ≫= f = (t ++ (f a).1, (f a).2).
Proof. unfold mbind, Eff_bind, Eff.bind. by destruct (f a). Qed.

(** ** C8: a second wallet *)

Section DuplicateWallet.
Import Wallet.
Context `{Env}.

Lemma wallet_already_exists_true (st : IAppState) (w : IWallet)
    (rest : list IWallet) (s : string) :
  wallets st = w :: rest → encryptedMnemonic w = Some s → s ≠ "" →
  wallet_already_exists st = true.
Proof.
  intros Hw Hm Hs. unfold wallet_already_exists. rewrite Hw, Hm. simpl.
  unfold JS.truthy_string. apply negb_true_iff, String.eqb_neq. done.
Qed.

(** C8, as amended.  When the first wallet of the state has a non-empty
    encrypted mnemonic, [createWallet] and [restoreWallet] fail with the
    "Wallet already exists" error ahead of the [try] block: the promise of
    the thunk is rejected with it and the thunk has done nothing before, no
    repository call, no dispatch, no [onError]. *)
Theorem duplicate_wallet_rejected_before_any_write
    (password mnemonic : string) (st : IAppState) (w : IWallet)
    (rest : list IWallet) (s : string) :
  wallets st = w :: rest → encryptedMnemonic w = Some s → s ≠ "" →
  createWallet password mnemonic st
    = (JS.PromiseRejected already_exists_message, [])
  ∧ restoreWallet password mnemonic st
    = (JS.PromiseRejected already_exists_message, []).
Proof.
  intros Hw Hm Hs.
  pose proof (wallet_already_exists_true st w rest s Hw Hm Hs) as Hex.
  unfold createWallet, restoreWallet. rewrite Hex. split; reflexivity.
Qed.

End DuplicateWallet.

(** ** C4: the equality short-circuit *)

Section ShortCircuit.
Import Wallet.
Context `{Env}.

Lemma same_outpoint_true (o : Outpoint) (u : UtxoInterface) :
  same_outpoint o u = true ↔ txid u = op_txid o ∧ vout u = op_vout o.
Proof.
  unfold same_outpoint. rewrite andb_true_iff, String.eqb_eq, Z.eqb_eq. done.
Qed.

Lemma compareUtxos_true (store : UtxoMap) (fetchedUtxos : list UtxoInterface) :
  compareUtxos store fetchedUtxos = true ↔
    length store = length fetchedUtxos
    ∧ ∀ o, o ∈ store.*1 →
        ∃ u, u ∈ fetchedUtxos ∧ txid u = op_txid o ∧ vout u = op_vout o.
Proof.
  unfold compareUtxos.
  destruct (Nat.eqb_spec (length store) (length fetchedUtxos)) as [Hl|Hl]; simpl.
  - rewrite forallb_forall. split.
    + intros Hall. split; [done|]. intros o Ho%list_elem_of_In.
      apply Hall, existsb_exists in Ho as (u & Hu & Hs).
      exists u. rewrite list_elem_of_In. by apply same_outpoint_true in Hs.
    + intros [_ Hall] o Ho%list_elem_of_In.
      destruct (Hall o Ho) as (u & Hu%list_elem_of_In & Hs).
      apply existsb_exists. exists u. by rewrite same_outpoint_true.
  - split; [done|]. by intros [? _].
Qed.

(** C4.  [compareUtxos] answers [true] exactly when the store has as many
    entries as outputs were fetched and every outpoint of the store is the
    (txid, vout) of a fetched output; and when it answers [true] on the
    store of the first wallet and the outputs fetched, [setUtxos] only calls
    [onSuccess]: no repository write, no dispatch of a new UTXO map. *)
Theorem compareUtxos_short_circuit :
  (∀ (store : UtxoMap) (fetchedUtxos : list UtxoInterface),
     compareUtxos store fetchedUtxos = true ↔
       length store = length fetchedUtxos
       ∧ ∀ o, o ∈ store.*1 →
           ∃ u, u ∈ fetchedUtxos ∧ txid u = op_txid o ∧ vout u = op_vout o)
  ∧ (∀ (addrs : list AddressInterface) (st : IAppState)
       (fetched : list (list UtxoInterface * string))
       (w : IWallet) (rest : list IWallet),
       fetch_all addrs = Ok fetched →
       wallets st = w :: rest →
       compareUtxos (utxoMap w) (concat fetched.*1) = true →
       setUtxos addrs st = (JS.PromiseFulfilled, [OnSuccess])
       ∧ filter (λ e, writes_utxos e = true) (setUtxos addrs st).2 = []).
Proof.
  split; [apply compareUtxos_true|].
  intros addrs st fetched w rest Hf Hw Hc.
  assert (Hs : setUtxos addrs st = (JS.PromiseFulfilled, [OnSuccess])).
  { unfold setUtxos, setUtxos_body. rewrite Hf, Hw. simpl.
    rewrite Hc. reflexivity. }
  rewrite Hs. split; reflexivity.
Qed.

(** Whatever the explorer and the repository do, a cycle on which
    [compareUtxos] would answer [true] writes nothing. *)
Lemma setUtxos_unchanged_writes_nothing (addrs : list AddressInterface)
    (st : IAppState) (w : IWallet) (rest : list IWallet) :
  wallets st = w :: rest →
  (∀ fetched, fetch_all addrs = Ok fetched →
              compareUtxos (utxoMap w) (concat fetched.*1) = true) →
  filter (λ e, writes_utxos e = true) (setUtxos addrs st).2 = [].
Proof.
  intros Hw Hc. unfold setUtxos, setUtxos_body.
  destruct (fetch_all addrs) as [fetched|e] eqn:Hf; [|reflexivity].
  rewrite Hw. simpl. rewrite (Hc fetched eq_refl). reflexivity.
Qed.

End ShortCircuit.

(** ** Balances: C2, C5, C10 *)

Section Balances.
Import Wallet.

Lemma balances_callback_total (acc : gmap string Z) (curr : UtxoInterface) :
  ∃ t acc', balances_callback acc curr = (t, Ok acc').
Proof.
  unfold balances_callback.
  destruct (missing curr); [by eexists _, _|].
  destruct (asset curr), (value curr); by eexists _, _.
Qed.

Lemma reduce_balances_total (l : list UtxoInterface) (init : gmap string Z) :
  ∃ t b, reduce balances_callback l init = (t, Ok b).
Proof.
  revert init. induction l as [|x l IH]; intros init; simpl.
  - by eexists _, _.
  - destruct (balances_callback_total init x) as (t & acc & ->).
    destruct (IH acc) as (t' & b & Hr).
    rewrite Eff_bind_ok, Hr. by eexists _, _.
Qed.

Lemma balances_callback_missing (acc : gmap string Z) (curr : UtxoInterface) :
  missing curr = true →
  balances_callback acc curr
    = ([Dispatch WALLET_GET_ALL_BALANCES_FAILURE;
        OnError (missing_info_message curr)], Ok acc).
Proof. unfold balances_callback. by intros ->. Qed.

(** An entry that takes the missing-data branch leaves the fold as it would
    be without the entry, but for the two failure effects. *)
Lemma reduce_missing_entry (l1 l2 : list UtxoInterface) (curr : UtxoInterface)
    (init : gmap string Z) :
  missing curr = true →
  ∃ t1 t2 b,
    reduce balances_callback (l1 ++ curr :: l2) init
      = (t1 ++ [Dispatch WALLET_GET_ALL_BALANCES_FAILURE;
                OnError (missing_info_message curr)] ++ t2, Ok b)
    ∧ reduce balances_callback (l1 ++ l2) init = (t1 ++ t2, Ok b).
Proof.
  intros Hm. revert init. induction l1 as [|x l1 IH]; intros init; simpl.
  - rewrite (balances_callback_missing _ _ Hm), Eff_bind_ok.
    destruct (reduce_balances_total l2 init) as (t2 & b & ->).
    by exists [], t2, b.
  - destruct (balances_callback_total init x) as (t & acc & ->).
    rewrite !Eff_bind_ok.
    destruct (IH acc) as (t1 & t2 & b & -> & ->). simpl.
    exists (t ++ t1), t2, b. by rewrite <- !app_assoc.
Qed.

Lemma getAllBalances_missing_entry (st : IAppState) (w : IWallet)
    (rest : list IWallet) (l1 l2 : UtxoMap) (o : Outpoint)
    (curr : UtxoInterface) :
  wallets st = w :: rest → utxoMap w = l1 ++ (o, curr) :: l2 →
  missing curr = true →
  ∃ t1 t2 b,
    getAllBalances st
      = (JS.Returns,
         t1 ++ [Dispatch WALLET_GET_ALL_BALANCES_FAILURE;
                OnError (missing_info_message curr)]
            ++ t2 ++ [Dispatch WALLET_GET_ALL_BALANCES_SUCCESS;
                      OnSuccessBalances b])
    ∧ getAllBalances (with_utxoMap st (l1 ++ l2))
      = (JS.Returns,
         t1 ++ t2 ++ [Dispatch WALLET_GET_ALL_BALANCES_SUCCESS;
                      OnSuccessBalances b]).
Proof.
  intros Hw Hu Hm. unfold getAllBalances, with_utxoMap. rewrite Hw. simpl.
  rewrite Hu, !fmap_app, fmap_cons. simpl.
  destruct (reduce_missing_entry l1.*2 l2.*2 curr ∅ Hm)
    as (t1 & t2 & b & -> & ->).
  exists t1, t2, b. rewrite !Eff_bind_ok. simpl.
  by rewrite <- !app_assoc.
Qed.

(** C10.  An entry whose asset is defined and whose value is [0] takes the
    missing-data branch: the failure action is dispatched, [onError] is
    called, and the balances handed to [onSuccess] are those of the map
    without the entry; the callback treats the entry as it treats the same
    entry with an undefined value. *)
Theorem zero_value_takes_missing_branch (st : IAppState) (w : IWallet)
    (rest : list IWallet) (l1 l2 : UtxoMap) (o : Outpoint)
    (curr : UtxoInterface) (a : string) :
  wallets st = w :: rest → utxoMap w = l1 ++ (o, curr) :: l2 →
  asset curr = Some a → value curr = Some 0 →
  (∃ t1 t2 b,
     getAllBalances st
       = (JS.Returns,
          t1 ++ [Dispatch WALLET_GET_ALL_BALANCES_FAILURE;
                 OnError (missing_info_message curr)]
             ++ t2 ++ [Dispatch WALLET_GET_ALL_BALANCES_SUCCESS;
                       OnSuccessBalances b])
     ∧ getAllBalances (with_utxoMap st (l1 ++ l2))
       = (JS.Returns,
          t1 ++ t2 ++ [Dispatch WALLET_GET_ALL_BALANCES_SUCCESS;
                       OnSuccessBalances b]))
  ∧ (∀ acc,
       balances_callback acc curr
         = ([Dispatch WALLET_GET_ALL_BALANCES_FAILURE;
             OnError (missing_info_message curr)], Ok acc)
       ∧ balances_callback acc (without_value curr)
         = ([Dispatch WALLET_GET_ALL_BALANCES_FAILURE;
             OnError (missing_info_message (without_value curr))], Ok acc)).
Proof.
  intros Hw Hu Ha Hv.
  assert (Hm : missing curr = true).
  { unfold missing. rewrite Hv. simpl. apply orb_true_r. }
  assert (Hm' : missing (without_value curr) = true).
  { unfold missing. simpl. apply orb_true_r. }
  split.
  - by apply (getAllBalances_missing_entry st w rest l1 l2 o).
  - intros acc. split; by apply balances_callback_missing.
Qed.

(** C5, as amended.  An entry whose asset or value is undefined is left out
    of the balances handed to [onSuccess] (they are those of the map without
    the entry), the failure action is dispatched and [onError] is called
    with a message made of the entry's asset and value: entries with the
    same two fields get the same message, whatever their outpoints. *)
Theorem undefined_entry_excluded_and_signalled (st : IAppState) (w : IWallet)
    (rest : list IWallet) (l1 l2 : UtxoMap) (o : Outpoint)
    (curr : UtxoInterface) :
  wallets st = w :: rest → utxoMap w = l1 ++ (o, curr) :: l2 →
  asset curr = None ∨ value curr = None →
  (∃ t1 t2 b,
     getAllBalances st
       = (JS.Returns,
          t1 ++ [Dispatch WALLET_GET_ALL_BALANCES_FAILURE;
                 OnError (missing_info_message curr)]
             ++ t2 ++ [Dispatch WALLET_GET_ALL_BALANCES_SUCCESS;
                       OnSuccessBalances b])
     ∧ getAllBalances (with_utxoMap st (l1 ++ l2))
       = (JS.Returns,
          t1 ++ t2 ++ [Dispatch WALLET_GET_ALL_BALANCES_SUCCESS;
                       OnSuccessBalances b]))
  ∧ missing_info_message curr
    = "Missing utxo info. Asset: " +:+ JS.template_string (asset curr)
        +:+ ", Value: " +:+ JS.template_number (value curr)
  ∧ (∀ other, asset other = asset curr → value other = value curr →
              missing_info_message other = missing_info_message curr).
Proof.
  intros Hw Hu Hundef.
  assert (Hm : missing curr = true).
  { unfold missing. destruct Hundef as [-> | ->]; simpl; [done|].
    apply orb_true_r. }
  split; [by apply (getAllBalances_missing_entry st w rest l1 l2 o)|].
  split; [reflexivity|].
  intros other Ha Hv. unfold missing_info_message. by rewrite Ha, Hv.
Qed.

(** C2, on the code.  With two unblinded outputs of one asset, worth 1000
    and 500, [getAllBalances] hands 500 to [onSuccess], the value of the
    output visited last, where the balance view of the specification is
    their sum, 1500. *)
Theorem getAllBalances_keeps_last_value :
  getAllBalances (Fixtures.W.state_with Fixtures.W.two_coins)
    = (JS.Returns,
       [Dispatch WALLET_GET_ALL_BALANCES_SUCCESS;
        OnSuccessBalances {[ Fixtures.lbtc := 500 ]}])
  ∧ spec_balances Fixtures.W.two_coins = {[ Fixtures.lbtc := 1500 ]}.
Proof. split; vm_compute; reflexivity. Qed.

End Balances.

(** *** Examples *)

Example zero_value_example :
  Wallet.getAllBalances (Fixtures.W.state_with Fixtures.W.with_zero)
    = (JS.Returns,
       [Wallet.Dispatch Wallet.WALLET_GET_ALL_BALANCES_FAILURE;
        Wallet.OnError
          ("Missing utxo info. Asset: " +:+ Fixtures.lbtc +:+ ", Value: 0");
        Wallet.Dispatch Wallet.WALLET_GET_ALL_BALANCES_SUCCESS;
        Wallet.OnSuccessBalances {[ Fixtures.lbtc := 500 ]}]).
Proof. vm_compute. reflexivity. Qed.

Lemma zero_value_takes_missing_branch_witness :
  Wallet.balances_callback ∅ (Fixtures.coin_a0 0)
    = ([Wallet.Dispatch Wallet.WALLET_GET_ALL_BALANCES_FAILURE;
        Wallet.OnError (Wallet.missing_info_message (Fixtures.coin_a0 0))],
       Ok ∅).
Proof.
  refine (proj1 (proj2 (zero_value_takes_missing_branch
           (Fixtures.W.state_with Fixtures.W.with_zero)
           (Fixtures.W.wallet_with Fixtures.W.with_zero) []
           [(toOutpoint (Fixtures.coin_b1 500), Fixtures.coin_b1 500)] []
           (toOutpoint (Fixtures.coin_a0 0)) (Fixtures.coin_a0 0) Fixtures.lbtc
           _ _ _ _) ∅)); reflexivity.
Defined.

Lemma undefined_entry_excluded_and_signalled_witness :
  Wallet.missing_info_message Fixtures.blinded_a0
    = "Missing utxo info. Asset: undefined, Value: undefined".
Proof.
  refine (proj1 (proj2 (undefined_entry_excluded_and_signalled
           (Fixtures.W.state_with Fixtures.W.one_blinded)
           (Fixtures.W.wallet_with Fixtures.W.one_blinded) [] [] []
           (toOutpoint Fixtures.blinded_a0) Fixtures.blinded_a0 _ _ _)));
    [reflexivity | reflexivity | left; reflexivity].
Defined.

(** C5 as stated fails: the message handed to [onError] for a blinded output
    does not contain the txid of the output, so it does not name the
    outpoint. *)
Lemma missing_info_does_not_name_outpoint :
  ¬ (∀ (st : Wallet.IAppState) (w : Wallet.IWallet) rest o curr,
       Wallet.wallets st = w :: rest → (o, curr) ∈ Wallet.utxoMap w →
       asset curr = None ∨ value curr = None →
       ∃ msg, Wallet.OnError msg ∈ (Wallet.getAllBalances st).2
              ∧ Wallet.mentions (txid curr) msg = true).
Proof.
  intros Hclaim.
  destruct (Hclaim (Fixtures.W.state_with Fixtures.W.one_blinded)
              (Fixtures.W.wallet_with Fixtures.W.one_blinded) []
              (toOutpoint Fixtures.blinded_a0) Fixtures.blinded_a0)
    as (msg & Hin & Hm).
  - reflexivity.
  - apply list_elem_of_singleton. reflexivity.
  - left. reflexivity.
  - vm_compute in Hin.
    repeat (apply elem_of_cons in Hin as [Hin|Hin]; [try discriminate|]).
    + injection Hin as ->. vm_compute in Hm. discriminate.
    + by apply elem_of_nil in Hin.
Qed.

Lemma duplicate_wallet_rejected_before_any_write_witness :
  @Wallet.createWallet Fixtures.W.env "password" "mnemonic" (Fixtures.W.state_with [])
    = (JS.PromiseRejected Wallet.already_exists_message, [])
  ∧ @Wallet.restoreWallet Fixtures.W.env "password" "mnemonic" (Fixtures.W.state_with [])
    = (JS.PromiseRejected Wallet.already_exists_message, []).
Proof.
  apply (@duplicate_wallet_rejected_before_any_write Fixtures.W.env "password" "mnemonic"
           (Fixtures.W.state_with []) (Fixtures.W.wallet_with []) []
           "3ncrypt3d"); [reflexivity | reflexivity | discriminate].
Defined.

(** C8 as stated fails: with a wallet in the state, the call of the [async]
    thunk does not throw; it returns a promise, which is rejected. *)
Lemma createWallet_does_not_throw_synchronously :
  ¬ (∀ `{Wallet.Env} (password mnemonic : string) (st : Wallet.IAppState)
       (w : Wallet.IWallet) rest s,
       Wallet.wallets st = w :: rest →
       Wallet.encryptedMnemonic w = Some s → s ≠ "" →
       ∃ message, (Wallet.createWallet password mnemonic st).1
                  = JS.Throws message).
Proof.
  intros Hclaim.
  destruct (Hclaim Fixtures.W.env "password" "mnemonic"
              (Fixtures.W.state_with []) (Fixtures.W.wallet_with []) []
              "3ncrypt3d") as (message & Hthrows);
    [reflexivity | reflexivity | discriminate |].
  vm_compute in Hthrows. discriminate.
Qed.

Lemma compareUtxos_short_circuit_witness :
  @Wallet.setUtxos Fixtures.W.env [Fixtures.address_1]
    (Fixtures.W.state_with
       [(toOutpoint (Fixtures.coin_a0 5), Fixtures.coin_a0 5)])
    = (JS.PromiseFulfilled, [Wallet.OnSuccess]).
Proof.
  eapply (proj2 (@compareUtxos_short_circuit Fixtures.W.env) [Fixtures.address_1]
            (Fixtures.W.state_with
               [(toOutpoint (Fixtures.coin_a0 5), Fixtures.coin_a0 5)])).
  - reflexivity.
  - reflexivity.
  - reflexivity.
Defined.

(** A changed set is written and dispatched. *)
Example setUtxos_changed_example :
  @Wallet.setUtxos Fixtures.W.env [Fixtures.address_1] (Fixtures.W.state_with [])
    = (JS.PromiseFulfilled,
       [Wallet.RepoSetUtxos
          [(toOutpoint (Fixtures.coin_a0 1000), Fixtures.coin_a0 1000)];
        Wallet.Dispatch
          (Wallet.WALLET_SET_UTXOS_SUCCESS
             [(toOutpoint (Fixtures.coin_a0 1000), Fixtures.coin_a0 1000)]);
        Wallet.OnSuccess]).
Proof. reflexivity. Qed.

Lemma toStringOutpoint_canonical_witness :
  toStringOutpoint_op (toOutpoint (Fixtures.coin_a0 1))
    = Fixtures.txid_a +:+ ":0"
  ∧ (toOutpoint (Fixtures.coin_a0 1) = toOutpoint (Fixtures.coin_b1 1)
     ↔ toStringOutpoint_op (toOutpoint (Fixtures.coin_a0 1))
       = toStringOutpoint_op (toOutpoint (Fixtures.coin_b1 1))).
Proof.
  apply (toStringOutpoint_canonical (toOutpoint (Fixtures.coin_a0 1))
           (toOutpoint (Fixtures.coin_b1 1)));
    [reflexivity | simpl; lia | reflexivity | simpl; lia].
Defined.

(** ** [getUtxosFromTx]: C6, C7 *)

Lemma elem_of_concat {A} (x : A) (ls : list (list A)) :
  x ∈ concat ls ↔ ∃ l, l ∈ ls ∧ x ∈ l.
Proof.
  rewrite list_elem_of_In, in_concat. split.
  - intros (l & Hl & Hx). exists l. by rewrite !list_elem_of_In.
  - intros (l & Hl & Hx). exists l. by rewrite <- !list_elem_of_In.
Qed.

Section UtxosFromTx.
Import Utils.
Context `{Ldk}.

Lemma is_coin_true (in_txid : string) (index : Z) (coin : UtxoInterface) :
  is_coin in_txid index coin = true ↔ txid coin = in_txid ∧ vout coin = index.
Proof. unfold is_coin. by rewrite andb_true_iff, String.eqb_eq, Z.eqb_eq. Qed.

Lemma elem_of_select_input (coins : list UtxoInterface) (_in : TxInput)
    (coin : UtxoInterface) :
  coin ∈ select_input coins _in ↔
    List.find (is_coin (txid_of_hash (in_hash _in)) (in_index _in)) coins
      = Some coin.
Proof.
  unfold select_input. destruct (List.find _ coins) as [c|].
  - rewrite list_elem_of_singleton. split; congruence.
  - split; [by intros ?%elem_of_nil | done].
Qed.

(** The loop over the coins stops at the first coin with the outpoint of
    the input: that one is selected, whatever follows it in the list. *)
Lemma first_matching_coin_selected (coins : list UtxoInterface)
    (_in : TxInput) (coin : UtxoInterface) :
  coin ∈ coins →
  txid coin = txid_of_hash (in_hash _in) → vout coin = in_index _in →
  ∃ first, first ∈ select_input coins _in
           ∧ txid first = txid coin ∧ vout first = vout coin.
Proof.
  intros Hin Ht Hv.
  destruct (List.find (is_coin (txid_of_hash (in_hash _in)) (in_index _in)) coins)
    as [c|] eqn:Hfind.
  - exists c. split; [by apply elem_of_select_input|].
    apply find_some in Hfind as [_ [? ?]%is_coin_true]. split; congruence.
  - apply list_elem_of_In in Hin.
    pose proof (find_none _ _ Hfind _ Hin) as Hno.
    assert (is_coin (txid_of_hash (in_hash _in)) (in_index _in) coin = true)
      by by apply is_coin_true.
    congruence.
Qed.

Lemma getUtxosFromTx_ok (accounts : list Account) (coins : list UtxoInterface)
    (network signedTxHex : string) (tx : Transaction)
    (allAddresses : list AddressInterface) :
  Transaction_fromHex signedTxHex = Ok tx →
  all_addresses accounts network = Ok allAddresses →
  getUtxosFromTx accounts coins network signedTxHex
    = Ok {| selectedUtxos := concat (map (select_input coins) (ins tx));
            changeUtxos :=
              concat (imap (change_of_output (tx_getId tx) network allAddresses)
                           (outs tx)) |}.
Proof. intros Htx Ha. unfold getUtxosFromTx. rewrite Htx. simpl. by rewrite Ha. Qed.

Lemma getUtxosFromTx_selected (accounts : list Account)
    (coins : list UtxoInterface) (network signedTxHex : string)
    (tx : Transaction) (r : UtxosFromTx) :
  Transaction_fromHex signedTxHex = Ok tx →
  getUtxosFromTx accounts coins network signedTxHex = Ok r →
  selectedUtxos r = concat (map (select_input coins) (ins tx)).
Proof.
  intros Htx Hr. unfold getUtxosFromTx in Hr. rewrite Htx in Hr. simpl in Hr.
  destruct (all_addresses accounts network); simpl in Hr; [|discriminate].
  by injection Hr as <-.
Qed.

(** [List.find] returns the first element that passes the test. *)
Lemma find_Some_split {A} (p : A → bool) (l : list A) (x : A) :
  List.find p l = Some x ↔
    ∃ before after, l = before ++ x :: after ∧ p x = true
                    ∧ ∀ c, c ∈ before → p c = false.
Proof.
  induction l as [|y l IH]; simpl.
  - split; [done|]. intros (before & after & Heq & _). by destruct before.
  - destruct (p y) eqn:Hy.
    + split.
      * intros [= ->]. exists [], l. split; [done|]. split; [done|].
        by intros c ?%elem_of_nil.
      * intros ([|c before] & after & Heq & Hx & Hb).
        -- by injection Heq as ->.
        -- injection Heq as -> _. rewrite (Hb c) in Hy; [done|by left].
    + rewrite IH. split.
      * intros (before & after & -> & Hx & Hb). exists (y :: before), after.
        split; [done|]. split; [done|].
        intros c [->|Hc]%elem_of_cons; [done|by apply Hb].
      * intros ([|c before] & after & Heq & Hx & Hb).
        -- injection Heq as -> _. congruence.
        -- injection Heq as -> ->. exists before, after. split; [done|].
           split; [done|]. intros c' Hc'. apply Hb. by right.
Qed.

(** C6, as amended.  For every input of the parsed transaction and every
    known coin whose txid is the hexadecimal form of the byte-reversed hash
    of the input and whose vout is the index of the input, the first coin of
    the list with that txid and vout is among the selected utxos returned.
    Every selected utxo is a known coin that matches some input in this way
    and is the first coin of the list with its outpoint: a coin matching no
    input is not selected, and neither is a coin that comes after another
    with the same outpoint.  When an outpoint identifies its coin in the
    list, every matching coin is selected. *)
Theorem selected_utxos_are_the_spent_coins (accounts : list Account)
    (coins : list UtxoInterface) (network signedTxHex : string)
    (tx : Transaction) (r : UtxosFromTx) :
  Transaction_fromHex signedTxHex = Ok tx →
  getUtxosFromTx accounts coins network signedTxHex = Ok r →
  (∀ _in coin,
     _in ∈ ins tx → coin ∈ coins →
     txid coin = toString_hex (rev (in_hash _in)) → vout coin = in_index _in →
     ∃ before first after,
       coins = before ++ first :: after
       ∧ (∀ c, c ∈ before → ¬ (txid c = txid coin ∧ vout c = vout coin))
       ∧ txid first = txid coin ∧ vout first = vout coin
       ∧ first ∈ selectedUtxos r)
  ∧ (∀ coin,
       coin ∈ selectedUtxos r →
       (∃ before after,
          coins = before ++ coin :: after
          ∧ ∀ c, c ∈ before → ¬ (txid c = txid coin ∧ vout c = vout coin))
       ∧ ∃ _in, _in ∈ ins tx
                ∧ txid coin = toString_hex (rev (in_hash _in))
                ∧ vout coin = in_index _in)
  ∧ ((∀ c1 c2, c1 ∈ coins → c2 ∈ coins →
               txid c1 = txid c2 → vout c1 = vout c2 → c1 = c2) →
     ∀ _in coin,
       _in ∈ ins tx → coin ∈ coins →
       txid coin = toString_hex (rev (in_hash _in)) → vout coin = in_index _in →
       coin ∈ selectedUtxos r).
Proof.
  intros Htx Hr.
  rewrite (getUtxosFromTx_selected _ _ _ _ _ _ Htx Hr).
  assert (Hfirst : ∀ _in coin,
            _in ∈ ins tx → coin ∈ coins →
            txid coin = toString_hex (rev (in_hash _in)) →
            vout coin = in_index _in →
            ∃ before first after,
              coins = before ++ first :: after
              ∧ (∀ c, c ∈ before → ¬ (txid c = txid coin ∧ vout c = vout coin))
              ∧ txid first = txid coin ∧ vout first = vout coin
              ∧ first ∈ concat (map (select_input coins) (ins tx))).
  { intros _in coin Hi Hc Ht Hv.
    destruct (first_matching_coin_selected coins _in coin Hc Ht Hv)
      as (first & Hsel & Ht' & Hv').
    pose proof Hsel as Hfind. apply elem_of_select_input in Hfind.
    apply find_Some_split in Hfind as (before & after & Heq & _ & Hb).
    exists before, first, after. split; [done|]. split.
    - intros c Hcb [Htc Hvc]. specialize (Hb c Hcb).
      assert (is_coin (txid_of_hash (in_hash _in)) (in_index _in) c = true);
        [|congruence].
      apply is_coin_true. unfold txid_of_hash. split; congruence.
    - split; [done|]. split; [done|].
      apply elem_of_concat. exists (select_input coins _in). split; [|done].
      by apply list_elem_of_fmap_2. }
  split; [exact Hfirst|]. split.
  - intros coin (l & (_in & -> & Hi)%list_elem_of_fmap & Hsel)%elem_of_concat.
    apply elem_of_select_input in Hsel.
    apply find_Some_split in Hsel
      as (before & after & Heq & [Ht Hv]%is_coin_true & Hb).
    split; [|by exists _in].
    exists before, after. split; [done|].
    intros c Hcb [Htc Hvc]. specialize (Hb c Hcb).
    assert (is_coin (txid_of_hash (in_hash _in)) (in_index _in) c = true);
      [|congruence].
    apply is_coin_true. split; congruence.
  - intros Huniq _in coin Hi Hc Ht Hv.
    destruct (Hfirst _in coin Hi Hc Ht Hv)
      as (before & first & after & Heq & _ & Ht' & Hv' & Hsel).
    assert (Hfc : first ∈ coins).
    { rewrite Heq. apply elem_of_app. right. by left. }
    by rewrite <- (Huniq first coin Hfc Hc Ht' Hv').
Qed.

(** *** Change outputs *)

Lemma elem_of_change_of_output (txid network : string)
    (allAddresses : list AddressInterface) (vout : nat) (out : TxOutput)
    (u : UnconfirmedOutput) :
  u ∈ change_of_output txid network allAddresses vout out ↔
    ∃ addr, detect_change network allAddresses out = Ok (Some addr)
            ∧ u = {| u_txid := txid; u_vout := Z.of_nat vout;
                     blindPrivKey := blindingPrivateKey addr |}.
Proof.
  unfold change_of_output.
  destruct (detect_change network allAddresses out) as [[addr|]|e].
  - rewrite list_elem_of_singleton. split.
    + intros ->. by exists addr.
    + by intros (? & [= <-] & ->).
  - split; [by intros ?%elem_of_nil | by intros (? & ? & _)].
  - split; [by intros ?%elem_of_nil | by intros (? & ? & _)].
Qed.

Lemma elem_of_changeUtxos (txid network : string)
    (allAddresses : list AddressInterface) (outs : list TxOutput)
    (u : UnconfirmedOutput) :
  u ∈ concat (imap (change_of_output txid network allAddresses) outs) ↔
    ∃ vout out addr,
      outs !! vout = Some out
      ∧ detect_change network allAddresses out = Ok (Some addr)
      ∧ u = {| u_txid := txid; u_vout := Z.of_nat vout;
               blindPrivKey := blindingPrivateKey addr |}.
Proof.
  rewrite elem_of_concat. split.
  - intros (l & (vout & out & -> & Hl)%elem_of_lookup_imap & Hu).
    apply elem_of_change_of_output in Hu as (addr & Hd & ->).
    by exists vout, out, addr.
  - intros (vout & out & addr & Hl & Hd & ->).
    exists (change_of_output txid network allAddresses vout out). split.
    + apply elem_of_lookup_imap. by exists vout, out.
    + apply elem_of_change_of_output. by exists addr.
Qed.

(** An address that is the output's in neither form is passed over; the
    loop then ends without a push, or with an exception. *)
Lemma match_address_no_match (a : string) (allAddresses : list AddressInterface) :
  (∀ addr, addr ∈ allAddresses →
           a ≠ confidentialAddress addr
           ∧ address_fromConfidential (confidentialAddress addr) ≠ Ok a) →
  ∀ addr, match_address a allAddresses ≠ Ok (Some addr).
Proof.
  induction allAddresses as [|x l IH]; intros Hno addr; simpl; [done|].
  destruct (Hno x) as [Hc Hu]; [by left|].
  destruct (address_fromConfidential (confidentialAddress x)) as [unconf|e];
    [|done].
  destruct (String.eqb_spec a unconf) as [->|_]; [done|].
  destruct (String.eqb_spec a (confidentialAddress x)) as [->|_]; [done|].
  simpl. apply IH. intros addr' Hin. apply Hno. by right.
Qed.

(** Addresses that convert and are not the output's, in either form, are
    passed over: the loop goes on with the next address. *)
Lemma match_address_skip (a : string) (before rest : list AddressInterface) :
  (∀ x, x ∈ before →
        a ≠ confidentialAddress x
        ∧ ∃ unconf, address_fromConfidential (confidentialAddress x) = Ok unconf
                    ∧ a ≠ unconf) →
  match_address a (before ++ rest) = match_address a rest.
Proof.
  induction before as [|x l IH]; intros Hbefore; [done|]. simpl.
  destruct (Hbefore x) as (Hc & unconf & -> & Hu); [by left|].
  destruct (String.eqb_spec a unconf); [done|].
  destruct (String.eqb_spec a (confidentialAddress x)); [done|]. simpl.
  apply IH. intros y Hy. apply Hbefore. by right.
Qed.

(** C7.  Once the transaction is parsed and the wallet addresses are
    listed, [getUtxosFromTx] returns, whatever the ldk calls do on the
    individual outputs.  An output whose script has no address, an output
    for which the conversion of a wallet address throws before any address
    has matched, and an output whose address is no wallet address in either
    form, have no entry in the change utxos returned.  Every other output is
    processed all the same: when the address of its script is a wallet
    address, in its unconfidential or its confidential form, and the wallet
    addresses before that one convert without matching, the output has its
    entry, with the id of the transaction, its index and the blinding key of
    that address, whatever happens on the other outputs. *)
Theorem change_detection_is_isolated (accounts : list Account)
    (coins : list UtxoInterface) (network signedTxHex : string)
    (tx : Transaction) (allAddresses : list AddressInterface) :
  Transaction_fromHex signedTxHex = Ok tx →
  all_addresses accounts network = Ok allAddresses →
  ∃ r, getUtxosFromTx accounts coins network signedTxHex = Ok r
    ∧ (∀ vout out,
         outs tx !! vout = Some out →
         (∃ e, address_fromOutputScript (out_script out) network = Throw e)
         ∨ (∃ a before addr after e,
              address_fromOutputScript (out_script out) network = Ok a
              ∧ allAddresses = before ++ addr :: after
              ∧ (∀ x, x ∈ before →
                      a ≠ confidentialAddress x
                      ∧ ∃ unconf,
                          address_fromConfidential (confidentialAddress x)
                            = Ok unconf
                          ∧ a ≠ unconf)
              ∧ address_fromConfidential (confidentialAddress addr) = Throw e)
         ∨ (∃ a, address_fromOutputScript (out_script out) network = Ok a
                 ∧ ∀ addr, addr ∈ allAddresses →
                     a ≠ confidentialAddress addr
                     ∧ address_fromConfidential (confidentialAddress addr)
                       ≠ Ok a) →
         ∀ u, u ∈ changeUtxos r → u_vout u ≠ Z.of_nat vout)
    ∧ (∀ vout out a before addr after unconf,
         outs tx !! vout = Some out →
         address_fromOutputScript (out_script out) network = Ok a →
         allAddresses = before ++ addr :: after →
         (∀ x, x ∈ before →
               a ≠ confidentialAddress x
               ∧ ∃ ux, address_fromConfidential (confidentialAddress x) = Ok ux
                       ∧ a ≠ ux) →
         address_fromConfidential (confidentialAddress addr) = Ok unconf →
         a = unconf ∨ a = confidentialAddress addr →
         {| u_txid := tx_getId tx; u_vout := Z.of_nat vout;
            blindPrivKey := blindingPrivateKey addr |} ∈ changeUtxos r).
Proof.
  intros Htx Ha. eexists. split; [by apply getUtxosFromTx_ok|]. simpl. split.
  - intros vout out Hl Hfail u Hu Hvout.
    apply elem_of_changeUtxos in Hu as (vout' & out' & addr & Hl' & Hd & ->).
    simpl in Hvout. apply Nat2Z.inj in Hvout as ->.
    rewrite Hl in Hl'. injection Hl' as <-.
    unfold detect_change in Hd.
    destruct Hfail
      as [[e He] | [(a & before & x & after & e & Hs & -> & Hb & Hx)
                   | (a & Hs & Hno)]].
    + by rewrite He in Hd.
    + rewrite Hs in Hd. simpl in Hd.
      rewrite (match_address_skip a before (x :: after) Hb) in Hd.
      simpl in Hd. by rewrite Hx in Hd.
    + rewrite Hs in Hd. simpl in Hd.
      by apply (match_address_no_match a allAddresses Hno addr).
  - intros vout out a before addr after unconf Hl Hs -> Hb Hu Hm.
    apply elem_of_changeUtxos. exists vout, out, addr.
    split; [done|]. split; [|done].
    unfold detect_change. rewrite Hs. simpl.
    rewrite (match_address_skip a before (addr :: after) Hb). simpl.
    rewrite Hu.
    destruct (String.eqb_spec a unconf); [done|].
    destruct (String.eqb_spec a (confidentialAddress addr)); [done|]. tauto.
Qed.

End UtxosFromTx.

(** *** Examples *)

Example txid_of_hash_example :
  Utils.txid_of_hash [Byte.x01; Byte.xab; Byte.xff] = "ffab01".
Proof. reflexivity. Qed.

(** The fixture transaction: its input spends the known coin; of its three
    outputs only the first is the wallet's, the second has no address. *)
Example getUtxosFromTx_example :
  @Utils.getUtxosFromTx Fixtures.U.ldk [Fixtures.U.account_1]
    [Fixtures.coin_b1 7; Fixtures.coin_a0 1000] "regtest" "signed"
  = Ok {| Utils.selectedUtxos := [Fixtures.coin_a0 1000];
          Utils.changeUtxos :=
            [{| Utils.u_txid := Fixtures.txid_b; Utils.u_vout := 0;
                Utils.blindPrivKey := "key-1" |}] |}.
Proof. reflexivity. Qed.

Lemma selected_utxos_are_the_spent_coins_witness :
  ∃ before first after,
    [Fixtures.coin_b1 7; Fixtures.coin_a0 1000; Fixtures.coin_a0 2]
      = before ++ first :: after
    ∧ (∀ c, c ∈ before →
            ¬ (txid c = txid (Fixtures.coin_a0 2)
               ∧ vout c = vout (Fixtures.coin_a0 2)))
    ∧ txid first = txid (Fixtures.coin_a0 2)
    ∧ vout first = vout (Fixtures.coin_a0 2)
    ∧ first ∈ Utils.selectedUtxos Fixtures.U.duplicate_coin_selection.
Proof.
  refine (proj1 (@selected_utxos_are_the_spent_coins Fixtures.U.ldk
            [Fixtures.U.account_1]
            [Fixtures.coin_b1 7; Fixtures.coin_a0 1000; Fixtures.coin_a0 2]
            "regtest" "signed" Fixtures.U.signed_tx
            Fixtures.U.duplicate_coin_selection _ _)
            (Utils.mkInput (replicate 32 Byte.xaa) 0) (Fixtures.coin_a0 2)
            _ _ _ _).
  - reflexivity.
  - reflexivity.
  - apply list_elem_of_singleton. reflexivity.
  - right. right. left.
  - reflexivity.
  - reflexivity.
Defined.

(** C6 as stated fails: with two known coins of one outpoint, the input that
    spends this outpoint selects the first of them and stops, so the second
    matches the input and is not among the selected utxos. *)
Lemma later_coin_of_same_outpoint_is_not_selected :
  ¬ (∀ `{Utils.Ldk} (accounts : list Utils.Account)
       (coins : list UtxoInterface) (network signedTxHex : string)
       (tx : Utils.Transaction) (r : Utils.UtxosFromTx),
       Utils.Transaction_fromHex signedTxHex = Ok tx →
       Utils.getUtxosFromTx accounts coins network signedTxHex = Ok r →
       ∀ _in coin,
         _in ∈ Utils.ins tx → coin ∈ coins →
         txid coin = Utils.toString_hex (rev (Utils.in_hash _in)) →
         vout coin = Utils.in_index _in →
         coin ∈ Utils.selectedUtxos r).
Proof.
  intros Hclaim.
  pose proof (Hclaim Fixtures.U.ldk [Fixtures.U.account_1]
                [Fixtures.coin_a0 1000; Fixtures.coin_a0 2] "regtest" "signed"
                Fixtures.U.signed_tx _ eq_refl eq_refl
                (Utils.mkInput (replicate 32 Byte.xaa) 0) (Fixtures.coin_a0 2))
    as Hin.
  simpl in Hin.
  assert (Hsel : Fixtures.coin_a0 2 ∈ [Fixtures.coin_a0 1000]).
  { apply Hin; [by left | right; by left | reflexivity | reflexivity]. }
  apply list_elem_of_singleton in Hsel. discriminate Hsel.
Qed.

Lemma change_detection_is_isolated_witness :
  ∃ r, @Utils.getUtxosFromTx Fixtures.U.ldk [Fixtures.U.account_1]
         [Fixtures.coin_a0 1000] "regtest" "signed" = Ok r
       ∧ {| Utils.u_txid := Fixtures.txid_b; Utils.u_vout := 0;
            Utils.blindPrivKey := "key-1" |} ∈ Utils.changeUtxos r
       ∧ (∀ u, u ∈ Utils.changeUtxos r → Utils.u_vout u ≠ 1)
       ∧ (∀ u, u ∈ Utils.changeUtxos r → Utils.u_vout u ≠ 2).
Proof.
  destruct (@change_detection_is_isolated Fixtures.U.ldk [Fixtures.U.account_1]
              [Fixtures.coin_a0 1000] "regtest" "signed" Fixtures.U.signed_tx
              [Fixtures.address_1] eq_refl eq_refl) as (r & Hr & Hnone & Hsome).
  exists r. split; [exact Hr|]. split; [|split].
  - apply (Hsome 0%nat {| Utils.out_script := [Byte.x00; Byte.x14] |}
             "ert1q-wallet-1" [] Fixtures.address_1 [] "ert1q-wallet-1").
    + reflexivity.
    + reflexivity.
    + reflexivity.
    + intros x Hx. by apply elem_of_nil in Hx.
    + reflexivity.
    + left. reflexivity.
  - apply (Hnone 1%nat {| Utils.out_script := [Byte.x6a] |}); [reflexivity|].
    left. eexists. reflexivity.
  - apply (Hnone 2%nat {| Utils.out_script := [Byte.x00; Byte.x20] |});
      [reflexivity|].
    right. right. exists "ert1q-somebody". split; [reflexivity|].
    intros addr ->%list_elem_of_singleton. split; discriminate.
Defined.

(** ** The updater: C1, C3 *)

Section UpdaterTraces.
Import Backend.
Context `{Env}.

Lemma added_keys_app (t1 t2 : list AnyAction) :
  added_keys (t1 ++ t2) = added_keys t1 ++ added_keys t2.
Proof. unfold added_keys. by rewrite map_app, concat_app. Qed.

Lemma deleted_keys_app (t1 t2 : list AnyAction) :
  deleted_keys (t1 ++ t2) = deleted_keys t1 ++ deleted_keys t2.
Proof. unfold deleted_keys. by rewrite map_app, concat_app. Qed.

Lemma toStringOutpoint_tryToUnblindUtxo (u : UtxoInterface) (key : string) :
  toStringOutpoint (tryToUnblindUtxo u key) = toStringOutpoint u.
Proof. unfold tryToUnblindUtxo. by destruct (unblind u key) as [[a v]|]. Qed.

Lemma toStringOutpoint_yielded (skipped : bool) (u : UtxoInterface)
    (key : string) :
  toStringOutpoint (yielded skipped u key) = toStringOutpoint u.
Proof.
  destruct skipped; simpl; [done|]. apply toStringOutpoint_tryToUnblindUtxo.
Qed.

Lemma toStringOutpoint_utxoWithPrevout (u u' : UtxoInterface)
    (explorer : string) :
  utxoWithPrevout u explorer = Ok u' → toStringOutpoint u' = toStringOutpoint u.
Proof.
  unfold utxoWithPrevout.
  destruct (fetchPrevout (txid u) (vout u) explorer); simpl; [|done].
  by intros [= <-].
Qed.

Lemma fetchAssetInfos_keys (assetHash explorerUrl : string)
    (assetsState : gmap string Asset) :
  added_keys (fetchAssetInfos assetHash explorerUrl assetsState) = []
  ∧ deleted_keys (fetchAssetInfos assetHash explorerUrl assetsState) = [].
Proof.
  unfold fetchAssetInfos. case_bool_decide; [done|].
  by destruct (axios_get_asset explorerUrl assetHash) as [[i|]|].
Qed.

(** One turn of the loop adds the key of the yielded output when it is not
    blinded, and nothing else; it deletes nothing. *)
Lemma loop_body_keys (accountID explorer : string) (utxo : UtxoInterface)
    (assetsState assetsState' : gmap string Asset) (t : list AnyAction) :
  loop_body accountID explorer utxo assetsState = (t, Ok assetsState') →
  deleted_keys t = []
  ∧ added_keys t
    = if isBlindedUtxo utxo then [] else [toStringOutpoint utxo].
Proof.
  unfold loop_body. destruct (isBlindedUtxo utxo); simpl.
  { by intros [= <- _]. }
  set (infos := if JS.truthy_ostring (asset utxo) then _ else _).
  assert (Hinfos : added_keys infos = [] ∧ deleted_keys infos = []).
  { subst infos. destruct (JS.truthy_ostring (asset utxo)); [|done].
    apply fetchAssetInfos_keys. }
  destruct Hinfos as [Hia Hid].
  destruct (negb (JS.truthy_ostring (prevout utxo))).
  - destruct (utxoWithPrevout utxo explorer) as [u'|e] eqn:Hp; simpl.
    + intros [= <- _].
      rewrite added_keys_app, deleted_keys_app, Hia, Hid.
      split; [done|]. unfold added_keys. simpl.
      by rewrite (toStringOutpoint_utxoWithPrevout _ _ _ Hp).
    + discriminate.
  - simpl. intros [= <- _].
    by rewrite added_keys_app, deleted_keys_app, Hia, Hid.
Qed.

(** The whole loop: nothing is deleted; the keys added are those of the
    scanned outputs yielded unblinded; the outpoints skipped are those of
    the scanned outputs already in the map. *)
Lemma update_loop_keys (utxosMap : gmap string UtxoInterface)
    (accountID explorer : string) (items : list (UtxoInterface * string))
    (skippedOutpoints skippedOutpoints' : list string)
    (assetsState : gmap string Asset) (t : list AnyAction) :
  update_loop utxosMap accountID explorer items skippedOutpoints assetsState
    = (t, Ok skippedOutpoints') →
  deleted_keys t = []
  ∧ added_keys t = toStringOutpoint <$> (unblinded_items utxosMap items).*1
  ∧ skippedOutpoints'
    = skippedOutpoints
      ++ filter (λ k, is_Some (utxosMap !! k)) (toStringOutpoint <$> items.*1).
Proof.
  revert skippedOutpoints assetsState t.
  induction items as [|[raw key] rest IH]; intros sk assetsState t; simpl.
  - intros [= <- <-]. by rewrite app_nil_r.
  - destruct (loop_body accountID explorer _ assetsState) as [t1 [as1|e]] eqn:Hb;
      [|discriminate].
    rewrite Eff_bind_ok.
    destruct (update_loop utxosMap accountID explorer rest _ as1)
      as [t2 r] eqn:Hl. simpl. intros [= <- ->].
    apply loop_body_keys in Hb as [Hd Ha].
    apply IH in Hl as (Hd2 & Ha2 & ->).
    rewrite added_keys_app, deleted_keys_app, Hd, Hd2, Ha, Ha2.
    split; [done|]. unfold unblinded_items. rewrite !filter_cons.
    split.
    + destruct (isBlindedUtxo _) eqn:Hblind.
      * rewrite decide_False; [done|].
        unfold yields_unblinded. simpl. by rewrite Hblind.
      * rewrite decide_True.
        -- simpl. by rewrite toStringOutpoint_yielded.
        -- unfold yields_unblinded. simpl. by rewrite Hblind.
    + case_bool_decide as Hs.
      * rewrite decide_True by done. by rewrite <- app_assoc.
      * by rewrite decide_False by done.
Qed.

End UpdaterTraces.

Section Reducer.
Import Backend.

Lemma apply_diff_app (m : gmap string UtxoInterface) (t1 t2 : list AnyAction) :
  apply_diff m (t1 ++ t2) = apply_diff (apply_diff m t1) t2.
Proof. apply foldl_app. Qed.

Lemma dom_apply_adds (m : gmap string UtxoInterface) (t : list AnyAction) :
  deleted_keys t = [] →
  dom (apply_diff m t) = dom m ∪ list_to_set (added_keys t).
Proof.
  revert m. induction t as [|a t IH]; intros m Hd; simpl.
  - set_solver.
  - change (a :: t) with ([a] ++ t) in Hd.
    rewrite deleted_keys_app in Hd. apply app_eq_nil in Hd as [Ha Ht].
    change (added_keys (a :: t)) with (added_keys ([a] ++ t)).
    rewrite added_keys_app.
    fold (apply_diff (utxosReducer m a) t). rewrite (IH _ Ht).
    destruct a as [id u|dt dv|h x]; simpl in *.
    + rewrite dom_insert_L. unfold added_keys at 1. simpl. set_solver.
    + discriminate.
    + unfold added_keys at 1. simpl. set_solver.
Qed.

Lemma dom_apply_deletes (m : gmap string UtxoInterface) (t : list AnyAction) :
  added_keys t = [] →
  dom (apply_diff m t) = dom m ∖ list_to_set (deleted_keys t).
Proof.
  revert m. induction t as [|a t IH]; intros m Hd; simpl.
  - set_solver.
  - change (a :: t) with ([a] ++ t) in Hd.
    rewrite added_keys_app in Hd. apply app_eq_nil in Hd as [Ha Ht].
    change (deleted_keys (a :: t)) with (deleted_keys ([a] ++ t)).
    rewrite deleted_keys_app.
    fold (apply_diff (utxosReducer m a) t). rewrite (IH _ Ht).
    destruct a as [id u|dt dv|h x]; simpl in *.
    + discriminate.
    + rewrite dom_delete_L. unfold deleted_keys at 1. simpl. set_solver.
    + unfold deleted_keys at 1. simpl. set_solver.
Qed.

(** A key that the trace neither adds nor deletes keeps its entry. *)
Lemma apply_diff_lookup_other (m : gmap string UtxoInterface)
    (t : list AnyAction) (k : string) :
  k ∉ added_keys t → k ∉ deleted_keys t → apply_diff m t !! k = m !! k.
Proof.
  revert m. induction t as [|a t IH]; intros m Ha Hd; simpl; [done|].
  change (a :: t) with ([a] ++ t) in Ha, Hd.
  rewrite added_keys_app, elem_of_app in Ha.
  rewrite deleted_keys_app, elem_of_app in Hd.
  fold (apply_diff (utxosReducer m a) t). rewrite IH by tauto.
  destruct a as [id u|dt dv|h x]; simpl.
  - apply lookup_insert_ne. intros <-. apply Ha. left.
    unfold added_keys. simpl. by left.
  - apply lookup_delete_ne. intros <-. apply Hd. left.
    unfold deleted_keys. simpl. by left.
  - done.
Qed.

Lemma deleteUtxo_in_deleted_keys (t : list AnyAction) (d_txid : string)
    (d_vout : Z) :
  deleteUtxo d_txid d_vout ∈ t →
  toStringOutpoint_of d_txid d_vout ∈ deleted_keys t.
Proof.
  intros Hin. unfold deleted_keys. apply elem_of_concat.
  exists [toStringOutpoint_of d_txid d_vout]. split; [|by left].
  apply list_elem_of_fmap. by exists (deleteUtxo d_txid d_vout).
Qed.

Lemma elem_of_delete_spent (currentOutpoints : list Outpoint)
    (skippedOutpoints : list string) (a : AnyAction) :
  a ∈ delete_spent currentOutpoints skippedOutpoints ↔
    ∃ outpoint, outpoint ∈ currentOutpoints
                ∧ (toStringOutpoint_op outpoint ∉ skippedOutpoints)
                ∧ a = deleteUtxo (op_txid outpoint) (op_vout outpoint).
Proof.
  unfold delete_spent. rewrite elem_of_concat. split.
  - intros (l & (o & -> & Ho)%list_elem_of_fmap & Ha).
    case_bool_decide; [by apply elem_of_nil in Ha|].
    apply list_elem_of_singleton in Ha as ->. by exists o.
  - intros (o & Ho & Hs & ->). eexists. split.
    + apply list_elem_of_fmap. by exists o.
    + rewrite bool_decide_eq_false_2 by done. by left.
Qed.

Lemma delete_spent_keys (currentOutpoints : list Outpoint)
    (skippedOutpoints : list string) :
  added_keys (delete_spent currentOutpoints skippedOutpoints) = []
  ∧ ∀ k, k ∈ deleted_keys (delete_spent currentOutpoints skippedOutpoints) ↔
         (k ∉ skippedOutpoints)
         ∧ ∃ outpoint, outpoint ∈ currentOutpoints
                       ∧ toStringOutpoint_op outpoint = k.
Proof.
  split.
  - unfold delete_spent.
    induction currentOutpoints as [|o l IH]; simpl; [done|].
    rewrite added_keys_app, IH. by case_bool_decide.
  - intros k. unfold deleted_keys. rewrite elem_of_concat. split.
    + intros (l & (a & -> & Ha)%list_elem_of_fmap & Hk).
      apply elem_of_delete_spent in Ha as (o & Ho & Hs & ->).
      apply list_elem_of_singleton in Hk as ->. split; [done|]. by exists o.
    + intros (Hs & o & Ho & <-).
      exists [toStringOutpoint_op o]. split; [|by left].
      apply list_elem_of_fmap.
      exists (deleteUtxo (op_txid o) (op_vout o)). split; [done|].
      apply elem_of_delete_spent. by exists o.
Qed.

Lemma elem_of_currentOutpoints (utxosMap : gmap string UtxoInterface)
    (outpoint : Outpoint) :
  outpoint ∈ currentOutpoints_of utxosMap ↔
    ∃ k u, utxosMap !! k = Some u ∧ outpoint = toOutpoint u.
Proof.
  unfold currentOutpoints_of. rewrite list_elem_of_fmap. split.
  - intros (u & -> & ([k u'] & -> & Hku)%list_elem_of_fmap).
    apply elem_of_map_to_list in Hku. by exists k, u'.
  - intros (k & u & Hku & ->). exists u. split; [done|].
    apply list_elem_of_fmap. exists (k, u). split; [done|].
    by apply elem_of_map_to_list.
Qed.

(** Under the representation invariant the current outpoints are the keys
    of the map. *)
Lemma currentOutpoints_keys (utxosMap : gmap string UtxoInterface) (k : string) :
  keyed_by_outpoint utxosMap →
  (∃ outpoint, outpoint ∈ currentOutpoints_of utxosMap
               ∧ toStringOutpoint_op outpoint = k)
  ↔ k ∈ dom utxosMap.
Proof.
  intros Hkeyed. rewrite elem_of_dom. split.
  - intros (o & (k' & u & Hku & ->)%elem_of_currentOutpoints & <-).
    change (toStringOutpoint_op (toOutpoint u)) with (toStringOutpoint u).
    rewrite (Hkeyed _ _ Hku). by exists u.
  - intros [u Hku]. exists (toOutpoint u). split.
    + apply elem_of_currentOutpoints. by exists k, u.
    + apply (Hkeyed _ _ Hku).
Qed.

End Reducer.

Section Reconciler.
Import Backend.
Context `{Env}.

Lemma makeUtxosUpdaterThunk_completed
    (selectAccount : RootReducerState → Account) (state : RootReducerState)
    (n : Z) (errors : list string) (actions : list AnyAction) :
  makeUtxosUpdaterThunk selectAccount state = (Completed n errors, actions) →
  ∃ t skippedOutpoints,
    update_loop (tracked selectAccount state)
      (accountID (selectAccount state)) (explorerURL state)
      (scanned selectAccount state) [] (assets state)
      = (t, Ok skippedOutpoints)
    ∧ actions
      = t ++ delete_spent (currentOutpoints_of (tracked selectAccount state))
               skippedOutpoints.
Proof.
  unfold makeUtxosUpdaterThunk, scanned.
  destruct (negb (app_isAuthenticated state)); [discriminate|].
  destruct (getWatchIdentity_getAddresses (selectAccount state))
    as [addresses|e]; [|discriminate].
  destruct (scan addresses (explorerURL state)) as [items errs]. simpl.
  destruct (update_loop _ _ _ items [] (assets state)) as [t [sk|e]];
    [|discriminate].
  intros [= _ _ <-]. by exists t, sk.
Qed.

(** What a completed cycle dispatched, by outpoint string. *)
Lemma completed_cycle_keys (selectAccount : RootReducerState → Account)
    (state : RootReducerState) (n : Z) (errors : list string)
    (actions : list AnyAction) :
  keyed_by_outpoint (tracked selectAccount state) →
  makeUtxosUpdaterThunk selectAccount state = (Completed n errors, actions) →
  ∃ t d,
    actions = t ++ d
    ∧ deleted_keys t = [] ∧ added_keys d = []
    ∧ added_keys t
      = toStringOutpoint
          <$> (unblinded_items (tracked selectAccount state)
                 (scanned selectAccount state)).*1
    ∧ (∀ a, a ∈ d ↔
            ∃ k u, tracked selectAccount state !! k = Some u
                   ∧ (¬ ∃ f, f ∈ fetched selectAccount state
                             ∧ toStringOutpoint f = k)
                   ∧ a = deleteUtxo (txid u) (vout u))
    ∧ (∀ k, k ∈ deleted_keys d ↔
            k ∈ dom (tracked selectAccount state)
            ∧ ¬ ∃ f, f ∈ fetched selectAccount state ∧ toStringOutpoint f = k).
Proof.
  intros Hkeyed (t & sk & Hloop & ->)%makeUtxosUpdaterThunk_completed.
  apply update_loop_keys in Hloop as (Hd & Ha & ->). simpl.
  set (S := tracked selectAccount state) in *.
  assert (Hsk : ∀ k, k ∈ dom S →
            (k ∈ filter (λ k, is_Some (S !! k))
                   (toStringOutpoint <$> (scanned selectAccount state).*1)
             ↔ ∃ f, f ∈ fetched selectAccount state ∧ toStringOutpoint f = k)).
  { intros k Hk. rewrite list_elem_of_filter, list_elem_of_fmap.
    unfold fetched. split.
    - intros (_ & f & -> & Hf). by exists f.
    - intros (f & Hf & <-). split; [by apply elem_of_dom|]. by exists f. }
  destruct (delete_spent_keys (currentOutpoints_of S)
              (filter (λ k, is_Some (S !! k))
                 (toStringOutpoint <$> (scanned selectAccount state).*1)))
    as [Hda Hdd].
  eexists t, _. split; [reflexivity|].
  split; [done|]. split; [done|]. split; [done|]. split.
  - intros a. split.
    + intros (o & (k & u & Hku & ->)%elem_of_currentOutpoints & Hs & ->)
               %elem_of_delete_spent.
      exists k, u. split; [done|]. split; [|done].
      change (toStringOutpoint_op (toOutpoint u)) with (toStringOutpoint u) in Hs.
      rewrite (Hkeyed _ _ Hku) in Hs. rewrite <- Hsk; [done|].
      apply elem_of_dom. by exists u.
    + intros (k & u & Hku & Hnf & ->). apply elem_of_delete_spent.
      exists (toOutpoint u). split; [|split; [|done]].
      * apply elem_of_currentOutpoints. by exists k, u.
      * change (toStringOutpoint_op (toOutpoint u)) with (toStringOutpoint u).
        rewrite (Hkeyed _ _ Hku). rewrite Hsk; [done|].
        apply elem_of_dom. by exists u.
  - intros k. rewrite Hdd, (currentOutpoints_keys S k Hkeyed). split.
    + intros [Hs Hk]. split; [done|]. by rewrite <- Hsk.
    + intros [Hk Hnf]. split; [|done]. by rewrite Hsk.
Qed.

(** C3, as amended.  In a cycle that runs to its end, over a tracked set
    filed by
    outpoint string: for every entry of the tracked set, [deleteUtxo] is
    dispatched for its outpoint exactly when no fetched output has its
    outpoint string; an entry some fetched output matches stays in the
    tracked set, with its value untouched when the matching outputs come
    blinded from the explorer; and when the tracked set is the single
    output [X] and nothing is fetched, the cycle dispatches
    [deleteUtxo(X.txid, X.vout)] and nothing else. *)
Theorem removal_rule (selectAccount : RootReducerState → Account)
    (state : RootReducerState) (n : Z) (errors : list string)
    (actions : list AnyAction) :
  keyed_by_outpoint (tracked selectAccount state) →
  makeUtxosUpdaterThunk selectAccount state = (Completed n errors, actions) →
  (∀ k u,
     tracked selectAccount state !! k = Some u →
     (deleteUtxo (txid u) (vout u) ∈ actions
      ↔ ¬ ∃ f, f ∈ fetched selectAccount state ∧ toStringOutpoint f = k)
     ∧ ((∃ f, f ∈ fetched selectAccount state ∧ toStringOutpoint f = k) →
        k ∈ dom (apply_diff (tracked selectAccount state) actions)
        ∧ ((∀ f, f ∈ fetched selectAccount state → toStringOutpoint f = k →
                 isBlindedUtxo f = true) →
           apply_diff (tracked selectAccount state) actions !! k = Some u)))
  ∧ (∀ X,
       tracked selectAccount state = {[ toStringOutpoint X := X ]} →
       fetched selectAccount state = [] →
       actions = [deleteUtxo (txid X) (vout X)]).
Proof.
  intros Hkeyed Hthunk.
  destruct (completed_cycle_keys _ _ _ _ _ Hkeyed Hthunk)
    as (t & d & -> & Htd & Hda & Hta & Hd & Hdk).
  set (S := tracked selectAccount state) in *.
  split.
  - intros k u Hku. split; [split|].
    + intros [Hin|Hin]%elem_of_app.
      * apply deleteUtxo_in_deleted_keys in Hin. rewrite Htd in Hin.
        by apply elem_of_nil in Hin.
      * apply Hd in Hin as (k' & u' & Hku' & Hnf & [= Ht Hv]).
        assert (k' = k) as ->; [|done].
        rewrite <- (Hkeyed _ _ Hku), <- (Hkeyed _ _ Hku').
        unfold toStringOutpoint. by rewrite Ht, Hv.
    + intros Hnf. apply elem_of_app. right. apply Hd. by exists k, u.
    + intros Hf.
      assert (Hnd : k ∉ deleted_keys (t ++ d)).
      { rewrite deleted_keys_app, Htd. simpl. rewrite Hdk. tauto. }
      split.
      * rewrite apply_diff_app, dom_apply_deletes, dom_apply_adds by done.
        rewrite deleted_keys_app, Htd in Hnd. simpl in Hnd.
        assert (k ∈ dom S) by (apply elem_of_dom; by exists u).
        set_solver.
      * intros Hblind. rewrite apply_diff_lookup_other; [done| |done].
        rewrite added_keys_app, Hda, app_nil_r, Hta.
        intros (raw' & -> & ([raw key] & -> & Hitem)%list_elem_of_fmap)
                 %list_elem_of_fmap.
        apply list_elem_of_filter in Hitem as [Hy Hitem]. simpl in *.
        unfold yields_unblinded in Hy. simpl in Hy.
        rewrite bool_decide_eq_true_2 in Hy by (by exists u). simpl in Hy.
        rewrite Hblind in Hy; [done| |done].
        unfold fetched. apply list_elem_of_fmap. by exists (raw, key).
  - intros X HS Hf. unfold fetched in Hf. apply fmap_nil_inv in Hf.
    apply makeUtxosUpdaterThunk_completed in Hthunk
      as (t' & sk & Hloop & Hact).
    rewrite Hf in Hloop. simpl in Hloop. injection Hloop as <- <-.
    rewrite Hact. fold S. rewrite HS. simpl.
    unfold currentOutpoints_of. rewrite map_to_list_singleton. simpl.
    reflexivity.
Qed.

(** C1, as amended.  In a cycle that runs to its end, over a tracked set
    filed by outpoint string, the outpoint strings of the tracked set after
    the dispatched adds and deletes are those of the previous set that were
    fetched again, together with those of the fetched outputs the generator
    yields unblinded.  An output that was not tracked, and that stays
    blinded after the attempt to unblind it, is not added. *)
Theorem reconciled_key_set (selectAccount : RootReducerState → Account)
    (state : RootReducerState) (n : Z) (errors : list string)
    (actions : list AnyAction) :
  keyed_by_outpoint (tracked selectAccount state) →
  makeUtxosUpdaterThunk selectAccount state = (Completed n errors, actions) →
  dom (apply_diff (tracked selectAccount state) actions)
    = (dom (tracked selectAccount state)
         ∩ list_to_set (toStringOutpoint <$> fetched selectAccount state))
      ∪ list_to_set
          (toStringOutpoint
             <$> (unblinded_items (tracked selectAccount state)
                    (scanned selectAccount state)).*1)
  ∧ (∀ k,
       k ∉ dom (tracked selectAccount state) →
       (∀ raw key, (raw, key) ∈ scanned selectAccount state →
                   toStringOutpoint raw = k →
                   isBlindedUtxo (tryToUnblindUtxo raw key) = true) →
       k ∉ dom (apply_diff (tracked selectAccount state) actions)).
Proof.
  intros Hkeyed Hthunk.
  destruct (completed_cycle_keys _ _ _ _ _ Hkeyed Hthunk)
    as (t & d & -> & Htd & Hda & Hta & _ & Hdk).
  set (S := tracked selectAccount state) in *.
  assert (Hsub : ∀ k,
            k ∈ toStringOutpoint
                  <$> (unblinded_items S (scanned selectAccount state)).*1 →
            ∃ raw key, (raw, key) ∈ scanned selectAccount state
                       ∧ toStringOutpoint raw = k
                       ∧ yields_unblinded S (raw, key) = true).
  { intros k (raw' & -> & ([raw key] & -> & Hitem)%list_elem_of_fmap)
              %list_elem_of_fmap.
    apply list_elem_of_filter in Hitem as [Hy Hitem]. by exists raw, key. }
  assert (Hdom : dom (apply_diff S (t ++ d))
                 = (dom S ∪ list_to_set (added_keys t))
                     ∖ list_to_set (deleted_keys d)).
  { by rewrite apply_diff_app, dom_apply_deletes, dom_apply_adds. }
  rewrite Hdom, Hta. split.
  - apply set_eq. intros k.
    rewrite elem_of_difference, !elem_of_union, elem_of_intersection,
      !elem_of_list_to_set, Hdk.
    split.
    + intros [[Hk|Hk] Hnd]; [|by right].
      left. split; [done|].
      destruct (decide (k ∈ toStringOutpoint <$> fetched selectAccount state))
        as [|Hnf]; [done|].
      exfalso. apply Hnd. split; [done|].
      intros (f & Hf & <-). apply Hnf. by apply list_elem_of_fmap_2.
    + intros [[Hk (f & -> & Hf)%list_elem_of_fmap]|Hk].
      * split; [by left|]. intros [_ Hnf]. apply Hnf. by exists f.
      * split; [by right|]. intros [Hd Hnf]. apply Hnf.
        destruct (Hsub k Hk) as (raw & key & Hitem & <- & _).
        exists raw. split; [|done]. unfold fetched.
        apply list_elem_of_fmap. by exists (raw, key).
  - intros k Hk Hblind.
    rewrite elem_of_difference, elem_of_union, !elem_of_list_to_set.
    intros [[?|Hadd] _]; [done|].
    destruct (Hsub k Hadd) as (raw & key & Hitem & Hkey & Hy).
    unfold yields_unblinded in Hy. simpl in Hy.
    rewrite bool_decide_eq_false_2 in Hy.
    + simpl in Hy. by rewrite (Hblind raw key Hitem Hkey) in Hy.
    + rewrite Hkey. intros Hsome. apply Hk. by apply elem_of_dom.
Qed.

End Reconciler.

(** *** Examples *)

(** Scenario A: nothing tracked, one output fetched and unblinded. *)
Example scenario_A :
  @Backend.makeUtxosUpdaterThunk (Fixtures.B.env_with true)
    Fixtures.B.select_main (Fixtures.B.state_with "http://explorer" ∅)
  = (Backend.Completed 1 [],
     [Backend.addAsset Fixtures.lbtc
        {| Backend.name := "Liquid Bitcoin"; Backend.ticker := "5AC9";
           Backend.precision := 8 |};
      Backend.addUtxo "mainAccount"
        {| txid := Fixtures.txid_a; vout := 0; asset := Some Fixtures.lbtc;
           value := Some 1000; prevout := Some "0014" |}]).
Proof. vm_compute. reflexivity. Qed.

(** Scenario B: one output tracked, nothing fetched. *)
Example scenario_B :
  @Backend.makeUtxosUpdaterThunk (Fixtures.B.env_with true)
    Fixtures.B.select_main
    (Fixtures.B.state_with "http://empty" Fixtures.B.tracked_b1)
  = (Backend.Completed 0 [], [Backend.deleteUtxo Fixtures.txid_b 1]).
Proof. vm_compute. reflexivity. Qed.

(** A tracked output the explorer returns again is skipped: it comes back
    blinded, nothing is dispatched for it. *)
Example scenario_skip :
  @Backend.makeUtxosUpdaterThunk (Fixtures.B.env_with true)
    Fixtures.B.select_main
    (Fixtures.B.state_with "http://explorer"
       {[ toStringOutpoint (Fixtures.coin_a0 1000) := Fixtures.coin_a0 1000 ]})
  = (Backend.Completed 1 [], []).
Proof. vm_compute. reflexivity. Qed.

Lemma keyed_by_outpoint_tracked_b1 :
  Backend.keyed_by_outpoint Fixtures.B.tracked_b1.
Proof.
  intros k u Hku. unfold Fixtures.B.tracked_b1 in Hku.
  by apply lookup_singleton_Some in Hku as [<- <-].
Qed.

Lemma removal_rule_witness :
  [Backend.deleteUtxo Fixtures.txid_b 1]
    = [Backend.deleteUtxo (txid (Fixtures.coin_b1 500))
                          (vout (Fixtures.coin_b1 500))].
Proof.
  refine (proj2 (@removal_rule (Fixtures.B.env_with true)
            Fixtures.B.select_main
            (Fixtures.B.state_with "http://empty" Fixtures.B.tracked_b1)
            0 [] [Backend.deleteUtxo Fixtures.txid_b 1] _ _)
            (Fixtures.coin_b1 500) _ _).
  - exact keyed_by_outpoint_tracked_b1.
  - vm_compute. reflexivity.
  - reflexivity.
  - vm_compute. reflexivity.
Defined.

(** C3 as stated fails, in two ways.  A cycle that ends in its [catch]
    clause never reaches the delete loop: [b1] is tracked, the explorer
    returns only [a0], and [utxoWithPrevout] rejects on [a0], so no
    [deleteUtxo] is dispatched for [b1] although no fetched output has its
    outpoint.  And a tracked output that the explorer returns with explicit
    asset and value is dispatched again with [addUtxo], which replaces the
    entry: it is kept, not kept as it was. *)
Lemma aborted_cycle_does_not_delete :
  ¬ (∀ `{Backend.Env} (selectAccount : Backend.RootReducerState → Backend.Account)
       (state : Backend.RootReducerState) (k : string) (u : UtxoInterface),
       Backend.keyed_by_outpoint (Backend.tracked selectAccount state) →
       Backend.tracked selectAccount state !! k = Some u →
       (Backend.deleteUtxo (txid u) (vout u)
          ∈ (Backend.makeUtxosUpdaterThunk selectAccount state).2
        ↔ ¬ ∃ f, f ∈ Backend.fetched selectAccount state
                 ∧ toStringOutpoint f = k))
  ∧ ¬ (∀ `{Backend.Env}
         (selectAccount : Backend.RootReducerState → Backend.Account)
         (state : Backend.RootReducerState) (n : Z) (errors : list string)
         (actions : list Backend.AnyAction) (k : string) (u : UtxoInterface),
         Backend.keyed_by_outpoint (Backend.tracked selectAccount state) →
         Backend.makeUtxosUpdaterThunk selectAccount state
           = (Backend.Completed n errors, actions) →
         Backend.tracked selectAccount state !! k = Some u →
         (∃ f, f ∈ Backend.fetched selectAccount state
               ∧ toStringOutpoint f = k) →
         Backend.apply_diff (Backend.tracked selectAccount state) actions !! k
           = Some u).
Proof.
  split.
  - intros Hclaim.
    destruct (Hclaim Fixtures.B.env_prevout_fails Fixtures.B.select_main
                (Fixtures.B.state_with "http://explorer" Fixtures.B.tracked_b1)
                (toStringOutpoint (Fixtures.coin_b1 500)) (Fixtures.coin_b1 500))
      as [_ Hdel].
    + exact keyed_by_outpoint_tracked_b1.
    + apply lookup_singleton_eq.
    + assert (Hin : Backend.deleteUtxo Fixtures.txid_b 1
                      ∈ ([] : list Backend.AnyAction)).
      { apply Hdel. intros (f & Hf & Hk). vm_compute in Hf.
        apply list_elem_of_singleton in Hf as ->. vm_compute in Hk.
        discriminate Hk. }
      by apply elem_of_nil in Hin.
  - intros Hclaim.
    pose proof (Hclaim Fixtures.B.env_explicit Fixtures.B.select_main
                  (Fixtures.B.state_with "http://explorer" Fixtures.B.tracked_a0)
                  1 [] [Backend.addUtxo "mainAccount" (Fixtures.coin_a0 1000)]
                  (toStringOutpoint (Fixtures.coin_a0 5)) (Fixtures.coin_a0 5))
      as Hkept.
    assert (Hsame : Some (Fixtures.coin_a0 1000) = Some (Fixtures.coin_a0 5)).
    { rewrite <- Hkept.
      - vm_compute. reflexivity.
      - intros k u Hku.
        change (Fixtures.B.tracked_a0 !! k = Some u) in Hku.
        unfold Fixtures.B.tracked_a0 in Hku.
        by apply lookup_singleton_Some in Hku as [<- <-].
      - vm_compute. reflexivity.
      - apply lookup_singleton_eq.
      - exists (Fixtures.coin_a0 1000). split; [|reflexivity].
        vm_compute. left. }
    discriminate Hsame.
Qed.

Lemma reconciled_key_set_witness :
  dom (Backend.apply_diff ∅
         [Backend.addAsset Fixtures.lbtc
            {| Backend.name := "Liquid Bitcoin"; Backend.ticker := "5AC9";
               Backend.precision := 8 |};
          Backend.addUtxo "mainAccount"
            {| txid := Fixtures.txid_a; vout := 0; asset := Some Fixtures.lbtc;
               value := Some 1000; prevout := Some "0014" |}])
  = (dom (∅ : gmap string UtxoInterface)
       ∩ list_to_set
           (toStringOutpoint
              <$> @Backend.fetched (Fixtures.B.env_with true)
                    Fixtures.B.select_main
                    (Fixtures.B.state_with "http://explorer" ∅)))
    ∪ list_to_set
        (toStringOutpoint
           <$> (@Backend.unblinded_items (Fixtures.B.env_with true) ∅
                  (@Backend.scanned (Fixtures.B.env_with true)
                     Fixtures.B.select_main
                     (Fixtures.B.state_with "http://explorer" ∅))).*1).
Proof.
  refine (proj1 (@reconciled_key_set (Fixtures.B.env_with true)
            Fixtures.B.select_main
            (Fixtures.B.state_with "http://explorer" ∅) 1 [] _ _ _)).
  - intros k u Hku. vm_compute in Hku. discriminate.
  - vm_compute. reflexivity.
Defined.

(** C1 as stated fails: nothing is tracked, the explorer returns one output
    of the wallet, and unblinding it fails.  The cycle ends without a single
    dispatch, so the tracked set stays empty while the fetch result has one
    outpoint. *)
Lemma blinded_output_is_not_added :
  @Backend.fetched (Fixtures.B.env_with false) Fixtures.B.select_main
    (Fixtures.B.state_with "http://explorer" ∅) = [Fixtures.blinded_a0]
  ∧ @Backend.makeUtxosUpdaterThunk (Fixtures.B.env_with false)
      Fixtures.B.select_main (Fixtures.B.state_with "http://explorer" ∅)
    = (Backend.Completed 1 [], [])
  ∧ dom (Backend.apply_diff
           (Backend.tracked Fixtures.B.select_main
              (Fixtures.B.state_with "http://explorer" ∅))
           (@Backend.makeUtxosUpdaterThunk (Fixtures.B.env_with false)
              Fixtures.B.select_main
              (Fixtures.B.state_with "http://explorer" ∅)).2)
    ≠ list_to_set
        (toStringOutpoint
           <$> @Backend.fetched (Fixtures.B.env_with false)
                 Fixtures.B.select_main
                 (Fixtures.B.state_with "http://explorer" ∅)).
Proof.
  assert (Hf : @Backend.fetched (Fixtures.B.env_with false)
                 Fixtures.B.select_main
                 (Fixtures.B.state_with "http://explorer" ∅)
               = [Fixtures.blinded_a0]) by (vm_compute; reflexivity).
  assert (Ht : @Backend.makeUtxosUpdaterThunk (Fixtures.B.env_with false)
                 Fixtures.B.select_main
                 (Fixtures.B.state_with "http://explorer" ∅)
               = (Backend.Completed 1 [], [])) by (vm_compute; reflexivity).
  split; [done|]. split; [done|].
  rewrite Ht, Hf. simpl. unfold Backend.tracked. simpl.
  rewrite dom_empty_L. intros Heq.
  assert (Hin : toStringOutpoint Fixtures.blinded_a0
                  ∈ (∅ : gset string)); [|set_solver].
  rewrite Heq. set_solver.
Qed.

(* ===================================================================== *)
(** * Part III: further properties of the embedded code                    *)
(* ===================================================================== *)

(** ** Outpoint strings and hexadecimal text *)

Lemma no_colon_string_of_uint (d : Decimal.uint) :
  Hex.no_colon (NilEmpty.string_of_uint d) = true.
Proof. induction d; simpl; done. Qed.

Lemma no_colon_number_toString (n : Z) :
  Hex.no_colon (JS.number_toString n) = true.
Proof.
  unfold JS.number_toString. destruct (Z.to_int n); simpl;
    apply no_colon_string_of_uint.
Qed.

Lemma no_colon_app_colon (t d : string) :
  Hex.no_colon (t +:+ ":" +:+ d) = false.
Proof. induction t as [|c t IH]; simpl; [done|]. rewrite IH. apply andb_false_r. Qed.

(** A text splits in one way only at its last colon. *)
Lemma app_colon_inj (t1 t2 d1 d2 : string) :
  Hex.no_colon d1 = true → Hex.no_colon d2 = true →
  t1 +:+ ":" +:+ d1 = t2 +:+ ":" +:+ d2 → t1 = t2 ∧ d1 = d2.
Proof.
  intros H1 H2. revert t2.
  induction t1 as [|c t1 IH]; intros [|c' t2] Heq; cbn in Heq.
  - by injection Heq.
  - injection Heq as _ Heq. change (d1 = t2 +:+ ":" +:+ d2) in Heq.
    rewrite Heq, no_colon_app_colon in H1. done.
  - injection Heq as _ Heq. change (t1 +:+ ":" +:+ d1 = d2) in Heq.
    rewrite <- Heq, no_colon_app_colon in H2. done.
  - injection Heq as <- Heq. by destruct (IH _ Heq) as [-> ->].
Qed.

(** X1.  [toStringOutpoint] is injective on all outpoints, whatever the txid
    text and the sign of the index: the index is written without a colon, so
    the key splits back into txid and index at its last colon. *)
Theorem toStringOutpoint_injective (a b : Outpoint) :
  toStringOutpoint_op a = toStringOutpoint_op b → a = b.
Proof.
  unfold toStringOutpoint_op, toStringOutpoint_of. intros Heq.
  apply app_colon_inj in Heq as [Ht Hv%number_toString_inj];
    try apply no_colon_number_toString.
  destruct a, b; simpl in *; congruence.
Qed.

Lemma toString_hex_cons (b : Byte.byte) (buf : list Byte.byte) :
  Utils.toString_hex (b :: buf)
    = Utils.byte_toString_hex b +:+ Utils.toString_hex buf.
Proof. reflexivity. Qed.

Lemma toString_hex_length (buf : list Byte.byte) :
  String.length (Utils.toString_hex buf) = (2 * length buf)%nat.
Proof.
  induction buf as [|b buf IH]; [done|].
  rewrite toString_hex_cons, string_app_length, IH. simpl. lia.
Qed.

Lemma all_hex_byte (b : Byte.byte) (s : string) :
  all_hex (Utils.byte_toString_hex b +:+ s) = all_hex s.
Proof. destruct b; reflexivity. Qed.

Lemma all_hex_toString_hex (buf : list Byte.byte) :
  all_hex (Utils.toString_hex buf) = true.
Proof.
  induction buf as [|b buf IH]; [done|]. by rewrite toString_hex_cons, all_hex_byte.
Qed.

(** X2.  The txid computed from the hash of an input, a 32-byte buffer, is a
    txid of the data model: 64 hexadecimal characters. *)
Theorem txid_of_hash_is_txid (hash : list Byte.byte) :
  length hash = 32%nat → is_txid (Utils.txid_of_hash hash) = true.
Proof.
  intros Hlen. unfold is_txid, Utils.txid_of_hash.
  rewrite toString_hex_length, length_rev, Hlen, all_hex_toString_hex. done.
Qed.

Lemma Buffer_from_hex_byte (b : Byte.byte) (s : string) :
  Hex.Buffer_from_hex (Utils.byte_toString_hex b +:+ s)
    = b :: Hex.Buffer_from_hex s.
Proof. destruct b; reflexivity. Qed.

(** X3.  Hexadecimal text round trip: decoding what [toString('hex')] wrote
    gives the buffer back; so the txid of an input determines its hash. *)
Theorem Buffer_from_hex_toString_hex (buf : list Byte.byte) :
  Hex.Buffer_from_hex (Utils.toString_hex buf) = buf
  ∧ rev (Hex.Buffer_from_hex (Utils.txid_of_hash buf)) = buf.
Proof.
  assert (Hrt : ∀ l, Hex.Buffer_from_hex (Utils.toString_hex l) = l).
  { induction l as [|b l IH]; [done|].
    by rewrite toString_hex_cons, Buffer_from_hex_byte, IH. }
  split; [apply Hrt|]. unfold Utils.txid_of_hash. by rewrite Hrt, rev_involutive.
Qed.

Lemma txid_of_hash_is_txid_witness :
  is_txid (Utils.txid_of_hash (replicate 32 Byte.xaa)) = true.
Proof. apply txid_of_hash_is_txid. reflexivity. Defined.

(** ** [getUtxosFromTx], further *)

Section UtxosFromTxMore.
Import Utils.
Context `{Ldk}.

Lemma select_input_length (coins : list UtxoInterface) (_in : TxInput) :
  length (select_input coins _in)
    = if existsb (is_coin (txid_of_hash (in_hash _in)) (in_index _in)) coins
      then 1%nat else 0%nat.
Proof.
  unfold select_input.
  destruct (List.find _ coins) as [c|] eqn:Hf.
  - apply find_some in Hf as [Hin Hc].
    assert (existsb (is_coin (txid_of_hash (in_hash _in)) (in_index _in)) coins
            = true) as ->; [|done].
    apply existsb_exists. by exists c.
  - destruct (existsb _ coins) eqn:He; [|done].
    apply existsb_exists in He as (c & Hin & Hc).
    by rewrite (find_none _ _ Hf c Hin) in Hc.
Qed.

(** X4.  The selected utxos are as many as the inputs that spend a known
    coin: each input selects one coin at most, an input listed twice selects
    its coin twice, and with no known coin nothing is selected. *)
Theorem selected_utxos_count (accounts : list Account)
    (coins : list UtxoInterface) (network signedTxHex : string)
    (tx : Transaction) (r : UtxosFromTx) :
  Transaction_fromHex signedTxHex = Ok tx →
  getUtxosFromTx accounts coins network signedTxHex = Ok r →
  length (selectedUtxos r)
    = length (filter
                (λ _in, existsb (is_coin (txid_of_hash (in_hash _in))
                                         (in_index _in)) coins = true)
                (ins tx))
  ∧ (length (selectedUtxos r) ≤ length (ins tx))%nat.
Proof.
  intros Htx Hr. rewrite (getUtxosFromTx_selected _ _ _ _ _ _ Htx Hr).
  assert (Hlen : ∀ l,
            length (concat (map (select_input coins) l))
            = length (filter
                        (λ _in, existsb (is_coin (txid_of_hash (in_hash _in))
                                                 (in_index _in)) coins = true) l)).
  { induction l as [|i l IH]; [done|]. simpl.
    rewrite length_app, IH, select_input_length, filter_cons.
    destruct (existsb _ coins); by case_decide. }
  rewrite Hlen. split; [done|]. apply length_filter.
Qed.

Lemma match_address_sound (a : string) (allAddresses : list AddressInterface)
    (addr : AddressInterface) :
  match_address a allAddresses = Ok (Some addr) →
  addr ∈ allAddresses
  ∧ (a = confidentialAddress addr
     ∨ address_fromConfidential (confidentialAddress addr) = Ok a).
Proof.
  induction allAddresses as [|x l IH]; simpl; [done|].
  destruct (address_fromConfidential (confidentialAddress x)) as [unconf|e] eqn:Hc;
    [|done].
  destruct (String.eqb_spec a unconf) as [->|_]; simpl.
  { intros [= <-]. split; [by left|]. by right. }
  destruct (String.eqb_spec a (confidentialAddress x)) as [->|_]; simpl.
  { intros [= <-]. split; [by left|]. by left. }
  intros [Hin Hm]%IH. split; [by right|done].
Qed.

(** The vouts pushed from position [off] on are increasing and at least
    [off]. *)
Lemma changeUtxos_sorted_from (txid network : string)
    (allAddresses : list AddressInterface) (outs : list TxOutput) (off : nat) :
  StronglySorted Z.lt
    (u_vout <$> concat (imap (λ i, change_of_output txid network allAddresses
                                      (off + i)) outs))
  ∧ Forall (λ v, Z.of_nat off ≤ v)
      (u_vout <$> concat (imap (λ i, change_of_output txid network allAddresses
                                        (off + i)) outs)).
Proof.
  revert off. induction outs as [|out outs IH]; intros off; simpl.
  { split; constructor. }
  destruct (IH (S off)) as [Hs Hf].
  assert (Heq : imap ((λ i, change_of_output txid network allAddresses (off + i))
                        ∘ S) outs
                = imap (λ i, change_of_output txid network allAddresses
                               (S off + i)) outs).
  { apply imap_ext. intros i x _. simpl. f_equal. lia. }
  rewrite Heq. rewrite Nat.add_0_r. unfold change_of_output at 1 3.
  destruct (detect_change network allAddresses out) as [[addr|]|e]; simpl.
  - split.
    + constructor; [done|]. eapply Forall_impl; [exact Hf|]. simpl. lia.
    + constructor; [lia|]. eapply Forall_impl; [exact Hf|]. simpl. lia.
  - split; [done|]. eapply Forall_impl; [exact Hf|]. simpl. lia.
  - split; [done|]. eapply Forall_impl; [exact Hf|]. simpl. lia.
Qed.

(** X5.  Every change utxo returned carries the id of the parsed
    transaction and the index of one of its outputs, an output whose address
    is a wallet address in its confidential or unconfidential form, together
    with the blinding key of that address; the indexes are strictly
    increasing, so an output is reported once at most. *)
Theorem change_utxos_well_formed (accounts : list Account)
    (coins : list UtxoInterface) (network signedTxHex : string)
    (tx : Transaction) (allAddresses : list AddressInterface) (r : UtxosFromTx) :
  Transaction_fromHex signedTxHex = Ok tx →
  all_addresses accounts network = Ok allAddresses →
  getUtxosFromTx accounts coins network signedTxHex = Ok r →
  (∀ u, u ∈ changeUtxos r →
        u_txid u = tx_getId tx
        ∧ ∃ vout out addr a,
            u_vout u = Z.of_nat vout ∧ outs tx !! vout = Some out
            ∧ address_fromOutputScript (out_script out) network = Ok a
            ∧ addr ∈ allAddresses
            ∧ (a = confidentialAddress addr
               ∨ address_fromConfidential (confidentialAddress addr) = Ok a)
            ∧ blindPrivKey u = blindingPrivateKey addr)
  ∧ StronglySorted Z.lt (u_vout <$> changeUtxos r).
Proof.
  intros Htx Ha Hr.
  rewrite (getUtxosFromTx_ok _ coins _ _ _ _ Htx Ha) in Hr. injection Hr as <-.
  simpl. split.
  - intros u (vout & out & addr & Hl & Hd & ->)%elem_of_changeUtxos.
    split; [done|]. unfold detect_change in Hd.
    destruct (address_fromOutputScript (out_script out) network) as [a|e] eqn:Hs;
      [|done].
    simpl in Hd. apply match_address_sound in Hd as [Hin Hm].
    by exists vout, out, addr, a.
  - apply (changeUtxos_sorted_from (tx_getId tx) network allAddresses (outs tx) 0).
Qed.

Lemma all_addresses_ok (accounts : list Account) (network : string) :
  (∃ l, all_addresses accounts network = Ok l)
  ↔ ∀ account, account ∈ accounts →
               ∃ l, getWatchIdentity_getAddresses account network = Ok l.
Proof.
  induction accounts as [|x accounts IH]; simpl.
  - split; [by intros _ ? ?%elem_of_nil | by exists []].
  - destruct (getWatchIdentity_getAddresses x network) as [addrs|e] eqn:Hx; simpl.
    + destruct (all_addresses accounts network) as [more|e]; simpl.
      * split; [|by eexists]. intros _ account [->|Hin]%elem_of_cons; [by eexists|].
        by apply IH; [eexists|].
      * split; [by intros [? ?]|]. intros Hall.
        destruct (proj2 IH) as [? ?]; [|done].
        intros account Hin. apply Hall. by right.
    + split; [by intros [? ?]|]. intros Hall.
      destruct (Hall x) as [? ?]; [by left|congruence].
Qed.

(** X6.  [getUtxosFromTx] resolves exactly when the transaction parses and
    every account lists its addresses: these two failures, unlike those on
    single outputs, reach the caller. *)
Theorem getUtxosFromTx_resolves_iff (accounts : list Account)
    (coins : list UtxoInterface) (network signedTxHex : string) :
  (∃ r, getUtxosFromTx accounts coins network signedTxHex = Ok r)
  ↔ (∃ tx, Transaction_fromHex signedTxHex = Ok tx)
    ∧ ∀ account, account ∈ accounts →
                 ∃ l, getWatchIdentity_getAddresses account network = Ok l.
Proof.
  rewrite <- all_addresses_ok. unfold getUtxosFromTx.
  destruct (Transaction_fromHex signedTxHex) as [tx|e]; simpl.
  - destruct (all_addresses accounts network) as [l|e]; simpl.
    + split; [|by eexists]. intros _. split; by eexists.
    + split; [by intros [? ?]|]. by intros [_ [? ?]].
  - split; [by intros [? ?]|]. by intros [[? ?] _].
Qed.

(** X7.  The tie-break between wallet addresses is their order.  After
    addresses that convert and do not match, the first address that matches
    the output gives its blinding key, whatever follows; but an address that
    fails to convert ends the search, and the output is reported for no
    address, even if a later one matches. *)
Theorem first_address_wins (txid network : string)
    (before after : list AddressInterface) (addr : AddressInterface)
    (vout : nat) (out : TxOutput) (a : string) :
  address_fromOutputScript (out_script out) network = Ok a →
  (∀ x, x ∈ before →
        a ≠ confidentialAddress x
        ∧ ∃ unconf, address_fromConfidential (confidentialAddress x) = Ok unconf
                    ∧ a ≠ unconf) →
  (∀ unconf,
     address_fromConfidential (confidentialAddress addr) = Ok unconf →
     a = unconf ∨ a = confidentialAddress addr →
     change_of_output txid network (before ++ addr :: after) vout out
       = [{| u_txid := txid; u_vout := Z.of_nat vout;
             blindPrivKey := blindingPrivateKey addr |}])
  ∧ (∀ e,
       address_fromConfidential (confidentialAddress addr) = Throw e →
       change_of_output txid network (before ++ addr :: after) vout out = []).
Proof.
  intros Hs Hbefore.
  assert (Hm : match_address a (before ++ addr :: after)
               = match_address a (addr :: after)).
  { induction before as [|x l IH]; [done|]. simpl.
    destruct (Hbefore x) as (Hc & unconf & -> & Hu); [by left|].
    destruct (String.eqb_spec a unconf); [done|].
    destruct (String.eqb_spec a (confidentialAddress x)); [done|]. simpl.
    apply IH. intros y Hy. apply Hbefore. by right. }
  unfold change_of_output, detect_change. rewrite Hs. simpl. rewrite Hm. simpl.
  split.
  - intros unconf -> Hmatch.
    destruct (String.eqb_spec a unconf); [done|].
    destruct (String.eqb_spec a (confidentialAddress addr)); [done|]. tauto.
  - by intros e ->.
Qed.

End UtxosFromTxMore.

(** ** [makeUnconfirmedUtxos] and [getUtxosFromChangeAddresses] *)

Section UnconfirmedProps.
Import Utils Unconfirmed.
Context `{Ldk} `{Ldk2}.

Lemma unblind_each_Forall2 (tx : Transaction) (cs : list UnconfirmedOutput)
    (l : list UtxoInterface) :
  unblind_each tx cs = Ok l ↔
    Forall2 (λ c u, unblindOutput (u_txid c) (u_vout c) (outs_at tx (u_vout c))
                      (blindPrivKey c) = Ok u) cs l.
Proof.
  revert l. induction cs as [|c cs IH]; intros l; simpl.
  - split; [by intros [= <-]; constructor | by intros ->%Forall2_nil_inv_l].
  - destruct (unblindOutput _ _ _ _) as [u|e] eqn:Hu; simpl.
    + destruct (unblind_each tx cs) as [more|e] eqn:Hm; simpl.
      * split.
        -- intros [= <-]. constructor; [done|]. by apply IH.
        -- intros (u' & l' & Hu' & Hl' & ->)%Forall2_cons_inv_l.
           apply IH in Hl'. unfold mret, Try_ret. congruence.
      * split; [done|].
        intros (u' & l' & Hu' & Hl' & ->)%Forall2_cons_inv_l.
        by apply IH in Hl'.
    + split; [done|].
      intros (u' & l' & Hu' & Hl' & ->)%Forall2_cons_inv_l. congruence.
Qed.

(** X8.  [makeUnconfirmedUtxos] is all or nothing: on a transaction that
    parses it resolves exactly when every candidate unblinds, and then with
    one utxo per candidate, in the order of the candidates, each unblinded
    from the output of the transaction at the candidate's index (undefined
    when the index is out of range). *)
Theorem makeUnconfirmedUtxos_all_or_nothing (txHex : string) (tx : Transaction)
    (changeUtxos : list UnconfirmedOutput) (l : list UtxoInterface) :
  Transaction_fromHex txHex = Ok tx →
  makeUnconfirmedUtxos txHex changeUtxos = Ok l ↔
    Forall2 (λ c u, unblindOutput (u_txid c) (u_vout c) (outs_at tx (u_vout c))
                      (blindPrivKey c) = Ok u) changeUtxos l.
Proof.
  intros Htx. unfold makeUnconfirmedUtxos. rewrite Htx. simpl.
  apply unblind_each_Forall2.
Qed.

(** X9.  The change utxos that [getUtxosFromTx] reports for a transaction are
    candidates [makeUnconfirmedUtxos] can work on: each comes with the id of
    that transaction and an index at which the transaction has an output, so
    no undefined prevout is handed to the unblinder. *)
Theorem change_utxos_have_prevouts (accounts : list Account)
    (coins : list UtxoInterface) (network signedTxHex : string)
    (tx : Transaction) (r : UtxosFromTx) (l : list UtxoInterface) :
  Transaction_fromHex signedTxHex = Ok tx →
  getUtxosFromTx accounts coins network signedTxHex = Ok r →
  makeUnconfirmedUtxos signedTxHex (Utils.changeUtxos r) = Ok l ↔
    Forall2 (λ c u, ∃ out, outs_at tx (u_vout c) = Some out
                           ∧ unblindOutput (tx_getId tx) (u_vout c) (Some out)
                               (blindPrivKey c) = Ok u)
            (Utils.changeUtxos r) l.
Proof.
  intros Htx Hr.
  unfold makeUnconfirmedUtxos. rewrite Htx. simpl. rewrite unblind_each_Forall2.
  assert (Hwf : ∀ c, c ∈ Utils.changeUtxos r →
                  u_txid c = tx_getId tx ∧ is_Some (outs_at tx (u_vout c))).
  { destruct (all_addresses accounts network) as [allAddresses|e] eqn:Ha.
    - rewrite (getUtxosFromTx_ok _ coins _ _ _ _ Htx Ha) in Hr.
      injection Hr as <-. simpl.
      intros c (vout & out & addr & Hl & _ & ->)%elem_of_changeUtxos.
      split; [done|]. unfold outs_at. simpl.
      destruct (Z.ltb_spec (Z.of_nat vout) 0); [lia|].
      rewrite Nat2Z.id. by eexists.
    - unfold getUtxosFromTx in Hr. rewrite Htx in Hr. simpl in Hr.
      by rewrite Ha in Hr. }
  revert l. induction (Utils.changeUtxos r) as [|c cs IH]; intros l.
  - split; intros ->%Forall2_nil_inv_l; constructor.
  - destruct (Hwf c) as [Hid [out Hout]]; [by left|].
    split; intros (u & l' & Hu & Hl' & ->)%Forall2_cons_inv_l;
      (constructor; [|apply IH; [intros ? ?; apply Hwf; by right | done]]).
    + exists out. split; [done|]. by rewrite <- Hid, <- Hout.
    + destruct Hu as (out' & Hout' & Hu). by rewrite Hid, Hout'.
Qed.

Lemma findIndex_script_Some (script : list Byte.byte) (outs : list TxOutput)
    (i : nat) :
  findIndex_script script outs = Some i ↔
    (∃ o, outs !! i = Some o
          ∧ Buffer_toString (out_script o) = Buffer_toString script)
    ∧ ∀ j o, (j < i)%nat → outs !! j = Some o →
             Buffer_toString (out_script o) ≠ Buffer_toString script.
Proof.
  revert i. induction outs as [|o outs IH]; intros i; simpl.
  - split; [done|]. by intros [(? & ? & _) _].
  - destruct (String.eqb_spec (Buffer_toString (out_script o))
                (Buffer_toString script)) as [Heq|Hne].
    + split.
      * intros [= <-]. split; [by exists o|]. intros j ? ?. lia.
      * intros [_ Hfirst]. destruct i as [|i]; [done|].
        destruct (Hfirst 0%nat o); [lia|done|done].
    + destruct i as [|i].
      * split.
        -- by destruct (findIndex_script script outs).
        -- by intros [(o' & [= <-] & Ho') _].
      * split.
        -- destruct (findIndex_script script outs) as [k|] eqn:Hk; [|done].
           intros [= ->]. destruct (proj1 (IH i) eq_refl) as [Hfound Hfirst].
           split; [done|]. intros [|j] o' Hj Ho'.
           ++ by injection Ho' as <-.
           ++ apply (Hfirst j); [lia|done].
        -- intros [Hfound Hfirst].
           assert (findIndex_script script outs = Some i) as ->; [|done].
           apply IH. split; [done|]. intros j o' Hj Ho'.
           apply (Hfirst (S j)); [lia|done].
Qed.

(** What one change address pushes: one entry at most. *)
Lemma change_of_address_length (identity : IdentityInterface) (network : string)
    (tx : Transaction) (addr : string) (pushed : list UnconfirmedOutput) :
  change_of_address identity network tx addr = Ok pushed →
  (length pushed ≤ 1)%nat.
Proof.
  unfold change_of_address. intros Hp.
  destruct (address_toOutputScript addr network) as [script|e]; [|done].
  simpl in Hp. unfold mret, Try_ret in Hp.
  destruct (findIndex_script script (outs tx)) as [vout|];
    [|injection Hp as <-; simpl; lia].
  destruct (outs tx !! vout) as [o|]; [|injection Hp as <-; simpl; lia].
  destruct (getBlindingPrivateKey identity (toString_hex (out_script o)));
    [|done].
  simpl in Hp. injection Hp as <-. simpl. lia.
Qed.

(** X10.  [getUtxosFromChangeAddresses] returns nothing when there is no
    list of addresses or no identity, and it does so without parsing the
    transaction: also for a text that does not parse.  Past that guard a
    text that does not parse makes the call throw.  Otherwise every entry it
    resolves with carries the id of the parsed transaction and the index of
    the first output whose script reads, as text, like the script of one of
    the change addresses, with the blinding key the first identity gives for
    that output's script in hexadecimal; there is one entry at most per
    change address. *)
Theorem change_addresses_entries (network txHex : string) :
  (∀ identities,
     getUtxosFromChangeAddresses None identities network txHex = Ok [])
  ∧ (∀ changeAddresses,
       getUtxosFromChangeAddresses (Some changeAddresses) [] network txHex
         = Ok [])
  ∧ (∀ changeAddresses identity identities e,
       Transaction_fromHex txHex = Throw e →
       getUtxosFromChangeAddresses (Some changeAddresses)
         (identity :: identities) network txHex = Throw e)
  ∧ (∀ changeAddresses identity identities tx l,
       Transaction_fromHex txHex = Ok tx →
       getUtxosFromChangeAddresses (Some changeAddresses)
         (identity :: identities) network txHex = Ok l →
       (∀ u, u ∈ l →
             u_txid u = tx_getId tx
             ∧ ∃ addr script vout o,
                 addr ∈ changeAddresses
                 ∧ address_toOutputScript addr network = Ok script
                 ∧ u_vout u = Z.of_nat vout ∧ outs tx !! vout = Some o
                 ∧ Buffer_toString (out_script o) = Buffer_toString script
                 ∧ (∀ j o', (j < vout)%nat → outs tx !! j = Some o' →
                      Buffer_toString (out_script o') ≠ Buffer_toString script)
                 ∧ getBlindingPrivateKey identity (toString_hex (out_script o))
                   = Ok (blindPrivKey u))
       ∧ (length l ≤ length changeAddresses)%nat).
Proof.
  split; [by intros []|]. split; [done|]. split.
  { intros changeAddresses identity identities e Htx.
    unfold getUtxosFromChangeAddresses. by rewrite Htx. }
  intros changeAddresses identity identities tx l Htx Hl.
  unfold getUtxosFromChangeAddresses in Hl. rewrite Htx in Hl. simpl in Hl.
  split.
  - revert l Hl. induction changeAddresses as [|addr rest IH]; intros l; simpl.
    { intros [= <-] u Hu. by apply elem_of_nil in Hu. }
    destruct (change_of_address identity network tx addr) as [pushed|e] eqn:Hp;
      [|done]. simpl.
    destruct (change_of_addresses identity network tx rest) as [more|e] eqn:Hm;
      [|done]. simpl.
    intros [= <-] u [Hu|Hu]%elem_of_app.
    + unfold change_of_address in Hp.
      destruct (address_toOutputScript addr network) as [script|e] eqn:Hs;
        [|done]. simpl in Hp.
      destruct (findIndex_script script (outs tx)) as [vout|] eqn:Hf.
      * apply findIndex_script_Some in Hf as [(o & Ho & Heq) Hfirst].
        rewrite Ho in Hp.
        destruct (getBlindingPrivateKey identity (toString_hex (out_script o)))
          as [key|e] eqn:Hk; [|done].
        simpl in Hp. injection Hp as <-.
        apply list_elem_of_singleton in Hu as ->. split; [done|].
        exists addr, script, vout, o. by repeat split; [left|..].
      * unfold mret, Try_ret in Hp. injection Hp as <-.
        by apply elem_of_nil in Hu.
    + destruct (IH more eq_refl u Hu)
        as (Hid & addr' & script & vout & o & Hin & Hrest).
      split; [done|]. exists addr', script, vout, o. split; [by right|done].
  - revert l Hl. induction changeAddresses as [|addr rest IH]; intros l; simpl.
    { by intros [= <-]. }
    destruct (change_of_address identity network tx addr) as [pushed|e] eqn:Hp;
      [|done]. simpl.
    destruct (change_of_addresses identity network tx rest) as [more|e] eqn:Hm;
      [|done]. simpl.
    intros [= <-]. rewrite length_app. specialize (IH more eq_refl).
    pose proof (change_of_address_length _ _ _ _ _ Hp). lia.
Qed.

End UnconfirmedProps.

(** ** The wallet actions, further *)

Section BalancesMore.
Import Wallet WalletTrace.

Lemma balances_callback_counted (acc : gmap string Z) (curr : UtxoInterface) :
  missing curr = false →
  ∃ a v, asset curr = Some a ∧ value curr = Some v
         ∧ balances_callback acc curr = ([], Ok (<[a := v]> acc)).
Proof.
  intros Hm. unfold balances_callback. rewrite Hm.
  unfold missing in Hm. apply orb_false_iff in Hm as [Ha Hv].
  destruct (asset curr) as [a|]; [|done].
  destruct (value curr) as [v|]; [|done]. by exists a, v.
Qed.

Lemma reduce_balances_lookup (l : list UtxoInterface) (init b : gmap string Z)
    (t : list Effect) (a : string) :
  reduce balances_callback l init = (t, Ok b) →
  b !! a = match last (filter (λ u, counts_for a u = true) l) with
           | Some u => value u
           | None => init !! a
           end.
Proof.
  revert init t. induction l as [|x l IH]; intros init t; simpl.
  - by intros [= _ <-].
  - destruct (balances_callback_total init x) as (tx & acc & Hx). rewrite Hx.
    rewrite Eff_bind_ok.
    destruct (reduce balances_callback l acc) as [t' r] eqn:Hr. simpl.
    intros [= _ ->]. rewrite (IH _ _ Hr). rewrite filter_cons.
    destruct (missing x) eqn:Hm.
    + rewrite (balances_callback_missing _ _ Hm) in Hx. injection Hx as _ <-.
      rewrite decide_False; [done|]. unfold counts_for. by rewrite Hm.
    + destruct (balances_callback_counted init x Hm) as (ax & vx & Hax & Hvx & Hc).
      rewrite Hc in Hx. injection Hx as _ <-.
      destruct (decide (ax = a)) as [->|Hne].
      * rewrite decide_True.
        -- destruct (filter _ l) as [|y k] eqn:Hf.
           ++ simpl. by rewrite lookup_insert_eq.
           ++ rewrite last_cons_cons.
              destruct (last (y :: k)) eqn:Hl; [done|].
              by apply last_None in Hl.
        -- unfold counts_for. rewrite Hm, Hax. simpl.
           by apply bool_decide_eq_true.
      * rewrite decide_False.
        -- destruct (last (filter _ l)); [done|]. by apply lookup_insert_ne.
        -- unfold counts_for. rewrite Hm, Hax. simpl.
           rewrite bool_decide_eq_false_2; [done|]. congruence.
Qed.

Lemma reduce_balances_trace (l : list UtxoInterface) (init : gmap string Z) :
  (reduce balances_callback l init).1 = l ≫= failure_signals.
Proof.
  revert init. induction l as [|x l IH]; intros init; [done|]. simpl.
  destruct (balances_callback_total init x) as (tx & acc & Hx). rewrite Hx.
  rewrite Eff_bind_ok. simpl. rewrite IH. f_equal.
  unfold failure_signals. destruct (missing x) eqn:Hm.
  - rewrite (balances_callback_missing _ _ Hm) in Hx. by injection Hx as <- _.
  - destruct (balances_callback_counted init x Hm) as (? & ? & _ & _ & Hc).
    rewrite Hc in Hx. by injection Hx as <- _.
Qed.

(** X11.  What [getAllBalances] reports for an asset is the value of the last
    entry of the map, in insertion order, that carries this asset with a
    non-empty asset text and a non-zero value, and nothing when there is no
    such entry; failures are signalled entry by entry in that order, and the
    success action and [onSuccess] follow in every case. *)
Theorem getAllBalances_reports_last_value (st : IAppState) (w : IWallet)
    (rest : list IWallet) :
  wallets st = w :: rest →
  ∃ b,
    getAllBalances st
      = (JS.Returns,
         ((utxoMap w).*2 ≫= failure_signals)
           ++ [Dispatch WALLET_GET_ALL_BALANCES_SUCCESS; OnSuccessBalances b])
    ∧ ∀ a, b !! a
           = last (filter (λ u, counts_for a u = true) (utxoMap w).*2)
               ≫= value.
Proof.
  intros Hw. unfold getAllBalances. rewrite Hw.
  destruct (reduce balances_callback (utxoMap w).*2 ∅) as [t r] eqn:Hr.
  destruct (reduce_balances_total (utxoMap w).*2 ∅) as (t' & b & Hr').
  rewrite Hr in Hr'. injection Hr' as -> ->.
  exists b. split.
  - rewrite Eff_bind_ok. simpl.
    pose proof (reduce_balances_trace (utxoMap w).*2 ∅) as Ht.
    rewrite Hr in Ht. simpl in Ht. by rewrite Ht.
  - intros a. rewrite (reduce_balances_lookup _ _ _ _ a Hr).
    by destruct (last _).
Qed.

End BalancesMore.

Section SetUtxosMore.
Import Wallet.
Context `{Env}.

(** X12.  When the outpoints of the store are pairwise distinct and
    [compareUtxos] answers [true], the outpoints of the fetched outputs are
    those of the store, each once: the two sets are equal, not only of equal
    size. *)
Theorem compareUtxos_distinct_store (store : UtxoMap)
    (fetchedUtxos : list UtxoInterface) :
  NoDup store.*1 →
  compareUtxos store fetchedUtxos = true →
  store.*1 ≡ₚ toOutpoint <$> fetchedUtxos.
Proof.
  intros Hnd [Hlen Hall]%compareUtxos_true.
  apply submseteq_length_Permutation.
  - apply NoDup_submseteq; [done|]. intros o Ho.
    destruct (Hall o Ho) as (u & Hu & Ht & Hv).
    apply list_elem_of_fmap. exists u. split; [|done].
    destruct o. unfold toOutpoint. simpl in *. congruence.
  - rewrite !length_fmap. lia.
Qed.

Lemma compareUtxos_of_unblinded (fetchedUtxos unblinded : list UtxoInterface) :
  Forall2 (λ u u', txid u' = txid u ∧ vout u' = vout u) fetchedUtxos unblinded →
  compareUtxos (map (λ utxo, (toOutpoint utxo, utxo)) unblinded) fetchedUtxos
    = true.
Proof.
  intros Hf. apply compareUtxos_true. split.
  - rewrite length_map. symmetry. by eapply Forall2_length.
  - intros o (p & -> & (u' & -> & Hu')%list_elem_of_fmap)%list_elem_of_fmap.
    simpl. apply list_elem_of_lookup in Hu' as [i Hi].
    destruct (Forall2_lookup_r _ _ _ _ _ Hf Hi) as (u & Hu & Ht & Hv).
    exists u. split; [|done]. by eapply list_elem_of_lookup_2.
Qed.

Lemma unblinded_Forall2 (fetched : list (list UtxoInterface * string)) :
  (∀ u key, txid (tryToUnblindUtxo u key) = txid u
            ∧ vout (tryToUnblindUtxo u key) = vout u) →
  Forall2 (λ u u', txid u' = txid u ∧ vout u' = vout u)
    (concat fetched.*1)
    (concat (map (λ keyPairData : list UtxoInterface * string,
                    map (λ utxo, tryToUnblindUtxo utxo keyPairData.2)
                        keyPairData.1) fetched)).
Proof.
  intros Hlaw. induction fetched as [|[utxos key] rest IH]; simpl; [constructor|].
  apply Forall2_app; [|done].
  induction utxos as [|u utxos IHu]; simpl; constructor; [apply Hlaw|done].
Qed.

Lemma setUtxos_cases (addrs : list AddressInterface) (st : IAppState) :
  (∃ e, setUtxos addrs st
        = (JS.PromiseFulfilled,
           [Dispatch (WALLET_SET_UTXOS_FAILURE e); OnError e])
        ∧ (fetch_all addrs = Throw e
           ∨ (wallets st = [] ∧ e = undefined_wallet_message)))
  ∨ (∃ fetched w rest,
       fetch_all addrs = Ok fetched ∧ wallets st = w :: rest
       ∧ compareUtxos (utxoMap w) (concat fetched.*1) = true
       ∧ setUtxos addrs st = (JS.PromiseFulfilled, [OnSuccess]))
  ∨ (∃ fetched w rest m,
       fetch_all addrs = Ok fetched ∧ wallets st = w :: rest
       ∧ compareUtxos (utxoMap w) (concat fetched.*1) = false
       ∧ m = map (λ utxo, (toOutpoint utxo, utxo))
               (concat (map (λ keyPairData : list UtxoInterface * string,
                               map (λ utxo, tryToUnblindUtxo utxo keyPairData.2)
                                   keyPairData.1) fetched))
       ∧ ((repo_setUtxos m = Ok tt
           ∧ setUtxos addrs st
             = (JS.PromiseFulfilled,
                [RepoSetUtxos m; Dispatch (WALLET_SET_UTXOS_SUCCESS m);
                 OnSuccess]))
          ∨ (∃ e, repo_setUtxos m = Throw e
                  ∧ setUtxos addrs st
                    = (JS.PromiseFulfilled,
                       [RepoSetUtxos m;
                        Dispatch (WALLET_SET_UTXOS_FAILURE e); OnError e])))).
Proof.
  unfold setUtxos, setUtxos_body.
  destruct (fetch_all addrs) as [fetched|e] eqn:Hf; simpl.
  2: { left. exists e. split; [done|]. by left. }
  destruct (wallets st) as [|w rest] eqn:Hw; simpl.
  { left. eexists. split; [done|]. by right. }
  destruct (compareUtxos (utxoMap w) (concat fetched.*1)) eqn:Hc; simpl.
  { right. left. by exists fetched, w, rest. }
  right. right. eexists fetched, w, rest, _. do 4 (split; [done|]).
  destruct (repo_setUtxos _) as [[]|e] eqn:Hr; simpl.
  - left. done.
  - right. by exists e.
Qed.

(** X13.  [setUtxos] never rejects and calls one continuation, once, at the
    end: its trace is [onSuccess()] alone; or the repository write, the
    success action with the same map, and [onSuccess()]; or the failure
    action and [onError] with the same error, after the repository write when
    it is the write that failed.  The success action is dispatched only after
    a repository write. *)
Theorem setUtxos_trace_shapes (addrs : list AddressInterface) (st : IAppState) :
  (setUtxos addrs st).1 = JS.PromiseFulfilled
  ∧ ((setUtxos addrs st).2 = [OnSuccess]
     ∨ (∃ m, (setUtxos addrs st).2
             = [RepoSetUtxos m; Dispatch (WALLET_SET_UTXOS_SUCCESS m); OnSuccess])
     ∨ (∃ e, (setUtxos addrs st).2
             = [Dispatch (WALLET_SET_UTXOS_FAILURE e); OnError e])
     ∨ (∃ m e, (setUtxos addrs st).2
               = [RepoSetUtxos m; Dispatch (WALLET_SET_UTXOS_FAILURE e);
                  OnError e])).
Proof.
  destruct (setUtxos_cases addrs st)
    as [(e & -> & _) | [(f & w & rest & _ & _ & _ & ->)
       | (f & w & rest & m & _ & _ & _ & _ & [[_ ->] | (e & _ & ->)])]];
    (split; [done|]); eauto 10.
Qed.

(** X14.  Polling twice: when a cycle of [setUtxos] has written a map and the
    explorer gives the same answers again, the next cycle, run on the state
    that holds the written map, compares equal and writes nothing, provided
    unblinding keeps the txid and vout of an output. *)
Theorem setUtxos_second_cycle_writes_nothing (addrs : list AddressInterface)
    (st : IAppState) (m : UtxoMap) :
  (∀ u key, txid (tryToUnblindUtxo u key) = txid u
            ∧ vout (tryToUnblindUtxo u key) = vout u) →
  setUtxos addrs st
    = (JS.PromiseFulfilled,
       [RepoSetUtxos m; Dispatch (WALLET_SET_UTXOS_SUCCESS m); OnSuccess]) →
  setUtxos addrs (with_utxoMap st m) = (JS.PromiseFulfilled, [OnSuccess]).
Proof.
  intros Hlaw Hfirst.
  destruct (setUtxos_cases addrs st)
    as [(e & He & _) | [(f & w & rest & _ & _ & _ & He)
       | (f & w & rest & m' & Hf & Hw & _ & Hm & [[_ He] | (e & _ & He)])]];
    rewrite He in Hfirst; try discriminate.
  injection Hfirst as <-.
  unfold setUtxos, setUtxos_body, with_utxoMap. rewrite Hf, Hw. simpl.
  rewrite Hm, compareUtxos_of_unblinded; [done|]. by apply unblinded_Forall2.
Qed.

End SetUtxosMore.

Section CreateRestoreMore.
Import Wallet.
Context `{Env}.

(** X15.  With no wallet in the state, [createWallet] never rejects and
    calls one continuation, once, at the end.  Its trace is: the repository
    call, the success action with the very wallet handed to the repository,
    and [onSuccess()], the wallet having the encrypted mnemonic, the password
    hash, no address and an empty UTXO map; or the failure action and
    [onError] with one error, after the repository call when it is that call
    which failed.  Success is never dispatched unless the repository call
    went through. *)
Theorem createWallet_trace_shapes (password mnemonic : string) (st : IAppState) :
  wallet_already_exists st = false →
  (createWallet password mnemonic st).1 = JS.PromiseFulfilled
  ∧ ((∃ w, (createWallet password mnemonic st).2
           = [RepoGetOrCreateWallet w; Dispatch (WALLET_CREATE_SUCCESS w);
              OnSuccess]
           ∧ repo_getOrCreateWallet w = Ok tt
           ∧ encryptedMnemonic w = Some (encrypt mnemonic password)
           ∧ passwordHash w = hash password
           ∧ confidentialAddresses w = [] ∧ utxoMap w = [])
     ∨ (∃ e, (createWallet password mnemonic st).2
             = [Dispatch (WALLET_CREATE_FAILURE e); OnError e])
     ∨ (∃ w e, (createWallet password mnemonic st).2
               = [RepoGetOrCreateWallet w; Dispatch (WALLET_CREATE_FAILURE e);
                  OnError e]
               ∧ repo_getOrCreateWallet w = Throw e)).
Proof.
  intros Hex. unfold createWallet, createWallet_body. rewrite Hex.
  destruct (new_Mnemonic (app_network st) mnemonic false) as [id|e]; simpl;
    [|split; [done|]; right; left; by exists e].
  destruct (MasterXPub_create (id_masterPublicKey id)) as [xpub|e]; simpl;
    [|split; [done|]; right; left; by exists e].
  destruct (MasterBlindingKey_create (id_masterBlindingKey id)) as [key|e]; simpl;
    [|split; [done|]; right; left; by exists e].
  destruct (repo_getOrCreateWallet _) as [[]|e] eqn:Hrepo; simpl.
  - split; [done|]. left. eexists. split; [done|]. by rewrite Hrepo.
  - split; [done|]. right. right. eexists _, e. split; [done|]. by rewrite Hrepo.
Qed.

Lemma restoreWallet_shapes (password mnemonic : string) (st : IAppState) :
  wallet_already_exists st = false →
  (restoreWallet password mnemonic st).1 = JS.PromiseFulfilled
  ∧ ((∃ w, (restoreWallet password mnemonic st).2
           = [RepoGetOrCreateWallet w; Dispatch (WALLET_RESTORE_SUCCESS w);
              OnSuccess]
           ∧ repo_getOrCreateWallet w = Ok tt ∧ utxoMap w = [])
     ∨ (∃ e, (restoreWallet password mnemonic st).2
             = [Dispatch (WALLET_RESTORE_FAILURE e); OnError e])
     ∨ (∃ w e, (restoreWallet password mnemonic st).2
               = [RepoGetOrCreateWallet w; Dispatch (WALLET_RESTORE_FAILURE e);
                  OnError e]
               ∧ repo_getOrCreateWallet w = Throw e)).
Proof.
  intros Hex. unfold restoreWallet, restoreWallet_body. rewrite Hex.
  destruct (new_Mnemonic (app_network st) mnemonic true) as [id|e]; simpl;
    [|split; [done|]; right; left; by exists e].
  destruct (MasterXPub_create (id_masterPublicKey id)) as [xpub|e]; simpl;
    [|split; [done|]; right; left; by exists e].
  destruct (MasterBlindingKey_create (id_masterBlindingKey id)) as [key|e]; simpl;
    [|split; [done|]; right; left; by exists e].
  destruct (id_isRestored id); simpl;
    [|split; [done|]; right; left; by eexists].
  destruct (create_addresses (id_addresses id)) as [addresses|e]; simpl;
    [|split; [done|]; right; left; by exists e].
  destruct (repo_getOrCreateWallet _) as [[]|e] eqn:Hrepo; simpl.
  - split; [done|]. left. eexists. split; [done|]. by rewrite Hrepo.
  - split; [done|]. right. right. eexists _, e. split; [done|]. by rewrite Hrepo.
Qed.

(** X16.  With no wallet in the state, [restoreWallet] never rejects and its
    trace has one of the three shapes of [createWallet]'s; a mnemonic whose
    identity is not restored ends in the failure action and [onError] with
    "Failed to restore wallet", the repository not being called. *)
Theorem restoreWallet_trace_shapes (password mnemonic : string) (st : IAppState) :
  wallet_already_exists st = false →
  (restoreWallet password mnemonic st).1 = JS.PromiseFulfilled
  ∧ ((∃ w, (restoreWallet password mnemonic st).2
           = [RepoGetOrCreateWallet w; Dispatch (WALLET_RESTORE_SUCCESS w);
              OnSuccess]
           ∧ repo_getOrCreateWallet w = Ok tt ∧ utxoMap w = [])
     ∨ (∃ e, (restoreWallet password mnemonic st).2
             = [Dispatch (WALLET_RESTORE_FAILURE e); OnError e])
     ∨ (∃ w e, (restoreWallet password mnemonic st).2
               = [RepoGetOrCreateWallet w; Dispatch (WALLET_RESTORE_FAILURE e);
                  OnError e]
               ∧ repo_getOrCreateWallet w = Throw e))
  ∧ (∀ id xpub key,
       new_Mnemonic (app_network st) mnemonic true = Ok id →
       MasterXPub_create (id_masterPublicKey id) = Ok xpub →
       MasterBlindingKey_create (id_masterBlindingKey id) = Ok key →
       id_isRestored id = false →
       (restoreWallet password mnemonic st).2
         = [Dispatch (WALLET_RESTORE_FAILURE "Failed to restore wallet");
            OnError "Failed to restore wallet"]).
Proof.
  intros Hex. destruct (restoreWallet_shapes password mnemonic st Hex) as [Hf Hs].
  split; [done|]. split; [done|].
  intros id xpub key H1 H2 H3 H4.
  unfold restoreWallet, restoreWallet_body. rewrite Hex, H1. simpl.
  rewrite H2. simpl. rewrite H3. simpl. by rewrite H4.
Qed.

End CreateRestoreMore.

(** ** The updater, further *)

Section UpdaterMore.
Import Backend BackendTrace.
Context `{Env}.

Lemma fetchAssetInfos_only_assets (assetHash explorerUrl : string)
    (assetsState : gmap string Asset) (a : AnyAction) :
  a ∈ fetchAssetInfos assetHash explorerUrl assetsState →
  ∃ x, a = addAsset assetHash x.
Proof.
  unfold fetchAssetInfos. case_bool_decide; [by intros ?%elem_of_nil|].
  destruct (axios_get_asset explorerUrl assetHash) as [[i|]|];
    try by intros ?%elem_of_nil.
  intros ->%list_elem_of_singleton. by eexists.
Qed.

Lemma loop_body_trace (accountID explorer : string) (y : UtxoInterface)
    (assetsState : gmap string Asset) (a : AnyAction) :
  a ∈ (loop_body accountID explorer y assetsState).1 →
  (∃ h x, a = addAsset h x) ∨ added_from accountID y a.
Proof.
  unfold loop_body. destruct (isBlindedUtxo y) eqn:Hb; simpl.
  { by intros ?%elem_of_nil. }
  set (infos := if JS.truthy_ostring (asset y) then _ else _).
  assert (Hinfos : ∀ a, a ∈ infos → ∃ h x, a = addAsset h x).
  { subst infos. intros b Hb'. destruct (JS.truthy_ostring (asset y)).
    - apply fetchAssetInfos_only_assets in Hb' as [x ->]. by eexists _, _.
    - by apply elem_of_nil in Hb'. }
  destruct (JS.truthy_ostring (prevout y)) eqn:Hp; simpl.
  - intros [Hin| ->%list_elem_of_singleton]%elem_of_app;
      [left; by apply Hinfos|].
    right. exists y. repeat split; try done.
    destruct (prevout y); [by eexists|done].
  - unfold utxoWithPrevout.
    destruct (fetchPrevout (txid y) (vout y) explorer) as [p|e]; simpl.
    + intros [Hin| ->%list_elem_of_singleton]%elem_of_app;
        [left; by apply Hinfos|].
      right. eexists. split; [reflexivity|]. by repeat split.
    + rewrite app_nil_r. intros Hin. left. by apply Hinfos.
Qed.

Lemma update_loop_trace (utxosMap : gmap string UtxoInterface)
    (accountID explorer : string) (items : list (UtxoInterface * string))
    (skippedOutpoints : list string) (assetsState : gmap string Asset)
    (a : AnyAction) :
  a ∈ (update_loop utxosMap accountID explorer items skippedOutpoints
         assetsState).1 →
  (∃ h x, a = addAsset h x)
  ∨ ∃ raw key,
      (raw, key) ∈ items
      ∧ added_from accountID
          (yielded (bool_decide (is_Some (utxosMap !! toStringOutpoint raw)))
                   raw key) a.
Proof.
  revert skippedOutpoints assetsState.
  induction items as [|[raw key] rest IH]; intros sk assetsState; simpl.
  { by intros ?%elem_of_nil. }
  set (y := yielded (bool_decide (is_Some (utxosMap !! toStringOutpoint raw)))
              raw key).
  pose proof (loop_body_trace accountID explorer y assetsState a) as Ht.
  destruct (loop_body accountID explorer y assetsState) as [t1 [as1|e]].
  - rewrite Eff_bind_ok. simpl. intros [Hin|Hin]%elem_of_app.
    + destruct (Ht Hin) as [?|?]; [by left|].
      right. exists raw, key. split; [by left|done].
    + destruct (IH _ _ Hin) as [?|(raw' & key' & Hi & Ha)]; [by left|].
      right. exists raw', key'. split; [by right|done].
  - simpl. intros Hin. destruct (Ht Hin) as [?|?]; [by left|].
    right. exists raw, key. split; [by left|done].
Qed.

Lemma makeUtxosUpdaterThunk_actions
    (selectAccount : RootReducerState → Account) (state : RootReducerState) :
  ∃ t d,
    (makeUtxosUpdaterThunk selectAccount state).2 = t ++ d
    ∧ (∀ a, a ∈ t →
         (∃ h x, a = addAsset h x)
         ∨ ∃ raw key,
             (raw, key) ∈ scanned selectAccount state
             ∧ added_from (accountID (selectAccount state))
                 (yielded (bool_decide
                             (is_Some (tracked selectAccount state
                                         !! toStringOutpoint raw))) raw key) a)
    ∧ (∀ a, a ∈ d → ∃ d_txid d_vout, a = deleteUtxo d_txid d_vout)
    ∧ ((∀ n errors, (makeUtxosUpdaterThunk selectAccount state).1
                    ≠ Completed n errors) → d = []).
Proof.
  unfold makeUtxosUpdaterThunk, scanned.
  destruct (negb (app_isAuthenticated state)).
  { exists [], []. by repeat split; try intros ? ?%elem_of_nil. }
  destruct (getWatchIdentity_getAddresses (selectAccount state))
    as [addresses|e].
  2: { exists [], []. by repeat split; try intros ? ?%elem_of_nil. }
  destruct (scan addresses (explorerURL state)) as [items errs]. simpl.
  pose proof (update_loop_trace (tracked selectAccount state)
                (accountID (selectAccount state)) (explorerURL state) items []
                (assets state)) as Ht.
  destruct (update_loop _ _ _ items [] (assets state)) as [t [sk|e]]; simpl in *.
  - eexists t, _. split; [done|]. split; [done|]. split.
    + intros a (o & _ & _ & ->)%elem_of_delete_spent. by eexists _, _.
    + intros Hne. by destruct (Hne (Z.of_nat (length items)) errs).
  - exists t, []. rewrite app_nil_r. split; [done|]. split; [done|].
    split; [by intros ? ?%elem_of_nil | done].
Qed.

(** X17.  A cycle that does not run to its end deletes nothing: when the
    user is not authenticated nothing at all is dispatched, and when the
    cycle ends in its [catch] clause no [deleteUtxo] is among the actions
    dispatched before the exception. *)
Theorem aborted_cycle_deletes_nothing
    (selectAccount : RootReducerState → Account) (state : RootReducerState)
    (outcome : Outcome) (actions : list AnyAction) :
  makeUtxosUpdaterThunk selectAccount state = (outcome, actions) →
  (∀ n errors, outcome ≠ Completed n errors) →
  (∀ d_txid d_vout, deleteUtxo d_txid d_vout ∉ actions)
  ∧ (outcome = NotAuthenticated → actions = []).
Proof.
  intros Hthunk Hne. split.
  - destruct (makeUtxosUpdaterThunk_actions selectAccount state)
      as (t & d & Ha & Ht & _ & Hd).
    rewrite Hthunk in Ha, Hd. simpl in *. rewrite (Hd Hne), app_nil_r in Ha.
    subst t. intros d_txid d_vout Hin.
    destruct (Ht _ Hin) as [(? & ? & ?)|(? & ? & _ & ? & ? & _)]; done.
  - intros ->. revert Hthunk. unfold makeUtxosUpdaterThunk.
    destruct (negb (app_isAuthenticated state)); [by intros [= <-]|].
    destruct (getWatchIdentity_getAddresses (selectAccount state)); [|done].
    destruct (scan _ _). by destruct (update_loop _ _ _ _ _ _) as [? [?|?]].
Qed.

(** X18.  Every [addUtxo] the updater dispatches, in a cycle that ends or
    not, is for the selected account and carries a fetched output that the
    generator yielded unblinded: same txid, vout, asset and value as the
    yielded output, and a prevout that is defined. *)
Theorem added_utxos_are_fetched_and_unblinded
    (selectAccount : RootReducerState → Account) (state : RootReducerState)
    (id : string) (u : UtxoInterface) :
  addUtxo id u ∈ (makeUtxosUpdaterThunk selectAccount state).2 →
  id = accountID (selectAccount state)
  ∧ is_Some (prevout u)
  ∧ ∃ raw key,
      (raw, key) ∈ scanned selectAccount state
      ∧ toStringOutpoint u = toStringOutpoint raw
      ∧ let y := yielded (bool_decide
                            (is_Some (tracked selectAccount state
                                        !! toStringOutpoint raw))) raw key in
        isBlindedUtxo y = false ∧ asset u = asset y ∧ value u = value y.
Proof.
  destruct (makeUtxosUpdaterThunk_actions selectAccount state)
    as (t & d & -> & Ht & Hd & _).
  intros [Hin|Hin]%elem_of_app.
  - destruct (Ht _ Hin)
      as [(? & ? & ?)|(raw & key & Hitem & u' & [= <- <-] & Hb & Htx & Hv & Ha & Hval & Hp)];
      [done|].
    split; [done|]. split; [done|]. exists raw, key. split; [done|]. split.
    + rewrite <- (toStringOutpoint_yielded
                    (bool_decide (is_Some (tracked selectAccount state
                                             !! toStringOutpoint raw))) raw key).
      unfold toStringOutpoint. by rewrite Htx, Hv.
    + done.
  - by destruct (Hd _ Hin) as (? & ? & ?).
Qed.

End UpdaterMore.

Section StableKeySet.
Import Backend.
Context `{Env}.

Lemma keyed_by_outpoint_apply_diff (m : gmap string UtxoInterface)
    (t : list AnyAction) :
  keyed_by_outpoint m → keyed_by_outpoint (apply_diff m t).
Proof.
  revert m. induction t as [|a t IH]; intros m Hm; [done|].
  simpl. fold (apply_diff (utxosReducer m a) t). apply IH.
  destruct a as [id u|dt dv|h x]; simpl; [| |done].
  - intros k v [[<- <-]|[_ Hk]]%lookup_insert_Some; [done|]. by apply Hm.
  - intros k v [_ Hk]%lookup_delete_Some. by apply Hm.
Qed.

Lemma elem_of_unblinded_keys (utxosMap : gmap string UtxoInterface)
    (items : list (UtxoInterface * string)) (k : string) :
  k ∈ toStringOutpoint <$> (unblinded_items utxosMap items).*1 ↔
    ∃ raw key, (raw, key) ∈ items ∧ toStringOutpoint raw = k
               ∧ yields_unblinded utxosMap (raw, key) = true.
Proof.
  split.
  - intros (raw' & -> & ([raw key] & -> & Hitem)%list_elem_of_fmap)
             %list_elem_of_fmap.
    apply list_elem_of_filter in Hitem as [Hy Hitem]. by exists raw, key.
  - intros (raw & key & Hitem & <- & Hy).
    apply list_elem_of_fmap. exists raw. split; [done|].
    apply list_elem_of_fmap. exists (raw, key). split; [done|].
    by apply list_elem_of_filter.
Qed.

(** The outpoint strings tracked after a cycle that ran to its end. *)
Lemma elem_of_dom_after_cycle (selectAccount : RootReducerState → Account)
    (state : RootReducerState) (n : Z) (errors : list string)
    (actions : list AnyAction) (k : string) :
  keyed_by_outpoint (tracked selectAccount state) →
  makeUtxosUpdaterThunk selectAccount state = (Completed n errors, actions) →
  k ∈ dom (apply_diff (tracked selectAccount state) actions) ↔
    (k ∈ dom (tracked selectAccount state)
     ∧ ∃ f, f ∈ fetched selectAccount state ∧ toStringOutpoint f = k)
    ∨ ∃ raw key, (raw, key) ∈ scanned selectAccount state
                 ∧ toStringOutpoint raw = k
                 ∧ yields_unblinded (tracked selectAccount state) (raw, key)
                   = true.
Proof.
  intros Hkeyed Hthunk.
  destruct (completed_cycle_keys _ _ _ _ _ Hkeyed Hthunk)
    as (t & d & -> & Htd & Hda & Hta & _ & Hdk).
  rewrite apply_diff_app, dom_apply_deletes, dom_apply_adds by done.
  rewrite elem_of_difference, elem_of_union, !elem_of_list_to_set, Hdk, Hta,
    elem_of_unblinded_keys.
  split.
  - intros [[Hk|Hk] Hnd]; [|by right].
    left. split; [done|].
    destruct (decide (k ∈ toStringOutpoint <$> fetched selectAccount state))
      as [(f & -> & Hf)%list_elem_of_fmap|Hnf]; [by exists f|].
    exfalso. apply Hnd. split; [done|].
    intros (f & Hf & <-). apply Hnf. by apply list_elem_of_fmap_2.
  - intros [[Hk Hf]|Hk].
    + split; [by left|]. by intros [_ Hnf].
    + split; [by right|]. intros [_ Hnf]. apply Hnf.
      destruct Hk as (raw & key & Hitem & <- & _). exists raw. split; [|done].
      unfold fetched. apply list_elem_of_fmap. by exists (raw, key).
Qed.

(** X19.  Running the updater again changes no key: after a cycle that ran
    to its end, a second cycle for the same account against the same
    explorer, on the tracked set the first one left, leaves the set of
    tracked outpoints as it is. *)
Theorem second_cycle_keeps_key_set
    (selectAccount : RootReducerState → Account)
    (state state' : RootReducerState) (n n' : Z) (errors errors' : list string)
    (actions actions' : list AnyAction) :
  keyed_by_outpoint (tracked selectAccount state) →
  makeUtxosUpdaterThunk selectAccount state = (Completed n errors, actions) →
  selectAccount state' = selectAccount state →
  explorerURL state' = explorerURL state →
  tracked selectAccount state'
    = apply_diff (tracked selectAccount state) actions →
  makeUtxosUpdaterThunk selectAccount state' = (Completed n' errors', actions') →
  dom (apply_diff (tracked selectAccount state') actions')
    = dom (tracked selectAccount state').
Proof.
  intros Hkeyed Hthunk Hacc Hexp Htracked Hthunk'.
  assert (Hkeyed' : keyed_by_outpoint (tracked selectAccount state')).
  { rewrite Htracked. by apply keyed_by_outpoint_apply_diff. }
  assert (Hscan : scanned selectAccount state' = scanned selectAccount state).
  { unfold scanned. by rewrite Hacc, Hexp. }
  assert (Hfetched : fetched selectAccount state' = fetched selectAccount state).
  { unfold fetched. by rewrite Hscan. }
  pose proof (λ k, elem_of_dom_after_cycle _ _ _ _ _ k Hkeyed Hthunk) as H1.
  pose proof (λ k, elem_of_dom_after_cycle _ _ _ _ _ k Hkeyed' Hthunk') as H2.
  rewrite <- Htracked in H1.
  apply set_eq. intros k. rewrite H2, Hscan, Hfetched. split.
  - intros [[Hk _]|(raw & key & Hitem & Hkey & Hy)]; [done|].
    destruct (decide (k ∈ dom (tracked selectAccount state'))) as [|Hnk];
      [done|].
    apply H1. right. exists raw, key. split; [done|]. split; [done|].
    assert (Hnk0 : k ∉ dom (tracked selectAccount state)).
    { intros Hk0. apply Hnk, H1. left. split; [done|]. exists raw.
      split; [|done]. unfold fetched. apply list_elem_of_fmap.
      by exists (raw, key). }
    unfold yields_unblinded in *. simpl in *. rewrite Hkey in *.
    rewrite bool_decide_eq_false_2 in Hy by (by rewrite <- elem_of_dom).
    by rewrite bool_decide_eq_false_2 by (by rewrite <- elem_of_dom).
  - intros Hk. left. split; [done|].
    apply H1 in Hk as [[_ Hf]|(raw & key & Hitem & Hkey & _)]; [done|].
    exists raw. split; [|done]. unfold fetched. apply list_elem_of_fmap.
    by exists (raw, key).
Qed.

End StableKeySet.

(** ** The [Transaction] value object *)

Section TransactionCreate.
Import TransactionVO.
Context `{Ldk}.

(** X20.  [Transaction.create] keeps its invariant: a transaction it returns
    holds the properties it was given, with a PSET that decodes, an address
    that has an output script, send and fee assets of 64 characters, and
    send and fee amounts above 0 and up to 2 100 000 000 000 000; and it
    returns one whenever the properties given satisfy all of this.  Every
    refusal carries the same message. *)
Theorem Transaction_create_invariant (p : option TransactionProps) :
  (∀ t, create p = Ok t →
        p = Some (props t)
        ∧ (∃ u, decodePset (value (props t)) = Ok u)
        ∧ (∃ u, address_toOutputScript (sendAddress (props t)) = Ok u)
        ∧ String.length (sendAsset (props t)) = 64%nat
        ∧ String.length (feeAsset (props t)) = 64%nat
        ∧ 0 < sendAmount (props t) ≤ 2100000000000000
        ∧ 0 < feeAmount (props t) ≤ 2100000000000000)
  ∧ (∀ q,
       p = Some q →
       (∃ u, decodePset (value q) = Ok u) →
       (∃ u, address_toOutputScript (sendAddress q) = Ok u) →
       String.length (sendAsset q) = 64%nat →
       String.length (feeAsset q) = 64%nat →
       0 < sendAmount q ≤ 2100000000000000 →
       0 < feeAmount q ≤ 2100000000000000 →
       create p = Ok {| props := q |})
  ∧ (∀ e, create p = Throw e → e = invalid_message).
Proof.
  split; [|split].
  - intros t. destruct p as [q|]; simpl; [|done].
    destruct (_ || negb (isValidAmount (feeAmount q))) eqn:Hc; [done|].
    intros [= <-]. simpl.
    repeat (apply orb_false_iff in Hc as [Hc ?]).
    unfold isValidTx, isValidAddress, isValidAsset, isValidAmount in *.
    repeat match goal with
           | Hn : negb _ = false |- _ => apply negb_false_iff in Hn
           end.
    destruct (decodePset (value q)); [|done].
    destruct (address_toOutputScript (sendAddress q)); [|done].
    repeat match goal with
           | Hn : _ && _ = true |- _ => apply andb_true_iff in Hn as [? ?]
           end.
    repeat split; eauto; try (by apply Nat.eqb_eq); lia.
  - intros q -> [u Hd] [u' Ha] Hs Hf Hsa Hfa. simpl.
    unfold isValidTx, isValidAddress, isValidAsset, isValidAmount.
    rewrite Hd, Ha, Hs, Hf. simpl.
    destruct (Z.ltb_spec 0 (sendAmount q)); [|lia].
    destruct (Z.leb_spec (sendAmount q) 2100000000000000); [|lia].
    destruct (Z.ltb_spec 0 (feeAmount q)); [|lia].
    destruct (Z.leb_spec (feeAmount q) 2100000000000000); [|lia].
    done.
  - intros e. destruct p as [q|]; simpl; [|by intros [= <-]].
    destruct (_ || negb (isValidAmount (feeAmount q))); [by intros [= <-]|done].
Qed.

End TransactionCreate.

(** ** [numberToString] *)

Lemma Byte_to_N_byte_of_Z (n : Z) :
  0 ≤ n < 256 → Z.of_N (Byte.to_N (TestUtils.byte_of_Z n)) = n.
Proof.
  intros Hn. unfold TestUtils.byte_of_Z.
  destruct (Byte.of_N (Z.to_N n)) as [b|] eqn:Hb; simpl.
  - apply Byte.to_of_N in Hb. rewrite Hb. lia.
  - apply Byte.of_N_None_iff in Hb. lia.
Qed.

Lemma le_value_le_bytes (width : nat) (n : Z) :
  0 ≤ n < 256 ^ Z.of_nat width →
  TestUtils.le_value (TestUtils.le_bytes width n) = n.
Proof.
  revert n. induction width as [|w IH]; intros n Hn.
  - simpl in *. lia.
  - change (TestUtils.le_bytes (S w) n)
      with (TestUtils.byte_of_Z (n mod 256) :: TestUtils.le_bytes w (n / 256)).
    change (TestUtils.le_value (?b :: ?l))
      with (Z.of_N (Byte.to_N b) + 256 * TestUtils.le_value l).
    rewrite Byte_to_N_byte_of_Z by (apply Z.mod_pos_bound; lia).
    rewrite IH.
    + pose proof (Z.div_mod n 256). lia.
    + rewrite Nat2Z.inj_succ, Z.pow_succ_r in Hn by lia.
      split; [apply Z.div_pos; lia|].
      apply Z.div_lt_upper_bound; lia.
Qed.

Lemma le_bytes_length (width : nat) (n : Z) :
  length (TestUtils.le_bytes width n) = width.
Proof. revert n. induction width as [|w IH]; intros n; simpl; [done|]. by rewrite IH. Qed.

Lemma Buffer_from_hex_toString_hex_id (buf : list Byte.byte) :
  Hex.Buffer_from_hex (Utils.toString_hex buf) = buf.
Proof.
  induction buf as [|b l IH]; [done|].
  by rewrite toString_hex_cons, Buffer_from_hex_byte, IH.
Qed.

(** X21.  [numberToString] resolves exactly on the integers from 0 to
    2^64 - 1, with "0x" and 16 hexadecimal characters, from which the number
    reads back: the bytes the text encodes, least significant first, are the
    number.  So it is injective on that range. *)
Theorem numberToString_round_trip (n : Z) :
  ((∃ s, TestUtils.numberToString n = Ok s) ↔ 0 ≤ n < 2 ^ 64)
  ∧ ∀ s, TestUtils.numberToString n = Ok s →
         ∃ digits, s = "0x" +:+ digits
                   ∧ String.length digits = 16%nat
                   ∧ all_hex digits = true
                   ∧ TestUtils.le_value (Hex.Buffer_from_hex digits) = n.
Proof.
  unfold TestUtils.numberToString.
  destruct (Z.leb_spec 0 n) as [H0|H0].
  2: { split; [|done]. split; [by intros [? ?]|lia]. }
  destruct (Z.ltb_spec n (2 ^ 64)) as [H1|H1].
  2: { split; [|done]. split; [by intros [? ?]|lia]. }
  cbv [andb]. split; [split; [done | by eexists]|].
  intros s [= <-]. exists (Utils.toString_hex (TestUtils.le_bytes 8 n)).
  split; [reflexivity|].
  rewrite toString_hex_length, le_bytes_length, all_hex_toString_hex,
    Buffer_from_hex_toString_hex_id.
  split; [done|]. split; [done|]. apply le_value_le_bytes.
  change (256 ^ Z.of_nat 8) with (2 ^ 64). lia.
Qed.

Example numberToString_example :
  TestUtils.numberToString 20000 = Ok "0x204e000000000000".
Proof. reflexivity. Qed.

(** ** backend.ts, further: the blinding-key getter and the taxi assets *)

Section BlindKeyGetterProps.
Import Utils BackendMore.
Context `{Ldk}.

Lemma find_unconfidential_match (a : string) (addrs : list AddressInterface)
    (found : AddressInterface) :
  find_unconfidential a addrs = Ok (Some found) →
  ∃ addr, match_address a addrs = Ok (Some addr)
          ∧ (addr = found ∨ a = confidentialAddress addr).
Proof.
  induction addrs as [|x l IH]; simpl; [done|].
  destruct (address_fromConfidential (confidentialAddress x)) as [unconf|e];
    simpl; [|done].
  destruct (String.eqb_spec unconf a) as [->|Hne].
  - intros [= <-]. rewrite String.eqb_refl. simpl. exists x. split; [done|by left].
  - destruct (String.eqb_spec a unconf) as [->|_]; [done|]. simpl.
    destruct (String.eqb_spec a (confidentialAddress x)) as [->|_].
    + intros _. exists x. split; [done|by right].
    + apply IH.
Qed.

(** X22.  The history updater finds blinding keys only for outputs that
    [getUtxosFromTx] reports as change: when [identityBlindKeyGetter] returns
    a key for the hexadecimal text of a script, the change detection run on
    that script with the same addresses stops at an address too, and at the
    address with that key unless it stopped on a confidential-form match.
    The getter itself never throws. *)
Theorem blind_key_getter_within_change_detection (network : string)
    (addrs : list AddressInterface) (script : list Byte.byte) (key : string) :
  identityBlindKeyGetter network addrs (toString_hex script) = Some key →
  ∃ a addr,
    address_fromOutputScript script network = Ok a
    ∧ detect_change network addrs {| out_script := script |} = Ok (Some addr)
    ∧ addr ∈ addrs
    ∧ (blindingPrivateKey addr = key ∨ a = confidentialAddress addr).
Proof.
  unfold identityBlindKeyGetter, detect_change.
  rewrite Buffer_from_hex_toString_hex_id. simpl.
  destruct (address_fromOutputScript script network) as [a|e]; simpl; [|done].
  destruct (find_unconfidential a addrs) as [[found|]|e] eqn:Hf; [|done|done].
  intros [= <-].
  destruct (find_unconfidential_match _ _ _ Hf) as (addr & Hm & Hor).
  exists a, addr. split; [done|]. split; [done|].
  split; [by apply match_address_sound in Hm as [? _]|].
  destruct Hor as [->|?]; [by left|by right].
Qed.

End BlindKeyGetterProps.

Section TaxiAssets.
Import BackendMore.

Lemma N_of_ascii_inj (c d : ascii) : N_of_ascii c = N_of_ascii d → c = d.
Proof.
  intros Heq. rewrite <- (ascii_N_embedding c), <- (ascii_N_embedding d).
  by rewrite Heq.
Qed.

#[local] Instance text_le_total : Total text_le.
Proof.
  intros s. unfold text_le. induction s as [|c s IH]; intros [|d t]; simpl; auto.
  destruct (N.ltb_spec (N_of_ascii c) (N_of_ascii d)); [by left|].
  destruct (N.ltb_spec (N_of_ascii d) (N_of_ascii c)); [by right|].
  apply IH.
Qed.

#[local] Instance text_le_antisym : AntiSymm (=) text_le.
Proof.
  intros s. unfold text_le. induction s as [|c s IH]; intros [|d t]; simpl;
    try done.
  destruct (N.ltb_spec (N_of_ascii c) (N_of_ascii d));
    destruct (N.ltb_spec (N_of_ascii d) (N_of_ascii c)); try done; try lia.
  intros Hst Hts. f_equal; [apply N_of_ascii_inj; lia|by apply IH].
Qed.

#[local] Instance text_le_trans : Transitive text_le.
Proof.
  intros s. unfold text_le.
  induction s as [|c s IH]; intros [|d t] [|e u]; simpl; try done.
  destruct (N.ltb_spec (N_of_ascii c) (N_of_ascii d));
    destruct (N.ltb_spec (N_of_ascii d) (N_of_ascii c));
    destruct (N.ltb_spec (N_of_ascii d) (N_of_ascii e));
    destruct (N.ltb_spec (N_of_ascii e) (N_of_ascii d));
    destruct (N.ltb_spec (N_of_ascii c) (N_of_ascii e));
    destruct (N.ltb_spec (N_of_ascii e) (N_of_ascii c));
    try done; try lia.
  apply IH.
Qed.

Lemma sort_Permutation (a b : list string) : a ≡ₚ b ↔ sort a = sort b.
Proof.
  unfold sort. split.
  - intros Hp. apply (Sorted_unique text_le); try apply Sorted_merge_sort; try apply _.
    by rewrite !merge_sort_Permutation.
  - intros Heq. rewrite <- (merge_sort_Permutation text_le a), Heq.
    apply merge_sort_Permutation.
Qed.

Lemma join_inj (n : nat) (a b : list string) :
  (0 < n)%nat →
  Forall (λ s, String.length s = n) a → Forall (λ s, String.length s = n) b →
  join a = join b → a = b.
Proof.
  intros Hn Ha. revert b.
  induction Ha as [|x a Hx Ha IH]; intros b Hb Heq.
  - destruct Hb as [|y b Hy Hb]; [done|]. simpl in Heq.
    apply (f_equal String.length) in Heq. rewrite string_app_length in Heq.
    simpl in Heq. lia.
  - destruct Hb as [|y b Hy Hb]; simpl in Heq.
    + apply (f_equal String.length) in Heq. rewrite string_app_length in Heq.
      simpl in Heq. lia.
    + apply string_app_inj_length in Heq as [-> Heq]; [|congruence].
      f_equal. by apply IH.
Qed.

(** X23.  [fetchAndSetTaxiAssets], when the two lists hold asset hashes (64
    characters each): [setTaxiAssets] is dispatched exactly when the fetched
    assets are not a rearrangement of the current ones; and what is
    dispatched is the fetched list in sorted order, since [sort()] sorted the
    fetched array in place.  A failing fetch rejects the thunk and dispatches
    nothing. *)
Theorem taxi_assets_dispatched_iff_changed (currentAssets assets : list string) :
  Forall (λ s, String.length s = 64%nat) currentAssets →
  Forall (λ s, String.length s = 64%nat) assets →
  (currentAssets ≡ₚ assets →
   fetchAndSetTaxiAssets (Ok assets) currentAssets = (JS.PromiseFulfilled, []))
  ∧ (¬ currentAssets ≡ₚ assets →
     fetchAndSetTaxiAssets (Ok assets) currentAssets
       = (JS.PromiseFulfilled, [setTaxiAssets (sort assets)])
     ∧ sort assets ≡ₚ assets ∧ Sorted text_le (sort assets))
  ∧ (∀ e, fetchAndSetTaxiAssets (Throw e) currentAssets
          = (JS.PromiseRejected e, [])).
Proof.
  intros Hc Ha. unfold fetchAndSetTaxiAssets, sortAndJoin. simpl.
  split; [|split; [|done]].
  - intros Hp%sort_Permutation. by rewrite Hp, String.eqb_refl.
  - intros Hnp.
    destruct (String.eqb_spec (join (sort currentAssets)) (join (sort assets)))
      as [Heq|_].
    + exfalso. apply Hnp, sort_Permutation.
      apply (join_inj 64); [lia| | |done].
      * unfold sort. by rewrite merge_sort_Permutation.
      * unfold sort. by rewrite merge_sort_Permutation.
    + split; [done|]. split.
      * apply merge_sort_Permutation.
      * apply Sorted_merge_sort. apply _.
Qed.

End TaxiAssets.

(** ** The wallet repository *)

Section RepoProps.
Import Wallet Repo.
Context `{WalletMap}.

(** X24.  Creating a wallet in the repository keeps the wallets already
    stored, in place: the new one is appended when no stored wallet has its
    id, and the array is written back as it was otherwise.  Storage that
    holds no array makes the call throw. *)
Theorem getOrCreateWallet_keeps_stored (id : string) (w : IWallet)
    (store : Storage) :
  (store = None →
   getOrCreateWallet_create id w store = Throw not_iterable_message)
  ∧ ∀ wallets,
      store = Some wallets →
      ∃ added,
        getOrCreateWallet_create id w store
          = Ok (Some (wallets ++ added), {| walletId := id; wallet := w |})
        ∧ ((added = [] ∧ ∃ d, d ∈ wallets ∧ dto_walletId d = id)
           ∨ (added = [toDTO {| walletId := id; wallet := w |}]
              ∧ ∀ d, d ∈ wallets → dto_walletId d ≠ id)).
Proof.
  split; [by intros ->|]. intros wallets ->. unfold getOrCreateWallet_create.
  destruct (existsb _ wallets) eqn:He.
  - exists []. rewrite app_nil_r. split; [done|]. left. split; [done|].
    apply existsb_exists in He as (d & Hd%list_elem_of_In & Hid%String.eqb_eq).
    by exists d.
  - eexists. split; [done|]. right. split; [done|]. intros d Hd Hid.
    assert (existsb (λ sw, String.eqb (dto_walletId sw) id) wallets = true);
      [|congruence].
    apply existsb_exists. exists d. split; [by apply list_elem_of_In|].
    by apply String.eqb_eq.
Qed.

(** X25.  Storing a UTXO map over a non-empty storage leaves exactly one
    wallet in storage: the first stored wallet, as the mapper reads it and
    writes it back, with the new map in place of its own and its id and
    other fields as the mapper gave them; the wallets stored after the first
    are dropped.  When the mapper writes back what it read, this is the
    first stored wallet itself with the new map; and when the mapper reads
    the UTXO map of a stored wallet as it is, the new map is what the
    repository then finds on its wallet.  A first wallet the mapper cannot
    read makes the call throw the mapper's error, and with no wallet stored
    the call throws "wallet not found". *)
Theorem repo_setUtxos_single_wallet (m : UtxoMap) (store : Storage) :
  (store = None ∨ store = Some [] → setUtxos m store = Throw not_found_message)
  ∧ (∀ first others,
       store = Some (first :: others) →
       (∀ err, toDomain first = Throw err → setUtxos m store = Throw err)
       ∧ (∀ e,
            toDomain first = Ok e →
            ∃ d, setUtxos m store = Ok (Some [d])
                 ∧ dto_walletId d = dto_walletId (toDTO e)
                 ∧ utxoMap (dto_wallet d) = m
                 ∧ masterXPub (dto_wallet d) = masterXPub (dto_wallet (toDTO e))
                 ∧ masterBlindingKey (dto_wallet d)
                   = masterBlindingKey (dto_wallet (toDTO e))
                 ∧ encryptedMnemonic (dto_wallet d)
                   = encryptedMnemonic (dto_wallet (toDTO e))
                 ∧ passwordHash (dto_wallet d)
                   = passwordHash (dto_wallet (toDTO e))
                 ∧ confidentialAddresses (dto_wallet d)
                   = confidentialAddresses (dto_wallet (toDTO e))
                 ∧ (toDTO e = first → d = dto_set_utxoMap first m)
                 ∧ ((∀ d', ∃ e', toDomain d' = Ok e'
                                 ∧ utxoMap (wallet e')
                                   = utxoMap (dto_wallet d')) →
                    ∃ e', getOrCreateWallet_get (Some [d]) = Ok e'
                          ∧ utxoMap (wallet e') = m))).
Proof.
  split; [by intros [->| ->]|].
  intros first others ->. unfold setUtxos. simpl. split.
  - by intros err ->.
  - intros e ->. simpl. exists (dto_set_utxoMap (toDTO e) m).
    do 8 (split; [done|]). split; [by intros ->|].
    intros Hlaw.
    destruct (Hlaw (dto_set_utxoMap (toDTO e) m)) as (e' & He' & Hm).
    by exists e'.
Qed.

(** X26.  Deriving an address is idempotent in storage: when the mapper
    reads a stored wallet back as it was written, a second
    [addDerivedAddress] of the same address finds it already derived and
    leaves the storage as the first call left it; and after the first call
    the address is among the addresses of the stored wallet. *)
Theorem addDerivedAddress_idempotent (address : string) (store store' : Storage) :
  (∀ e, toDomain (toDTO e) = Ok e) →
  addDerivedAddress address store = Ok store' →
  addDerivedAddress address store' = Ok store'
  ∧ ∃ e, getOrCreateWallet_get store' = Ok e
         ∧ address ∈ confidentialAddresses (wallet e).
Proof.
  intros Hlaw. unfold addDerivedAddress.
  destruct (getOrCreateWallet_get store) as [e|err] eqn:Hget; simpl; [|done].
  case_bool_decide as Hin; simpl.
  - intros [= <-]. rewrite Hget. simpl.
    rewrite bool_decide_eq_true_2 by done. split; [done|]. by exists e.
  - intros [= <-]. simpl. rewrite Hlaw. simpl.
    rewrite bool_decide_eq_true_2 by (apply elem_of_app; right; by left).
    split; [done|]. eexists. split; [done|]. simpl.
    apply elem_of_app. right. by left.
Qed.

End RepoProps.

(** ** [deriveNewAddress] *)

Section DeriveProps.
Import Wallet Derive.
Context `{Env} `{DeriveEnv}.

Lemma deriveNewAddress_body_shapes (change : bool) (chain xpub blindingKey : string)
    (addresses : list string) :
  let r := Eff.async
             (Eff.catch
                (deriveNewAddress_body change chain xpub blindingKey addresses)
                (λ error,
                   Eff.emit (DispatchDeriveFailure error);;
                   Eff.emit (OnErrorDerive error))) in
  r.1 = JS.PromiseFulfilled
  ∧ ((∃ pk next address,
        r.2 = [RepoAddDerivedAddress address; DispatchDeriveSuccess address;
               OnSuccessAddress address]
        ∧ new_MasterPublicKey chain xpub blindingKey addresses = Ok pk
        ∧ pk_isRestored pk = true
        ∧ (if change then getNextChangeAddress pk else getNextAddress pk)
          = Ok next
        ∧ Address_create next = Ok address
        ∧ repo_addDerivedAddress address = Ok tt)
     ∨ (∃ e, r.2 = [DispatchDeriveFailure e; OnErrorDerive e])
     ∨ (∃ address e,
          r.2 = [RepoAddDerivedAddress address; DispatchDeriveFailure e;
                 OnErrorDerive e]
          ∧ repo_addDerivedAddress address = Throw e)).
Proof.
  unfold deriveNewAddress_body. simpl.
  destruct (new_MasterPublicKey _ _ _ _) as [pk|e]; simpl;
    [|split; [done|]; right; left; by exists e].
  destruct (pk_isRestored pk) eqn:Hrestored; simpl;
    [|split; [done|]; right; left; by eexists].
  destruct (if change then getNextChangeAddress pk else getNextAddress pk)
    as [next|e] eqn:Hnext; simpl;
    [|split; [done|]; right; left; by exists e].
  destruct (Address_create next) as [address|e] eqn:Hcreate; simpl;
    [|split; [done|]; right; left; by exists e].
  destruct (repo_addDerivedAddress address) as [[]|e] eqn:Hrepo; simpl.
  - split; [done|]. left. by exists pk, next, address.
  - split; [done|]. right. right. by exists address, e.
Qed.

(** X27.  [deriveNewAddress] rejects, having done nothing, exactly when the
    state has no first wallet with both master keys: with "Cannot derive new
    address" when the list of wallets or a key is absent, with a TypeError
    when the list is empty.  Otherwise it never rejects and ends with one
    continuation, called once: either the repository call, the success action
    and [onSuccess], all three with the same address, which [Address.create]
    made from the next address of the change chain or of the receiving chain
    as [change] says, of a restored identity; or the failure action and
    [onError] with one error, after the repository call when it is that call
    which failed. *)
Theorem deriveNewAddress_trace_shapes (change : bool) (st : DeriveState) :
  match derive_wallets st with
  | None => deriveNewAddress change st
              = (JS.PromiseRejected cannot_derive_message, [])
  | Some [] => deriveNewAddress change st
                 = (JS.PromiseRejected undefined_masterXPub_message, [])
  | Some (w :: _) =>
      match keys_masterXPub w, keys_masterBlindingKey w with
      | Some xpub, Some blindingKey =>
          let r := deriveNewAddress change st in
          r.1 = JS.PromiseFulfilled
          ∧ ((∃ pk next address,
                r.2 = [RepoAddDerivedAddress address;
                       DispatchDeriveSuccess address; OnSuccessAddress address]
                ∧ new_MasterPublicKey (derive_network st) xpub blindingKey
                    (keys_confidentialAddresses w) = Ok pk
                ∧ pk_isRestored pk = true
                ∧ (if change then getNextChangeAddress pk
                   else getNextAddress pk) = Ok next
                ∧ Address_create next = Ok address
                ∧ repo_addDerivedAddress address = Ok tt)
             ∨ (∃ e, r.2 = [DispatchDeriveFailure e; OnErrorDerive e])
             ∨ (∃ address e,
                  r.2 = [RepoAddDerivedAddress address; DispatchDeriveFailure e;
                         OnErrorDerive e]
                  ∧ repo_addDerivedAddress address = Throw e))
      | _, _ => deriveNewAddress change st
                  = (JS.PromiseRejected cannot_derive_message, [])
      end
  end.
Proof.
  unfold deriveNewAddress.
  destruct (derive_wallets st) as [[|w rest]|]; [done| |done].
  destruct (keys_masterXPub w) as [xpub|]; [|done].
  destruct (keys_masterBlindingKey w) as [blindingKey|]; [|done].
  apply deriveNewAddress_body_shapes.
Qed.

End DeriveProps.

(** ** The further properties at sample inputs *)

Lemma toStringOutpoint_injective_witness :
  toOutpoint (Fixtures.coin_a0 1) = toOutpoint (Fixtures.coin_a0 2).
Proof. apply toStringOutpoint_injective. reflexivity. Defined.

Lemma selected_utxos_count_witness :
  (length (Utils.selectedUtxos Samples.from_signed_tx)
   ≤ length (Utils.ins Fixtures.U.signed_tx))%nat.
Proof.
  refine (proj2 (@selected_utxos_count Fixtures.U.ldk [Fixtures.U.account_1]
            [Fixtures.coin_a0 1000] "regtest" "signed" Fixtures.U.signed_tx
            Samples.from_signed_tx _ _)); reflexivity.
Defined.

Lemma change_utxos_well_formed_witness :
  StronglySorted Z.lt
    (Utils.u_vout <$> Utils.changeUtxos Samples.from_signed_tx).
Proof.
  refine (proj2 (@change_utxos_well_formed Fixtures.U.ldk [Fixtures.U.account_1]
            [Fixtures.coin_a0 1000] "regtest" "signed" Fixtures.U.signed_tx
            [Fixtures.address_1] Samples.from_signed_tx _ _ _)); reflexivity.
Defined.

Lemma first_address_wins_witness :
  @Utils.change_of_output Fixtures.U.ldk Fixtures.txid_b "regtest"
    ([] ++ Fixtures.address_1
        :: [{| confidentialAddress := "el1qq-wallet-2";
               blindingPrivateKey := "key-2" |}])
    0 {| Utils.out_script := [Byte.x00; Byte.x14] |}
  = [{| Utils.u_txid := Fixtures.txid_b; Utils.u_vout := Z.of_nat 0;
        Utils.blindPrivKey := blindingPrivateKey Fixtures.address_1 |}].
Proof.
  refine (proj1 (@first_address_wins Fixtures.U.ldk Fixtures.txid_b "regtest" []
            [{| confidentialAddress := "el1qq-wallet-2";
                blindingPrivateKey := "key-2" |}]
            Fixtures.address_1 0 {| Utils.out_script := [Byte.x00; Byte.x14] |}
            "ert1q-wallet-1" _ _) "ert1q-wallet-1" _ _).
  - reflexivity.
  - intros x Hx. by apply elem_of_nil in Hx.
  - reflexivity.
  - left. reflexivity.
Defined.

Lemma makeUnconfirmedUtxos_all_or_nothing_witness :
  Forall2
    (λ c u,
       @Unconfirmed.unblindOutput Samples.ldk2 (Utils.u_txid c) (Utils.u_vout c)
         (Unconfirmed.outs_at Fixtures.U.signed_tx (Utils.u_vout c))
         (Utils.blindPrivKey c) = Ok u)
    [Samples.change_0]
    [{| txid := Fixtures.txid_b; vout := 0; asset := Some Fixtures.lbtc;
        value := Some 1000; prevout := Some "0014" |}].
Proof.
  refine (proj1 (@makeUnconfirmedUtxos_all_or_nothing Fixtures.U.ldk Samples.ldk2
            "signed" Fixtures.U.signed_tx _ _ _) _); reflexivity.
Defined.

Lemma change_utxos_have_prevouts_witness :
  Forall2
    (λ c u,
       ∃ out, Unconfirmed.outs_at Fixtures.U.signed_tx (Utils.u_vout c) = Some out
              ∧ @Unconfirmed.unblindOutput Samples.ldk2
                  (Utils.tx_getId Fixtures.U.signed_tx) (Utils.u_vout c)
                  (Some out) (Utils.blindPrivKey c) = Ok u)
    (Utils.changeUtxos Samples.from_signed_tx)
    [{| txid := Fixtures.txid_b; vout := 0; asset := Some Fixtures.lbtc;
        value := Some 1000; prevout := Some "0014" |}].
Proof.
  refine (proj1 (@change_utxos_have_prevouts Fixtures.U.ldk Samples.ldk2
            [Fixtures.U.account_1] [Fixtures.coin_a0 1000] "regtest" "signed"
            Fixtures.U.signed_tx Samples.from_signed_tx _ _ _) _); reflexivity.
Defined.

Lemma change_addresses_entries_witness :
  (length [{| Utils.u_txid := Fixtures.txid_b; Utils.u_vout := 0;
              Utils.blindPrivKey := "key-of-0014" |}]
   ≤ length ["el1qq-wallet-1"])%nat.
Proof.
  refine (proj2 (proj2 (proj2 (proj2
            (@change_addresses_entries Fixtures.U.ldk Samples.ldk2
               "regtest" "signed")))
            ["el1qq-wallet-1"] Samples.identity_1 [] Fixtures.U.signed_tx
            _ _ _)); reflexivity.
Defined.

Lemma getAllBalances_reports_last_value_witness :
  ∃ b,
    Wallet.getAllBalances (Fixtures.W.state_with Fixtures.W.two_coins)
      = (JS.Returns,
         ((Wallet.utxoMap (Fixtures.W.wallet_with Fixtures.W.two_coins)).*2
            ≫= WalletTrace.failure_signals)
           ++ [Wallet.Dispatch Wallet.WALLET_GET_ALL_BALANCES_SUCCESS;
               Wallet.OnSuccessBalances b])
    ∧ ∀ a, b !! a
           = last (filter (λ u, WalletTrace.counts_for a u = true)
                     (Wallet.utxoMap
                        (Fixtures.W.wallet_with Fixtures.W.two_coins)).*2)
               ≫= value.
Proof.
  apply (getAllBalances_reports_last_value
           (Fixtures.W.state_with Fixtures.W.two_coins)
           (Fixtures.W.wallet_with Fixtures.W.two_coins) []).
  reflexivity.
Defined.

Lemma compareUtxos_distinct_store_witness :
  [(toOutpoint (Fixtures.coin_a0 5), Fixtures.coin_a0 5)].*1
    ≡ₚ toOutpoint <$> [Fixtures.coin_a0 1000].
Proof.
  apply compareUtxos_distinct_store.
  - apply NoDup_singleton.
  - reflexivity.
Defined.

Lemma setUtxos_second_cycle_writes_nothing_witness :
  @Wallet.setUtxos Fixtures.W.env [Fixtures.address_1]
    (Wallet.with_utxoMap (Fixtures.W.state_with [])
       [(toOutpoint (Fixtures.coin_a0 1000), Fixtures.coin_a0 1000)])
    = (JS.PromiseFulfilled, [Wallet.OnSuccess]).
Proof.
  apply (@setUtxos_second_cycle_writes_nothing Fixtures.W.env).
  - intros u key. split; reflexivity.
  - reflexivity.
Defined.

Lemma createWallet_trace_shapes_witness :
  (@Wallet.createWallet Fixtures.W.env "password" "mnemonic"
     {| Wallet.app_network := "regtest"; Wallet.wallets := [] |}).1
    = JS.PromiseFulfilled.
Proof.
  refine (proj1 (@createWallet_trace_shapes Fixtures.W.env "password" "mnemonic"
            {| Wallet.app_network := "regtest"; Wallet.wallets := [] |} _)).
  reflexivity.
Defined.

Lemma restoreWallet_trace_shapes_witness :
  (@Wallet.restoreWallet Fixtures.W.env "password" "mnemonic"
     {| Wallet.app_network := "regtest"; Wallet.wallets := [] |}).1
    = JS.PromiseFulfilled.
Proof.
  refine (proj1 (@restoreWallet_trace_shapes Fixtures.W.env "password" "mnemonic"
            {| Wallet.app_network := "regtest"; Wallet.wallets := [] |} _)).
  reflexivity.
Defined.

Lemma aborted_cycle_deletes_nothing_witness :
  (@Backend.makeUtxosUpdaterThunk (Fixtures.B.env_with true)
     Fixtures.B.select_main
     {| Backend.app_isAuthenticated := false;
        Backend.explorerURL := "http://explorer"; Backend.assets := ∅;
        Backend.unspents := λ _, Fixtures.B.tracked_b1 |}).2 = [].
Proof.
  refine (proj2 (@aborted_cycle_deletes_nothing (Fixtures.B.env_with true)
            Fixtures.B.select_main
            {| Backend.app_isAuthenticated := false;
               Backend.explorerURL := "http://explorer"; Backend.assets := ∅;
               Backend.unspents := λ _, Fixtures.B.tracked_b1 |}
            Backend.NotAuthenticated _ _ _) _).
  - reflexivity.
  - intros n errors. discriminate.
  - reflexivity.
Defined.

Lemma added_utxos_are_fetched_and_unblinded_witness :
  "mainAccount"
    = Backend.accountID
        (Fixtures.B.select_main (Fixtures.B.state_with "http://explorer" ∅)).
Proof.
  refine (proj1 (@added_utxos_are_fetched_and_unblinded (Fixtures.B.env_with true)
            Fixtures.B.select_main (Fixtures.B.state_with "http://explorer" ∅)
            "mainAccount"
            {| txid := Fixtures.txid_a; vout := 0; asset := Some Fixtures.lbtc;
               value := Some 1000; prevout := Some "0014" |} _)).
  vm_compute. right. left.
Defined.

Lemma second_cycle_keeps_key_set_witness :
  dom (Backend.apply_diff
         (Backend.tracked Fixtures.B.select_main
            (Fixtures.B.state_with "http://explorer"
               (Backend.apply_diff ∅ Samples.first_cycle_actions)))
         [])
  = dom (Backend.tracked Fixtures.B.select_main
           (Fixtures.B.state_with "http://explorer"
              (Backend.apply_diff ∅ Samples.first_cycle_actions))).
Proof.
  refine (@second_cycle_keeps_key_set (Fixtures.B.env_with true)
            Fixtures.B.select_main
            (Fixtures.B.state_with "http://explorer" ∅)
            (Fixtures.B.state_with "http://explorer"
               (Backend.apply_diff ∅ Samples.first_cycle_actions))
            1 1 [] [] Samples.first_cycle_actions [] _ _ _ _ _ _).
  - intros k u Hku. vm_compute in Hku. discriminate.
  - vm_compute. reflexivity.
  - reflexivity.
  - reflexivity.
  - reflexivity.
  - vm_compute. reflexivity.
Defined.

Lemma Transaction_create_invariant_witness :
  @TransactionVO.create Samples.vo_ldk (Some Samples.send_props)
    = Ok {| TransactionVO.props := Samples.send_props |}.
Proof.
  refine (proj1 (proj2 (@Transaction_create_invariant Samples.vo_ldk
            (Some Samples.send_props))) Samples.send_props _ _ _ _ _ _ _).
  - reflexivity.
  - exists tt. reflexivity.
  - exists tt. reflexivity.
  - reflexivity.
  - reflexivity.
  - simpl. lia.
  - simpl. lia.
Defined.

Lemma numberToString_round_trip_witness :
  ∃ digits, "0x204e000000000000" = "0x" +:+ digits
            ∧ String.length digits = 16%nat
            ∧ all_hex digits = true
            ∧ TestUtils.le_value (Hex.Buffer_from_hex digits) = 20000.
Proof.
  apply (proj2 (numberToString_round_trip 20000) "0x204e000000000000").
  reflexivity.
Defined.

Lemma blind_key_getter_within_change_detection_witness :
  ∃ a addr,
    @Utils.address_fromOutputScript Fixtures.U.ldk [Byte.x00; Byte.x14] "regtest"
      = Ok a
    ∧ @Utils.detect_change Fixtures.U.ldk "regtest" [Fixtures.address_1]
        {| Utils.out_script := [Byte.x00; Byte.x14] |} = Ok (Some addr)
    ∧ addr ∈ [Fixtures.address_1]
    ∧ (blindingPrivateKey addr = "key-1" ∨ a = confidentialAddress addr).
Proof.
  apply (@blind_key_getter_within_change_detection Fixtures.U.ldk).
  reflexivity.
Defined.

Lemma taxi_assets_dispatched_iff_changed_witness :
  BackendMore.fetchAndSetTaxiAssets (Ok [Fixtures.txid_b; Fixtures.txid_a])
    [Fixtures.txid_a]
    = (JS.PromiseFulfilled,
       [BackendMore.setTaxiAssets
          (BackendMore.sort [Fixtures.txid_b; Fixtures.txid_a])])
  ∧ BackendMore.sort [Fixtures.txid_b; Fixtures.txid_a]
      ≡ₚ [Fixtures.txid_b; Fixtures.txid_a]
  ∧ Sorted BackendMore.text_le
      (BackendMore.sort [Fixtures.txid_b; Fixtures.txid_a]).
Proof.
  refine (proj1 (proj2 (taxi_assets_dispatched_iff_changed [Fixtures.txid_a]
            [Fixtures.txid_b; Fixtures.txid_a] _ _)) _).
  - repeat constructor.
  - repeat constructor.
  - intros Hp. apply Permutation_length in Hp. discriminate.
Defined.

Lemma getOrCreateWallet_keeps_stored_witness :
  ∃ added,
    @Repo.getOrCreateWallet_create Samples.wallet_map "wallet-2"
      (Fixtures.W.wallet_with []) (Some [Samples.stored_wallet])
      = Ok (Some ([Samples.stored_wallet] ++ added),
            {| Repo.walletId := "wallet-2";
               Repo.wallet := Fixtures.W.wallet_with [] |})
    ∧ ((added = []
        ∧ ∃ d, d ∈ [Samples.stored_wallet] ∧ Repo.dto_walletId d = "wallet-2")
       ∨ (added = [@Repo.toDTO Samples.wallet_map
                     {| Repo.walletId := "wallet-2";
                        Repo.wallet := Fixtures.W.wallet_with [] |}]
          ∧ ∀ d, d ∈ [Samples.stored_wallet] → Repo.dto_walletId d ≠ "wallet-2")).
Proof.
  apply (proj2 (@getOrCreateWallet_keeps_stored Samples.wallet_map "wallet-2"
                  (Fixtures.W.wallet_with []) (Some [Samples.stored_wallet]))).
  reflexivity.
Defined.

Lemma repo_setUtxos_single_wallet_witness :
  ∃ d, @Repo.setUtxos Samples.wallet_map Fixtures.W.two_coins
         (Some [Samples.stored_wallet;
                Repo.dto_set_utxoMap Samples.stored_wallet
                  Fixtures.W.one_blinded]) = Ok (Some [d])
       ∧ d = Repo.dto_set_utxoMap Samples.stored_wallet Fixtures.W.two_coins.
Proof.
  destruct (proj2 (proj2 (@repo_setUtxos_single_wallet Samples.wallet_map
                     Fixtures.W.two_coins
                     (Some [Samples.stored_wallet;
                            Repo.dto_set_utxoMap Samples.stored_wallet
                              Fixtures.W.one_blinded]))
                     Samples.stored_wallet
                     [Repo.dto_set_utxoMap Samples.stored_wallet
                        Fixtures.W.one_blinded] eq_refl)
                  {| Repo.walletId := "wallet-1";
                     Repo.wallet := Fixtures.W.wallet_with [] |} eq_refl)
    as (d & Hset & _ & _ & _ & _ & _ & _ & _ & Hfirst & _).
  exists d. split; [exact Hset|]. apply Hfirst. reflexivity.
Defined.

Lemma addDerivedAddress_idempotent_witness :
  @Repo.addDerivedAddress Samples.wallet_map "el1qq-wallet-2"
    (Some [{| Repo.dto_walletId := "wallet-1";
              Repo.dto_wallet :=
                Repo.wallet
                  (Repo.entity_push_address
                     {| Repo.walletId := "wallet-1";
                        Repo.wallet := Fixtures.W.wallet_with [] |}
                     "el1qq-wallet-2") |}])
  = Ok (Some [{| Repo.dto_walletId := "wallet-1";
                 Repo.dto_wallet :=
                   Repo.wallet
                     (Repo.entity_push_address
                        {| Repo.walletId := "wallet-1";
                           Repo.wallet := Fixtures.W.wallet_with [] |}
                        "el1qq-wallet-2") |}]).
Proof.
  refine (proj1 (@addDerivedAddress_idempotent Samples.wallet_map "el1qq-wallet-2"
            (Some [Samples.stored_wallet]) _ _ _)).
  - intros [id w]. reflexivity.
  - reflexivity.
Defined.
